(** * echion: frame resolution, string interning and the MOJO trace encoder

    A shallow embedding of [echion/frame.h], [echion/strings.h] and
    [echion/render.h], and the properties of the location-table decoders,
    the string table, the frame resolver and the variable-length integer
    encoder that follow from the code. *)

From Stdlib Require Import ZArith List Lia Bool.
From Stdlib.Strings Require Import Byte.
From stdpp Require Import gmap strings list pretty.

Local Open Scope Z_scope.

(** ** Machine integers

    [int] and [unsigned int] are 32 bits wide, [uintptr_t], [mojo_int_t] and
    [mojo_uint_t] 64 bits.  Values are kept in [Z]; every operation that can
    leave the type's range writes its wrap-around out. *)

Definition to_uint32 (z : Z) : Z := z mod 2 ^ 32.

Definition to_int32 (z : Z) : Z := (z + 2 ^ 31) mod 2 ^ 32 - 2 ^ 31.

Definition to_uint64 (z : Z) : Z := z mod 2 ^ 64.

(** An [unsigned char] read from a buffer, as the integer it promotes to. *)
Definition byte_val (b : byte) : Z := Z.of_N (Byte.to_N b).

(** [Frame::_location] *)
Record Location : Type := mkLocation {
  line : Z;
  line_end : Z;
  column : Z;
  column_end : Z
}.

(** ** The binary trace encoder ([render.h], [MojoRenderer]) *)

(** The event tags [render.h] writes; their byte values are those of
    [enum MojoEvent] in [mojo.h]. *)
Inductive MojoEvent : Type :=
| MOJO_METADATA
| MOJO_STACK
| MOJO_FRAME
| MOJO_FRAME_KERNEL
| MOJO_METRIC_TIME
| MOJO_METRIC_MEMORY
| MOJO_STRING
| MOJO_STRING_REF.

#[global] Instance MojoEvent_eq_dec : EqDecision MojoEvent.
Proof. solve_decision. Defined.

(** What one call on the output stream appends: [output.put((char)event)],
    [output.put(byte)], or [output << string << 0]. *)
Inductive out_item : Type :=
| PutEvent (e : MojoEvent)
| PutByte (b : Z)
| PutString (s : string).

(** Modelled from the spec: [MOJO_INT32] is defined in [mojo.h], which is not
    among the sources; the reference encoding masks the key to a fixed 32-bit
    range. *)
Definition MOJO_INT32 : Z := 2 ^ 32 - 1.


Module MojoRenderer.

(** The [while (integer)] loop.  [integer] is a [mojo_uint_t] already
    shifted right by 6, so it has at most 58 significant bits and the loop,
    which drops 7 bits a turn, runs at most 9 times; [fuel] bounds the
    number of turns. *)
Fixpoint integer_loop (fuel : nat) (integer : Z) : list Z :=
  match fuel with
  | O => []
  | S fuel' =>
      if integer =? 0 then []
      else
        let byte := Z.land integer 0x7f in
        let integer := Z.shiftr integer 7 in
        let byte := if integer =? 0 then byte else Z.lor byte 0x80 in
        byte :: integer_loop fuel' integer
  end.

(** [void integer(mojo_int_t n)]: the bytes handed to [output.put].
    [mojo_int_t] and [mojo_uint_t] are declared in [mojo.h], which is not
    among the sources; they are taken to be 64 bits wide, which holds every
    integer the specification asks the form to carry. *)
Definition integer (n : Z) : list Z :=
  let integer := to_uint64 (if n <? 0 then - n else n) in
  let sign := n <? 0 in
  let byte := Z.land integer 0x3f in
  let byte := if sign then Z.lor byte 0x40 else byte in
  let integer := Z.shiftr integer 6 in
  let byte := if integer =? 0 then byte else Z.lor byte 0x80 in
  byte :: integer_loop 10 integer.

(** The first byte [integer] puts, by its three parts: the low 6 bits of the
    magnitude, the sign and whether more bytes follow. *)
Definition first_byte (mag : Z) (sign more : bool) : Z :=
  let byte := Z.land mag 0x3f in
  let byte := if sign then Z.lor byte 0x40 else byte in
  if more then Z.lor byte 0x80 else byte.

Definition event (e : MojoEvent) : list out_item := [PutEvent e].

(** [void string(const std::string &string)] *)
Definition string_ (s : string) : list out_item := [PutString s].

Definition put_integer (n : Z) : list out_item := PutByte <$> integer n.

Definition ref (value : Z) : list out_item := put_integer (Z.land MOJO_INT32 value).

(** [void frame(key, filename, name, line, line_end, column, column_end)] *)
Definition frame (key filename name : Z) (loc : Location) : list out_item :=
  event MOJO_FRAME ++ ref key ++ ref filename ++ ref name
    ++ put_integer (line loc) ++ put_integer (line_end loc)
    ++ put_integer (column loc) ++ put_integer (column_end loc).

(** [void string(mojo_ref_t key, const std::string &value)] *)
Definition string_decl (key : Z) (value : string) : list out_item :=
  event MOJO_STRING ++ ref key ++ string_ value.

(** [void string_ref(mojo_ref_t key)] *)
Definition string_ref (key : Z) : list out_item :=
  event MOJO_STRING_REF ++ ref key.

(** The reader of the integer form, written from the words of the
    specification (the sources only write the form): the first byte holds 6
    magnitude bits, a sign bit (0x40) and a continuation bit (0x80); each
    later byte holds 7 magnitude bits and a continuation bit; the magnitude
    is reassembled least-significant chunk first and negated if the sign
    bit was set.  Returns the value and the bytes left over, [None] when
    the bytes end inside an integer. *)
Fixpoint decode_magnitude (bs : list Z) (shift acc : Z) : option (Z * list Z) :=
  match bs with
  | [] => None
  | b :: bs' =>
      let acc' := acc + Z.shiftl (Z.land b 0x7f) shift in
      if Z.testbit b 7 then decode_magnitude bs' (shift + 7) acc'
      else Some (acc', bs')
  end.

Definition decode_integer (bs : list Z) : option (Z * list Z) :=
  match bs with
  | [] => None
  | b :: bs' =>
      let negate (m : Z) := if Z.testbit b 6 then - m else m in
      if Z.testbit b 7 then
        match decode_magnitude bs' 6 (Z.land b 0x3f) with
        | Some (m, rest) => Some (negate m, rest)
        | None => None
        end
      else Some (negate (Z.land b 0x3f), bs')
  end.

End MojoRenderer.

(** ** Outcomes of a call

    A call returns, throws one of the exception classes of the sources, reads
    a buffer outside its bounds (undefined behaviour in C++; kept as an outcome
    of its own so that its absence can be stated), or exhausts the loop budget
    of the model. *)

Inductive exn : Type :=
| StringError
| LongError
| StringTable_Error
| StringTable_LookupError
| Frame_Error
| Frame_LocationError
| Cache_LookupError.

(** [catch (StringTable::Error &)] also catches [StringTable::LookupError]. *)
Definition is_StringTable_Error (e : exn) : bool :=
  match e with
  | StringTable_Error | StringTable_LookupError => true
  | _ => false
  end.

Definition is_StringError (e : exn) : bool :=
  match e with StringError => true | _ => false end.

Definition is_LongError (e : exn) : bool :=
  match e with LongError => true | _ => false end.

Definition is_Cache_LookupError (e : exn) : bool :=
  match e with Cache_LookupError => true | _ => false end.

(** [catch (Frame::Error &)] also catches [Frame::LocationError]. *)
Definition is_Frame_Error (e : exn) : bool :=
  match e with
  | Frame_Error | Frame_LocationError => true
  | _ => false
  end.

Inductive outcome (A : Type) : Type :=
| Ret (a : A)
| Throw (e : exn)
| OutOfBounds
| OutOfFuel.

Arguments Ret {A} a.
Arguments Throw {A} e.
Arguments OutOfBounds {A}.
Arguments OutOfFuel {A}.

Definition bind {A B : Type} (m : outcome A) (k : A -> outcome B) : outcome B :=
  match m with
  | Ret a => k a
  | Throw e => Throw e
  | OutOfBounds => OutOfBounds
  | OutOfFuel => OutOfFuel
  end.

Notation "'let?' x ':=' m 'in' k" := (bind m (fun x => k))
  (at level 10, x name, m at level 100, k at level 200).
Notation "'let?' ' pat ':=' m 'in' k" := (bind m (fun x => match x with pat => k end))
  (at level 10, pat pattern, m at level 100, k at level 200).

(** ** Location tables ([frame.h]) *)

Module LineTable.

(** [table[i]] on a buffer of [length table] bytes. *)
Definition table_at (table : list byte) (i : Z) : outcome Z :=
  if i <? 0 then OutOfBounds
  else match table !! Z.to_nat i with
       | Some b => Ret (byte_val b)
       | None => OutOfBounds
       end.

(** [a << shift] on [int].  C++ leaves the shift undefined once [shift]
    reaches 32; the model takes the count modulo 32 there, which is what the
    shift instruction of an x86-64 build does. *)
Definition shl_int (a shift : Z) : Z := to_int32 (Z.shiftl a (shift mod 32)).

(** The [while (table[*i] & 64 && *i < guard)] loop of [_read_varint]; the
    result is [(val, *i)]. *)
Fixpoint read_varint_loop (fuel : nat) (table : list byte)
    (guard i shift val : Z) : outcome (Z * Z) :=
  let? b := table_at table i in
  if (Z.land b 64 =? 0) || negb (i <? guard) then Ret (val, i)
  else
    match fuel with
    | O => OutOfFuel
    | S fuel' =>
        let shift := shift + 6 in
        let i := i + 1 in
        let? b' := table_at table i in
        let val := Z.lor val (shl_int (Z.land b' 63) shift) in
        read_varint_loop fuel' table guard i shift val
    end.

(** [_read_varint(table, size, &i)]: the value and the new [*i]. *)
Definition _read_varint (table : list byte) (size i : Z) : outcome (Z * Z) :=
  let guard := size - 1 in
  if i >=? guard then Ret (0, i)
  else
    let i := i + 1 in
    let? b := table_at table i in
    let val := Z.land b 63 in
    read_varint_loop (length table) table guard i 0 val.

(** [_read_signed_varint(table, size, &i)]. *)
Definition _read_signed_varint (table : list byte) (size i : Z) : outcome (Z * Z) :=
  let? '(val, i) := _read_varint table size i in
  Ret (if Z.land val 1 =? 0 then Z.shiftr val 1 else - Z.shiftr val 1, i).

(** One turn of the [switch] of the 3.11 decoder at entry byte [table[i]]
    with kind [code]: the new [i], [lineno] and [location]. *)
Definition entry (table : list byte) (len code i lineno : Z) (loc : Location)
    : outcome (Z * Z * Location) :=
  if code =? 15 then Ret (i, lineno, loc)
  else if code =? 14 then
    let? '(d, i) := _read_signed_varint table len i in
    let lineno := to_uint32 (lineno + d) in
    let l := to_int32 lineno in
    let? '(v, i) := _read_varint table len i in
    let le := to_int32 (to_uint32 (lineno + v)) in
    let? '(c, i) := _read_varint table len i in
    let? '(ce, i) := _read_varint table len i in
    Ret (i, lineno, mkLocation l le c ce)
  else if code =? 13 then
    let? '(d, i) := _read_signed_varint table len i in
    let lineno := to_uint32 (lineno + d) in
    Ret (i, lineno, mkLocation (to_int32 lineno) (to_int32 lineno) 0 0)
  else if (code =? 12) || (code =? 11) || (code =? 10) then
    if i >=? len - 2 then Throw Frame_LocationError
    else
      let lineno := to_uint32 (lineno + (code - 10)) in
      let i := i + 1 in
      let? c := table_at table i in
      let i := i + 1 in
      let? ce := table_at table i in
      Ret (i, lineno, mkLocation (to_int32 lineno) (to_int32 lineno) (1 + c) (1 + ce))
  else
    if i >=? len - 1 then Throw Frame_LocationError
    else
      let i := i + 1 in
      let? next_byte := table_at table i in
      let col := 1 + Z.shiftl code 3 + Z.land (Z.shiftr next_byte 4) 7 in
      Ret (i, lineno,
           mkLocation (to_int32 lineno) (to_int32 lineno) col (col + Z.land next_byte 15)).

(** The [for (Py_ssize_t i = 0, bc = 0; i < len; i++)] loop of the 3.11
    decoder, entered with the loop condition about to be tested; the result
    is [lineno] and [location] when the loop is left. *)
Fixpoint loop_311 (fuel : nat) (table : list byte)
    (lasti i bc lineno : Z) (loc : Location) : outcome (Z * Location) :=
  let len := Z.of_nat (length table) in
  if negb (i <? len) then Ret (lineno, loc)
  else
    match fuel with
    | O => OutOfFuel
    | S fuel' =>
        let? b := table_at table i in
        let bc := bc + (Z.land b 7 + 1) in
        let code := Z.land (Z.shiftr b 3) 15 in
        let? '(i, lineno, loc) := entry table len code i lineno loc in
        if bc >? lasti then Ret (lineno, loc)
        else loop_311 fuel' table lasti (i + 1) bc lineno loc
    end.

(** The loop of the 3.10 decoder (pairs of bytecode delta and line delta);
    [lasti] is already doubled.  The result is [lineno]. *)
Fixpoint loop_310 (fuel : nat) (table : list byte)
    (lasti i bc lineno : Z) : outcome Z :=
  let len := Z.of_nat (length table) in
  if negb (i <? len) then Ret lineno
  else
    match fuel with
    | O => OutOfFuel
    | S fuel' =>
        let? sdelta := table_at table i in
        let i := i + 1 in
        if sdelta =? 0xff then Ret lineno
        else
          let bc := bc + sdelta in
          let? ldelta := table_at table i in
          let lineno :=
            if ldelta =? 0x80 then lineno
            else if ldelta >? 0x80 then to_uint32 (to_uint32 (lineno - 0x100) + ldelta)
            else to_uint32 (lineno + ldelta) in
          if bc >? lasti then Ret lineno
          else loop_310 fuel' table lasti (i + 1) bc lineno
    end.

(** The loop of the decoder for [co_lnotab] (before 3.10). *)
Fixpoint loop_legacy (fuel : nat) (table : list byte)
    (lasti i bc lineno : Z) : outcome Z :=
  let len := Z.of_nat (length table) in
  if negb (i <? len) then Ret lineno
  else
    match fuel with
    | O => OutOfFuel
    | S fuel' =>
        let? b := table_at table i in
        let bc := bc + b in
        let i := i + 1 in
        if bc >? lasti then Ret lineno
        else
          let? d := table_at table i in
          let lineno := if d >=? 0x80 then to_uint32 (lineno - 0x100) else lineno in
          let? d' := table_at table i in
          let lineno := to_uint32 (lineno + d') in
          loop_legacy fuel' table lasti (i + 1) bc lineno
    end.

(** The assignments after the [#endif], common to the three decoders. *)
Definition final_location (lineno : Z) : Location :=
  mkLocation (to_int32 lineno) (to_int32 lineno) 0 0.

(** The three bodies of [Frame::infer_location] once the table has been
    copied: [first] is [code->co_firstlineno]. *)
Definition decode_311 (table : list byte) (first lasti : Z) : outcome Location :=
  let? '(lineno, _) := loop_311 (length table) table lasti 0 0 (to_uint32 first)
                    (mkLocation 0 0 0 0) in
  Ret (final_location lineno).

Definition decode_310 (table : list byte) (first lasti : Z) : outcome Location :=
  let lasti := to_int32 (Z.shiftl lasti 1) in
  let? lineno := loop_310 (length table) table lasti 0 0 (to_uint32 first) in
  Ret (final_location lineno).

Definition decode_legacy (table : list byte) (first lasti : Z) : outcome Location :=
  let? lineno := loop_legacy (length table) table lasti 0 0 (to_uint32 first) in
  Ret (final_location lineno).

(** *** The layout of a 3.11 table, in the words of the specification

    The table is a sequence of entries.  Bits 3 to 6 of an entry byte are
    the entry's kind.  An entry of kind 15 is the entry byte alone; the
    short form (kinds 0 to 9) has one more byte; kinds 10 to 12 have two
    column bytes; kind 13 has one variable-length integer and kind 14 has
    four.  A variable-length integer goes on for as long as the 0x40 bit of
    its byte is set and the table has a byte left.  These definitions take
    no part in the decoders above: the decoders are compared with them. *)

(** The kind of the entry whose entry byte is [table[i]]. *)
Definition kind_at (table : list byte) (i : Z) : option Z :=
  match table_at table i with
  | Ret b => Some (Z.land (Z.shiftr b 3) 15)
  | _ => None
  end.

(** The entry at [i] needs trailing bytes beyond the table's end: the one
    trailing byte of the short form, or one of the two column bytes of kinds
    10 to 12. *)
Definition lacks_trailing_bytes (table : list byte) (i : Z) : bool :=
  let len := Z.of_nat (length table) in
  match kind_at table i with
  | Some code =>
      if code <=? 9 then len <=? i + 1
      else if code <=? 12 then len <=? i + 2
      else false
  | None => false
  end.

(** The index of the last byte of a variable-length integer whose first
    byte is [table[i]]. *)
Fixpoint varint_scan (fuel : nat) (table : list byte) (i : Z) : Z :=
  match fuel with
  | O => i
  | S fuel' =>
      match table_at table i with
      | Ret b =>
          if negb (Z.land b 64 =? 0) && (i + 1 <? Z.of_nat (length table))
          then varint_scan fuel' table (i + 1)
          else i
      | _ => i
      end
  end.

(** The index of the last byte of the variable-length integer that stands
    behind index [i]; [i] itself when no byte is left for it. *)
Definition varint_last (table : list byte) (i : Z) : Z :=
  if Z.of_nat (length table) <=? i + 1 then i
  else varint_scan (length table) table (i + 1).

(** The index of the last byte of the entry at [i]. *)
Definition entry_last (table : list byte) (i : Z) : Z :=
  match kind_at table i with
  | Some code =>
      if code =? 15 then i
      else if code =? 14 then
        varint_last table (varint_last table (varint_last table (varint_last table i)))
      else if code =? 13 then varint_last table i
      else if 10 <=? code then i + 2
      else i + 1
  | None => i
  end.

(** The entries decoding looks at for the offset [lasti], by the index of
    their entry byte: the entries from [i] on, up to and with the first one
    that takes the bytecode offset beyond [lasti]. *)
Fixpoint entries_from (fuel : nat) (table : list byte) (lasti i bc : Z) : list Z :=
  match fuel with
  | O => []
  | S fuel' =>
      match table_at table i with
      | Ret b =>
          let bc := bc + (Z.land b 7 + 1) in
          i :: (if bc >? lasti then []
                else entries_from fuel' table lasti (entry_last table i + 1) bc)
      | _ => []
      end
  end.

Definition entries_reached (table : list byte) (lasti : Z) : list Z :=
  entries_from (length table) table lasti 0 0.

End LineTable.

(** ** Foreign memory, the unwinder and the target runtime

    [copy_type] and [copy_generic] ([vm.h]) copy a struct or a byte range out
    of the sampled process and may fail.  The memory is given by what a copy
    at an address yields for each struct type the sources copy, [None] when
    the copy fails; only the fields the sources read are kept. *)

Record PyCodeObject : Type := {
  co_filename : Z;
  co_name : Z;
  co_qualname : Z;
  co_firstlineno : Z;
  co_linetable : Z;
  co_lnotab : Z
}.

Record PyBytesObject : Type := { ob_size : Z }.

Record PyUnicodeObject : Type := {
  state_kind : Z;
  state_compact : bool;
  ascii_length : Z;
  utf8 : Z;
  utf8_length : Z
}.

Record PyLongObject : Type := {
  long_exact : bool;          (* PyLong_CheckExact *)
  long_compact : bool;        (* _PyLong_IsCompact *)
  long_compact_value : Z;     (* _PyLong_CompactValue *)
  long_sign : Z;              (* _PyLong_NonCompactSign *)
  long_digits : list Z        (* ob_digit[0 .. _PyLong_DigitCount) *)
}.

(** [_PyInterpreterFrame] (3.11 and later); [f_code] stands for
    [f_executable] from 3.13 on and [prev_instr] for [instr_ptr]. *)
Record InterpreterFrame : Type := {
  f_code : Z;
  prev_instr : Z;
  previous : Z;
  owner : Z;
  iframe_is_entry : bool
}.

(** [PyFrameObject] (before 3.11). *)
Record PyFrameObject : Type := {
  pf_code : Z;
  pf_lasti : Z;
  pf_back : Z
}.

Record Memory : Type := {
  code_at : Z -> option PyCodeObject;
  bytes_at : Z -> option PyBytesObject;
  unicode_at : Z -> option PyUnicodeObject;
  long_at : Z -> option PyLongObject;
  iframe_at : Z -> option InterpreterFrame;
  (** a [PyObject] header: whether [ob_type == &PyCode_Type] *)
  is_code_at : Z -> option bool;
  pyframe_at : Z -> option PyFrameObject;
  byte_at : Z -> option byte
}.

(** A libunwind cursor, by what the unwinder answers for it: the value left in
    [pc] by [unw_get_reg], the [start_ip] of [unw_get_proc_info] and the name
    of [unw_get_proc_name], [None] when the call fails. *)
Record unw_cursor_t : Type := {
  reg_ip : Z;
  proc_info_start_ip : option Z;
  proc_name : option string
}.

(** The interpreter version the sources are compiled for, struct layout
    constants of its headers, and the library calls whose results the sources
    pass through. *)
Record Runtime : Type := {
  PY_VERSION_HEX : Z;
  sizeof_PyASCIIObject : Z;
  offsetof_ob_sval : Z;            (* offsetof(PyBytesObject, ob_sval) *)
  offsetof_co_code_adaptive : Z;   (* offsetof(PyCodeObject, co_code_adaptive) *)
  format_pointer : Z -> string;    (* printf's %p *)
  cxa_demangle : string -> option string;  (* Some: status == 0 *)
  (** [pylong_to_llong] has no [return] statement: what its caller receives
      when control flows off its end, given the [ret] it computed. *)
  flow_off_end : Z -> Z
}.

Definition FRAME_OWNED_BY_CSTACK : Z := 3.
Definition PyLong_SHIFT : Z := 30.
Definition sizeof_Py_CODEUNIT : Z := 2.

(** ** The frame record and the frame cache *)

Record Frame : Type := mkFrame {
  cache_key : Z;
  filename : Z;
  name : Z;
  location : Location;
  is_entry : bool
}.

(** Modelled from the spec: [LRUCache] is defined in [cache.h], which is not
    among the sources.  A mapping bounded at a fixed capacity with a recency
    order, most recently used first; [lookup] fails with [LookupError] if the
    key is absent and otherwise promotes the entry to most recently used;
    [store] evicts the least recently used entry if at capacity and inserts
    the new one as most recently used. *)
Module LRUCache.

Record t : Type := mk {
  capacity : nat;
  items : list (Z * Frame)
}.

Definition find (k : Z) (c : t) : option Frame :=
  snd <$> List.find (fun kv => bool_decide (fst kv = k)) (items c).

Definition remove (k : Z) (l : list (Z * Frame)) : list (Z * Frame) :=
  List.filter (fun kv => negb (bool_decide (fst kv = k))) l.

Definition lookup (k : Z) (c : t) : outcome t :=
  match find k c with
  | Some v => Ret (mk (capacity c) ((k, v) :: remove k (items c)))
  | None => Throw Cache_LookupError
  end.

Definition store (k : Z) (v : Frame) (c : t) : t :=
  let kept :=
    if (capacity c <=? length (items c))%nat then removelast (items c)
    else items c in
  mk (capacity c) ((k, v) :: kept).

(** Assignment through a [Frame &] that points into the cache. *)
Definition update (k : Z) (f : Frame -> Frame) (c : t) : t :=
  mk (capacity c)
     (List.map (fun kv => if bool_decide (fst kv = k) then (fst kv, f (snd kv)) else kv)
               (items c)).

End LRUCache.

(** ** Process state

    The string table, the frame cache and the bytes written to the trace
    are process-wide; [reads] counts the calls of [copy_type] and
    [copy_generic], the way a counting double of the two primitives would. *)
Record World : Type := mkWorld {
  string_table : gmap Z string;
  frame_cache : LRUCache.t;
  output : list out_item;
  reads : nat
}.

(** A call threads the state; when it throws, the state changes made up to the
    throw stay. *)
Definition M (A : Type) : Type := World -> outcome A * World.

Definition pure {A : Type} (a : A) : M A := fun w => (Ret a, w).

Definition bindM {A B : Type} (m : M A) (k : A -> M B) : M B := fun w =>
  match m w with
  | (Ret a, w') => k a w'
  | (Throw e, w') => (Throw e, w')
  | (OutOfBounds, w') => (OutOfBounds, w')
  | (OutOfFuel, w') => (OutOfFuel, w')
  end.

Notation "'let*' x ':=' m 'in' k" := (bindM m (fun x => k))
  (at level 10, x name, m at level 100, k at level 200).
Notation "'let*' ' pat ':=' m 'in' k" := (bindM m (fun x => match x with pat => k end))
  (at level 10, pat pattern, m at level 100, k at level 200).

Definition throw {A : Type} (e : exn) : M A := fun w => (Throw e, w).

Definition lift {A : Type} (o : outcome A) : M A := fun w => (o, w).

(** [try { body } catch (E &) { handler }], [catches] telling which exceptions
    are an [E]. *)
Definition try_catch {A : Type} (body : M A) (catches : exn -> bool)
    (handler : M A) : M A := fun w =>
  match body w with
  | (Throw e, w') => if catches e then handler w' else (Throw e, w')
  | r => r
  end.

Definition count_read : M unit := fun w =>
  (Ret tt, mkWorld (string_table w) (frame_cache w) (output w) (S (reads w))).

(** [copy_type(addr, dest)]: [None] when the copy fails. *)
Definition copy_type {T : Type} (view : Z -> option T) (addr : Z) : M (option T) :=
  let* _ := count_read in pure (view addr).

(** [copy_generic(addr, dest, size)]: the [size] bytes at [addr]. *)
Definition copy_generic (mem : Memory) (addr size : Z) : M (option (list byte)) :=
  let* _ := count_read in
  pure (mapM (fun k => byte_at mem (addr + Z.of_nat k)) (seq 0 (Z.to_nat size))).

Definition emplace (k : Z) (s : string) : M unit := fun w =>
  (Ret tt,
   mkWorld (match string_table w !! k with
            | Some _ => string_table w
            | None => <[k := s]> (string_table w)
            end)
           (frame_cache w) (output w) (reads w)).

Definition emit (items : list out_item) : M unit := fun w =>
  (Ret tt, mkWorld (string_table w) (frame_cache w) (output w ++ items) (reads w)).

(** ** Reading strings and byte objects ([strings.h]) *)

(** [pybytes_to_bytes_and_size]: the buffer, whose length is [*size];
    [None] is [nullptr]. *)
Definition pybytes_to_bytes_and_size (rt : Runtime) (mem : Memory) (bytes_addr : Z)
    : M (option (list byte)) :=
  let* bytes := copy_type (bytes_at mem) bytes_addr in
  match bytes with
  | None => pure None
  | Some bytes =>
      let size := ob_size bytes in
      if (size <? 0) || (size >? 2 ^ 20) then pure None
      else copy_generic mem (bytes_addr + offsetof_ob_sval rt) size
  end.

(** [pyunicode_to_utf8] *)
Definition pyunicode_to_utf8 (rt : Runtime) (mem : Memory) (str_addr : Z) : M string :=
  let* str := copy_type (unicode_at mem) str_addr in
  match str with
  | None => throw StringError
  | Some str =>
      if negb (state_kind str =? 1) then throw StringError
      else
        let data := if state_compact str then str_addr + sizeof_PyASCIIObject rt
                    else utf8 str in
        if data =? 0 then throw StringError
        else
          let size := if state_compact str then ascii_length str else utf8_length str in
          if (size <? 0) || (size >? 1024) then throw StringError
          else
            let* dest := copy_generic mem data size in
            match dest with
            | None => throw StringError
            | Some dest => pure (String.string_of_list_byte dest)
            end
  end.

Definition to_int64 (z : Z) : Z := (z + 2 ^ 63) mod 2 ^ 64 - 2 ^ 63.

(** [pylong_to_llong] (3.12 and later) *)
Definition pylong_to_llong (rt : Runtime) (mem : Memory) (long_addr : Z) : M Z :=
  let* long_obj := copy_type (long_at mem) long_addr in
  match long_obj with
  | None => throw LongError
  | Some long_obj =>
      if negb (long_exact long_obj) then throw LongError
      else
        let ret :=
          if long_compact long_obj then to_int64 (long_compact_value long_obj)
          else
            let digits :=
              foldr (fun d ret => Z.lor (to_int64 (Z.shiftl ret PyLong_SHIFT)) d) 0
                    (long_digits long_obj) in
            to_int64 (digits * long_sign long_obj) in
        pure (flow_off_end rt ret)
  end.

(** [std::string(32, 0)] overwritten in place by [snprintf(.., 32, ..)]: at
    most 31 characters of [text], then NULs up to length 32. *)
Definition snprintf32 (text : string) : string :=
  let body := String.substring 0 31 text in
  body +:+ String.string_of_list_byte (repeat x00 (32 - String.length body)%nat).

Module StringTable.

Definition INVALID : Z := 1.
Definition UNKNOWN : Z := 2.

(** The constructor *)
Definition init : gmap Z string :=
  <[UNKNOWN := "<unknown>"%string]>
    (<[INVALID := "<invalid>"%string]> (<[0 := ""%string]> ∅)).

Definition contains (k : Z) : M bool := fun w =>
  (Ret (bool_decide (is_Some (string_table w !! k))), w).

(** [Key key(PyObject *s)] *)
Definition key (rt : Runtime) (mem : Memory) (s : Z) : M Z :=
  let k := s in
  let* found := contains k in
  if found then pure k
  else
    let* _ := try_catch
          (let* str := (if PY_VERSION_HEX rt >=? 0x030c0000 then
                    try_catch
                      (let* n := pylong_to_llong rt mem s in
                       pure ("Task-" +:+ pretty n))
                      is_LongError
                      (pyunicode_to_utf8 rt mem s)
                  else pyunicode_to_utf8 rt mem s) in
           emplace k str)
          is_StringError
          (throw StringTable_Error) in
    pure k.

(** [Key key(unw_word_t pc)] *)
Definition key_pc (rt : Runtime) (pc : Z) : M Z :=
  let k := pc in
  let* found := contains k in
  if found then pure k
  else
    let* _ := emplace k (snprintf32 ("native@" +:+ format_pointer rt k)) in
    pure k.

(** [Key key(unw_cursor_t &cursor)] *)
Definition key_cursor (rt : Runtime) (cursor : unw_cursor_t) : M Z :=
  match proc_info_start_ip cursor with
  | None => throw StringTable_Error
  | Some k =>
      let* found := contains k in
      if found then pure k
      else
        match proc_name cursor with
        | None => throw StringTable_Error
        | Some sym =>
            let name :=
              if String.prefix "_Z" sym then
                match cxa_demangle rt sym with
                | Some demangled => demangled
                | None => sym
                end
              else sym in
            let* _ := emplace k name in
            pure k
        end
  end.

(** [std::string &lookup(Key key)] *)
Definition lookup (key : Z) : M string := fun w =>
  match string_table w !! key with
  | Some s => (Ret s, w)
  | None => (Throw StringTable_LookupError, w)
  end.

End StringTable.

(** ** The frame resolver ([frame.h]) *)

Module Frame.

(** A [Frame &]: one of the two process-wide sentinels, or the frame the
    cache owns under a key. *)
Inductive Ref : Type :=
| INVALID_FRAME
| UNKNOWN_FRAME
| Cached (key : Z).

(** [Frame(StringTable::Key name)] *)
Definition of_name (name : Z) : Frame :=
  mkFrame 0 0 name (mkLocation 0 0 0 0) false.

Definition deref (w : World) (r : Ref) : option Frame :=
  match r with
  | INVALID_FRAME => Some (of_name StringTable.INVALID)
  | UNKNOWN_FRAME => Some (of_name StringTable.UNKNOWN)
  | Cached k => LRUCache.find k (frame_cache w)
  end.

Definition set_cache_key (k : Z) (f : Frame) : Frame :=
  mkFrame k (filename f) (name f) (location f) (is_entry f).

Definition set_is_entry (b : bool) (f : Frame) : Frame :=
  mkFrame (cache_key f) (filename f) (name f) (location f) b.

(** [frame_cache->lookup(k)], giving the reference to the cached frame. *)
Definition cache_lookup (k : Z) : M Ref := fun w =>
  match LRUCache.lookup k (frame_cache w) with
  | Ret c => (Ret (Cached k), mkWorld (string_table w) c (output w) (reads w))
  | Throw e => (Throw e, w)
  | OutOfBounds => (OutOfBounds, w)
  | OutOfFuel => (OutOfFuel, w)
  end.

(** [frame_cache->store(k, std::move(frame))] *)
Definition cache_store (k : Z) (f : Frame) : M unit := fun w =>
  (Ret tt,
   mkWorld (string_table w) (LRUCache.store k f (frame_cache w)) (output w) (reads w)).

(** [frame.is_entry = b] through a reference.  The two sentinels are kept
    out of the state: [Frame::read], the one place that assigns, skips
    [INVALID_FRAME] and never holds [UNKNOWN_FRAME]. *)
Definition assign_is_entry (r : Ref) (b : bool) : M unit := fun w =>
  match r with
  | Cached k =>
      (Ret tt,
       mkWorld (string_table w) (LRUCache.update k (set_is_entry b) (frame_cache w))
               (output w) (reads w))
  | _ => (Ret tt, w)
  end.

(** Modelled from the spec: [mojo] is declared in [mojo.h], which is not
    among the sources.  The resolver announces the frame it stores to the
    binary trace encoder: [mojo.frame(...)] is taken to be
    [MojoRenderer::frame] on the process-wide trace. *)
Definition mojo_frame (f : Frame) : M unit :=
  emit (MojoRenderer.frame (cache_key f) (filename f) (name f) (location f)).

(** [void infer_location(PyCodeObject *code, int lasti)]: the location it
    leaves in the frame. *)
Definition infer_location (rt : Runtime) (mem : Memory) (code : PyCodeObject)
    (lasti : Z) : M Location :=
  if PY_VERSION_HEX rt >=? 0x030b0000 then
    let* table := pybytes_to_bytes_and_size rt mem (co_linetable code) in
    match table with
    | None => throw Frame_LocationError
    | Some table => lift (LineTable.decode_311 table (co_firstlineno code) lasti)
    end
  else if PY_VERSION_HEX rt >=? 0x030a0000 then
    let* table := pybytes_to_bytes_and_size rt mem (co_linetable code) in
    match table with
    | None => throw Frame_LocationError
    | Some table => lift (LineTable.decode_310 table (co_firstlineno code) lasti)
    end
  else
    let* table := pybytes_to_bytes_and_size rt mem (co_lnotab code) in
    match table with
    | None => throw Frame_LocationError
    | Some table => lift (LineTable.decode_legacy table (co_firstlineno code) lasti)
    end.

(** [Frame(PyCodeObject *code, int lasti)] *)
Definition of_code (rt : Runtime) (mem : Memory) (code : PyCodeObject)
    (lasti : Z) : M Frame :=
  let* '(filename, name) :=
    try_catch
      (let* filename := StringTable.key rt mem (co_filename code) in
       let* name := StringTable.key rt mem
                      (if PY_VERSION_HEX rt >=? 0x030b0000 then co_qualname code
                       else co_name code) in
       pure (filename, name))
      is_StringTable_Error
      (throw Frame_Error) in
  let* loc := infer_location rt mem code lasti in
  pure (mkFrame 0 filename name loc false).

(** [Frame(unw_cursor_t &cursor, unw_word_t pc)] *)
Definition of_cursor (rt : Runtime) (cursor : unw_cursor_t) (pc : Z) : M Frame :=
  try_catch
    (let* filename := StringTable.key_pc rt pc in
     let* name := StringTable.key_cursor rt cursor in
     pure (mkFrame 0 filename name (mkLocation 0 0 0 0) false))
    is_StringTable_Error
    (throw Frame_Error).

(** [static Key key(PyCodeObject *code, int lasti)] *)
Definition key (code lasti : Z) : Z :=
  to_uint64 (Z.lor (Z.shiftl (Z.land (to_uint64 code) MOJO_INT32) 16) (to_uint64 lasti)).

(** The body shared by the [catch (LookupError &)] blocks: announce the new
    frame to the trace, store it and return the reference to it. *)
Definition declare_and_store (frame_key : Z) (new_frame : Frame) : M Ref :=
  let new_frame := set_cache_key frame_key new_frame in
  let* _ := mojo_frame new_frame in
  let* _ := cache_store frame_key new_frame in
  pure (Cached frame_key).

(** [Frame &Frame::get(PyCodeObject *code_addr, int lasti)] *)
Definition get (rt : Runtime) (mem : Memory) (code_addr lasti : Z) : M Ref :=
  let* code := copy_type (code_at mem) code_addr in
  match code with
  | None => pure INVALID_FRAME
  | Some code =>
      let frame_key := key code_addr lasti in
      try_catch (cache_lookup frame_key) is_Cache_LookupError
        (try_catch
           (let* new_frame := of_code rt mem code lasti in
            declare_and_store frame_key new_frame)
           is_Frame_Error
           (pure INVALID_FRAME))
  end.

(** [Frame &Frame::get(unw_cursor_t &cursor)] *)
Definition get_cursor (rt : Runtime) (cursor : unw_cursor_t) : M Ref :=
  let pc := reg_ip cursor in
  if pc =? 0 then throw Frame_Error
  else
    let frame_key := pc in
    try_catch (cache_lookup frame_key) is_Cache_LookupError
      (try_catch
         (let* frame := of_cursor rt cursor pc in
          declare_and_store frame_key frame)
         is_Frame_Error
         (pure UNKNOWN_FRAME)).

(** [Frame &Frame::get(StringTable::Key name)] *)
Definition get_name (name : Z) : M Ref :=
  let frame_key := name in
  try_catch (cache_lookup frame_key) is_Cache_LookupError
    (declare_and_store frame_key (of_name name)).

(** The [while (frame_addr != NULL)] loop of [Frame::read] (3.13 and
    later), which skips frames whose executable is not a code object; the
    result is [frame_addr] when the loop is left.  The source steps with
    [frame_addr->previous], read in place; the model takes the field from
    the copy just made.  A cyclic chain keeps the loop turning: [fuel]
    bounds the turns. *)
Fixpoint skip_non_code (fuel : nat) (mem : Memory) (frame_addr : Z) : M Z :=
  if frame_addr =? 0 then pure frame_addr
  else
    match fuel with
    | O => lift OutOfFuel
    | S fuel' =>
        let* iframe := copy_type (iframe_at mem) frame_addr in
        match iframe with
        | None => throw Frame_Error
        | Some iframe =>
            let* f_executable := copy_type (is_code_at mem) (f_code iframe) in
            match f_executable with
            | None => throw Frame_Error
            | Some true => pure frame_addr
            | Some false => skip_non_code fuel' mem (previous iframe)
            end
        end
    end.

(** [Frame &Frame::read(PyObject *frame_addr, PyObject **prev_addr)]: the
    reference and [*prev_addr]. *)
Definition read (fuel : nat) (rt : Runtime) (mem : Memory) (frame_addr : Z)
    : M (Ref * Z) :=
  if PY_VERSION_HEX rt >=? 0x030b0000 then
    let* frame_addr :=
      if PY_VERSION_HEX rt >=? 0x030d0000 then
        let* frame_addr := skip_non_code fuel mem frame_addr in
        if frame_addr =? 0 then throw Frame_Error else pure frame_addr
      else pure frame_addr in
    let* iframe := copy_type (iframe_at mem) frame_addr in
    match iframe with
    | None => throw Frame_Error
    | Some iframe =>
        let units :=
          if PY_VERSION_HEX rt >=? 0x030d0000 then
            (prev_instr iframe - sizeof_Py_CODEUNIT - f_code iframe) / sizeof_Py_CODEUNIT
          else (prev_instr iframe - f_code iframe) / sizeof_Py_CODEUNIT in
        let lasti :=
          to_int32 (to_int32 units - offsetof_co_code_adaptive rt / sizeof_Py_CODEUNIT) in
        let* frame := get rt mem (f_code iframe) lasti in
        match frame with
        | INVALID_FRAME => pure (frame, 0)
        | _ =>
            let* _ := assign_is_entry frame
                        (if PY_VERSION_HEX rt >=? 0x030c0000
                         then owner iframe =? FRAME_OWNED_BY_CSTACK
                         else iframe_is_entry iframe) in
            pure (frame, previous iframe)
        end
    end
  else
    let* py_frame := copy_type (pyframe_at mem) frame_addr in
    match py_frame with
    | None => throw Frame_Error
    | Some py_frame =>
        let* frame := get rt mem (pf_code py_frame) (pf_lasti py_frame) in
        match frame with
        | INVALID_FRAME => pure (frame, 0)
        | _ => pure (frame, pf_back py_frame)
        end
    end.

End Frame.

(** The state the process starts from once [init_frame_cache(capacity)] has
    run. *)
Definition initial_world (capacity : nat) : World :=
  mkWorld StringTable.init (LRUCache.mk capacity []) [] 0.

(** ** Vocabulary of the statements *)

(** The length [pyunicode_to_utf8] checks against its ceiling. *)
Definition declared_length (u : PyUnicodeObject) : Z :=
  if state_compact u then ascii_length u else utf8_length u.

(** From 3.12 on [StringTable::key] first tries the object as a boxed integer;
    a text object is one for which that attempt ends in [LongError]. *)
Definition not_boxed_integer (rt : Runtime) (mem : Memory) (addr : Z) : Prop :=
  PY_VERSION_HEX rt >= 0x030c0000 ->
  forall l, long_at mem addr = Some l -> long_exact l = false.

(** The state after one more call of a copy primitive. *)
Definition one_read (w : World) : World :=
  mkWorld (string_table w) (frame_cache w) (output w) (S (reads w)).

(** A call that leaves the string table, the frame cache and the trace as
    they were: only [reads] may differ. *)
Definition only_reads (w w' : World) : Prop :=
  string_table w' = string_table w
  /\ frame_cache w' = frame_cache w
  /\ output w' = output w.

(** A call that may intern strings and count reads, and leaves the frame
    cache and the trace as they were. *)
Definition extends (w w' : World) : Prop :=
  (forall k, is_Some (string_table w !! k) -> is_Some (string_table w' !! k))
  /\ frame_cache w' = frame_cache w
  /\ output w' = output w.

(** Every run of [m], whatever its outcome, takes the state to a state
    related to it by [R]. *)
Definition preserves {A : Type} (R : World -> World -> Prop) (m : M A) : Prop :=
  forall w o w', m w = (o, w') -> R w w'.

(** The unwinder cannot produce a symbol for the cursor: it has no procedure
    info, or it has no procedure name for a start address that is neither
    the program counter itself nor interned already. *)
Definition no_symbol (w : World) (cursor : unw_cursor_t) : Prop :=
  proc_info_start_ip cursor = None
  \/ (exists k, proc_info_start_ip cursor = Some k
                /\ k <> reg_ip cursor
                /\ string_table w !! k = None
                /\ proc_name cursor = None).




(** ** A sample process

    Two code objects that share their file name, qualified name and location
    table (one entry of kind 10 with column bytes 4 and 9), an interpreter
    frame that runs the first one, and a text object whose declared length is
    above the ceiling. *)
Module Sample.

Definition at_addr {T : Type} (a : Z) (v : T) (x : Z) : option T :=
  if x =? a then Some v else None.

Definition or_else {T : Type} (f g : Z -> option T) (x : Z) : option T :=
  match f x with
  | Some v => Some v
  | None => g x
  end.

Definition nowhere {T : Type} (x : Z) : option T := None.

Definition region (base : Z) (bs : list byte) (a : Z) : option byte :=
  if a <? base then None else bs !! Z.to_nat (a - base).

Definition runtime (version : Z) : Runtime := {|
  PY_VERSION_HEX := version;
  sizeof_PyASCIIObject := 48;
  offsetof_ob_sval := 32;
  offsetof_co_code_adaptive := 192;
  format_pointer := fun p => pretty p;
  cxa_demangle := fun _ => None;
  flow_off_end := fun ret => ret
|}.

Definition py312 : Runtime := runtime 0x030c0000.
Definition py311 : Runtime := runtime 0x030b0000.
Definition py39 : Runtime := runtime 0x03090000.

Definition text (n : Z) : PyUnicodeObject := {|
  state_kind := 1;
  state_compact := true;
  ascii_length := n;
  utf8 := 0;
  utf8_length := 0
|}.

Definition code : PyCodeObject := {|
  co_filename := 2000;
  co_name := 3000;
  co_qualname := 3000;
  co_firstlineno := 7;
  co_linetable := 4000;
  co_lnotab := 4000
|}.

Definition memory : Memory := {|
  code_at := or_else (at_addr 1000 code) (at_addr 1100 code);
  bytes_at := at_addr 4000 {| ob_size := 3 |};
  unicode_at :=
    or_else (at_addr 2000 (text 2))
            (or_else (at_addr 3000 (text 1)) (at_addr 6000 (text 5000)));
  long_at := nowhere;
  iframe_at := at_addr 5000 {| f_code := 1000;
                               prev_instr := 1000 + 192 + 4;
                               previous := 0;
                               owner := 0;
                               iframe_is_entry := true |};
  is_code_at := nowhere;
  pyframe_at := nowhere;
  byte_at :=
    or_else (region 2048 [x61; x62])
            (or_else (region 3048 [x66]) (region 4032 [x50; x04; x09]))
|}.

(** A cursor the unwinder knows nothing about. *)
Definition cursor (pc : Z) : unw_cursor_t := {|
  reg_ip := pc;
  proc_info_start_ip := None;
  proc_name := None
|}.

End Sample.

(** ** Printing a frame ([frame.h], [Frame::render_where]) *)

(** The escape character of the ANSI sequences. *)
Definition ESC : string := String (Ascii.ascii_of_nat 27) EmptyString.

(** [std::endl] *)
Definition endl : string := String (Ascii.ascii_of_nat 10) EmptyString.

(** [void render_where(std::ostream &stream)]: the outcome and the stream
    afterwards.  The operands of the [<<] chain are written in order, so what
    stands before a [lookup] that throws is on the stream already. *)
Definition render_where (f : Frame) (w : World) (stream : string)
    : outcome unit * string :=
  let lookup (key : Z) : outcome string := fst (StringTable.lookup key w) in
  match lookup (filename f) with
  | Ret fname =>
      if String.prefix "native@" fname then
        let stream := stream +:+ "          " +:+ ESC +:+ "[38;5;248;1m" in
        match lookup (name f) with
        | Ret nm =>
            let stream := stream +:+ nm +:+ ESC +:+ "[0m " +:+ ESC +:+ "[38;5;246m(" in
            match lookup (filename f) with
            | Ret fname =>
                (Ret tt,
                 stream +:+ fname +:+ ESC +:+ "[0m:" +:+ ESC +:+ "[38;5;246m"
                   +:+ pretty (line (location f)) +:+ ")" +:+ ESC +:+ "[0m" +:+ endl)
            | Throw e => (Throw e, stream)
            | OutOfBounds => (OutOfBounds, stream)
            | OutOfFuel => (OutOfFuel, stream)
            end
        | Throw e => (Throw e, stream)
        | OutOfBounds => (OutOfBounds, stream)
        | OutOfFuel => (OutOfFuel, stream)
        end
      else
        let stream := stream +:+ "          " +:+ ESC +:+ "[33;1m" in
        match lookup (name f) with
        | Ret nm =>
            let stream := stream +:+ nm +:+ ESC +:+ "[0m (" +:+ ESC +:+ "[36m" in
            match lookup (filename f) with
            | Ret fname =>
                (Ret tt,
                 stream +:+ fname +:+ ESC +:+ "[0m:" +:+ ESC +:+ "[32m"
                   +:+ pretty (line (location f)) +:+ ESC +:+ "[0m)" +:+ endl)
            | Throw e => (Throw e, stream)
            | OutOfBounds => (OutOfBounds, stream)
            | OutOfFuel => (OutOfFuel, stream)
            end
        | Throw e => (Throw e, stream)
        | OutOfBounds => (OutOfBounds, stream)
        | OutOfFuel => (OutOfFuel, stream)
        end
  | Throw e => (Throw e, stream)
  | OutOfBounds => (OutOfBounds, stream)
  | OutOfFuel => (OutOfFuel, stream)
  end.

(** ** Further vocabulary *)

(** The bytes [bs] can be copied from [addr] on. *)
Definition readable (mem : Memory) (addr : Z) (bs : list byte) : Prop :=
  forall (i : nat) (b : byte), bs !! i = Some b -> byte_at mem (addr + Z.of_nat i) = Some b.

(** The address [pyunicode_to_utf8] copies the characters from. *)
Definition text_data (rt : Runtime) (str_addr : Z) (u : PyUnicodeObject) : Z :=
  if state_compact u then str_addr + sizeof_PyASCIIObject rt else utf8 u.


(** A line-number table written as its pairs of bytes. *)
Definition pairs_table (pairs : list (byte * byte)) : list byte :=
  flat_map (fun p => [fst p; snd p]) pairs.

(** The sum of the bytecode deltas of a [co_lnotab] table. *)
Definition bytecode_span (pairs : list (byte * byte)) : Z :=
  fold_right (fun p acc => byte_val (fst p) + acc) 0 pairs.

(** A line delta of [co_lnotab] as the signed byte it is. *)
Definition signed_delta (b : byte) : Z :=
  if byte_val b >=? 0x80 then byte_val b - 0x100 else byte_val b.

Definition line_span (pairs : list (byte * byte)) : Z :=
  fold_right (fun p acc => signed_delta (snd p) + acc) 0 pairs.

(** A line delta of a 3.10 table: 0x80 stands for no line change, a byte
    above it for a negative delta. *)
Definition delta_310 (b : byte) : Z :=
  if byte_val b =? 0x80 then 0
  else if byte_val b >? 0x80 then byte_val b - 0x100
  else byte_val b.

Definition line_span_310 (pairs : list (byte * byte)) : Z :=
  fold_right (fun p acc => delta_310 (snd p) + acc) 0 pairs.

(** Every frame in the cache carries the key it is stored under. *)
Definition keys_agree (w : World) : Prop :=
  forall k f, In (k, f) (LRUCache.items (frame_cache w)) -> cache_key f = k.

(** Every frame in the cache refers to strings that are interned. *)
Definition frames_resolvable (w : World) : Prop :=
  forall k f, In (k, f) (LRUCache.items (frame_cache w)) ->
    is_Some (string_table w !! filename f) /\ is_Some (string_table w !! name f).

(** The shape of one integer on the trace: every byte fits an [unsigned
    char], and the continuation bit is set on every byte but the last. *)
Fixpoint continued (bs : list Z) : Prop :=
  match bs with
  | [] => False
  | [b] => 0 <= b < 256 /\ Z.testbit b 7 = false
  | b :: bs' => 0 <= b < 256 /\ Z.testbit b 7 = true /\ continued bs'
  end.

(** The reader of a frame record, written from the record's layout in
    [MojoRenderer::frame] and the integer form: the tag, three references and
    four integers.  Gives the fields and what follows the record. *)
Fixpoint leading_bytes (items : list out_item) : list Z * list out_item :=
  match items with
  | PutByte b :: rest => let '(bs, rest') := leading_bytes rest in (b :: bs, rest')
  | _ => ([], items)
  end.

Definition read_integer (items : list out_item) : option (Z * list out_item) :=
  let '(bs, rest) := leading_bytes items in
  match MojoRenderer.decode_integer bs with
  | Some (n, bs') => Some (n, (PutByte <$> bs') ++ rest)
  | None => None
  end.

Fixpoint read_integers (count : nat) (items : list out_item)
    : option (list Z * list out_item) :=
  match count with
  | O => Some ([], items)
  | S count' =>
      match read_integer items with
      | Some (n, rest) =>
          match read_integers count' rest with
          | Some (ns, rest') => Some (n :: ns, rest')
          | None => None
          end
      | None => None
      end
  end.

Definition read_frame_record (items : list out_item)
    : option (list Z * list out_item) :=
  match items with
  | PutEvent MOJO_FRAME :: rest => read_integers 7 rest
  | _ => None
  end.

(** The three strings of the constructor stay interned. *)
Definition sentinels_interned (w : World) : Prop :=
  forall k, is_Some (StringTable.init !! k) -> is_Some (string_table w !! k).

(** The invariant of the resolver's state. *)
Definition resolver_invariant (w : World) : Prop :=
  keys_agree w /\ frames_resolvable w /\ sentinels_interned w.

(** How building a frame can fail: with [Frame::Error] or its subclass
    [LocationError], or, in front of 3.11, by the read past the table. *)
Inductive frame_fault (rt : Runtime) {A : Type} : outcome A -> Prop :=
| fault_error (e : exn) : is_Frame_Error e = true -> frame_fault rt (Throw e)
| fault_bounds : PY_VERSION_HEX rt < 0x030b0000 -> frame_fault rt OutOfBounds.

(** The states the resolver can be in: the initial one, and what a call of
    one of its entry points leaves, whatever the call's outcome.  A synthetic
    frame is asked for under a key that has been interned. *)
Inductive reachable : World -> Prop :=
| reachable_init (capacity : nat) : reachable (initial_world capacity)
| reachable_get (rt : Runtime) (mem : Memory) (code_addr lasti : Z) (w : World) :
    reachable w -> reachable (snd (Frame.get rt mem code_addr lasti w))
| reachable_get_cursor (rt : Runtime) (cursor : unw_cursor_t) (w : World) :
    reachable w -> reachable (snd (Frame.get_cursor rt cursor w))
| reachable_get_name (name : Z) (w : World) :
    reachable w -> is_Some (string_table w !! name) ->
    reachable (snd (Frame.get_name name w))
| reachable_read (fuel : nat) (rt : Runtime) (mem : Memory) (frame_addr : Z) (w : World) :
    reachable w -> reachable (snd (Frame.read fuel rt mem frame_addr w)).

(** The states the resolver can be in when nothing is asked of its
    callers: a synthetic frame may be asked for under any key. *)
Inductive resolver_state : World -> Prop :=
| state_init (capacity : nat) : resolver_state (initial_world capacity)
| state_get (rt : Runtime) (mem : Memory) (code_addr lasti : Z) (w : World) :
    resolver_state w -> resolver_state (snd (Frame.get rt mem code_addr lasti w))
| state_get_cursor (rt : Runtime) (cursor : unw_cursor_t) (w : World) :
    resolver_state w -> resolver_state (snd (Frame.get_cursor rt cursor w))
| state_get_name (name : Z) (w : World) :
    resolver_state w -> resolver_state (snd (Frame.get_name name w))
| state_read (fuel : nat) (rt : Runtime) (mem : Memory) (frame_addr : Z) (w : World) :
    resolver_state w -> resolver_state (snd (Frame.read fuel rt mem frame_addr w)).

(** ** A second sample process

    The sample process with one more code object, whose location table
    claims 2^21 bytes. *)
Module Oversized.

Definition code : PyCodeObject := {|
  co_filename := 2000;
  co_name := 3000;
  co_qualname := 3000;
  co_firstlineno := 1;
  co_linetable := 4100;
  co_lnotab := 4100
|}.

Definition memory : Memory := {|
  code_at := Sample.or_else (Sample.at_addr 1200 code) (code_at Sample.memory);
  bytes_at := Sample.or_else (Sample.at_addr 4100 {| ob_size := 2 ^ 21 |})
                             (bytes_at Sample.memory);
  unicode_at := unicode_at Sample.memory;
  long_at := long_at Sample.memory;
  iframe_at := iframe_at Sample.memory;
  is_code_at := is_code_at Sample.memory;
  pyframe_at := pyframe_at Sample.memory;
  byte_at := byte_at Sample.memory
|}.

End Oversized.

(** A cursor inside a procedure the unwinder has a name for. *)
Module Native.

Definition cursor : unw_cursor_t := {|
  reg_ip := 0x7f0010;
  proc_info_start_ip := Some 0x7f0000;
  proc_name := Some "main"%string
|}.

End Native.

(** * Properties *)

(** ** The encoder on small integers *)

Example integer_0 : MojoRenderer.integer 0 = [0].
Proof. reflexivity. Qed.

Example integer_minus_1 : MojoRenderer.integer (-1) = [0x41].
Proof. reflexivity. Qed.

Example integer_64 : MojoRenderer.integer 64 = [0x80; 0x01].
Proof. reflexivity. Qed.

Example integer_sign_boundary :
  MojoRenderer.integer (- 63) = [0x7f] /\ MojoRenderer.integer (- 64) = [0xc0; 0x01].
Proof. split; reflexivity. Qed.


(** ** Machine integers *)

Lemma byte_val_range (b : byte) : 0 <= byte_val b < 256.
Proof.
  unfold byte_val. pose proof (Byte.to_N_bounded b) as Hb. lia.
Qed.

Lemma to_int32_id (z : Z) : - 2 ^ 31 <= z < 2 ^ 31 -> to_int32 z = z.
Proof. intros Hz. unfold to_int32. rewrite Z.mod_small; lia. Qed.

Lemma to_int32_to_uint32 (z : Z) : to_int32 (to_uint32 z) = to_int32 z.
Proof.
  unfold to_int32, to_uint32.
  rewrite Zplus_mod_idemp_l. reflexivity.
Qed.

(** ** The integer form of the trace *)

Section VarintRoundTrip.

Import MojoRenderer.

Lemma low7_mod (m : Z) : Z.land m 0x7f = m mod 128.
Proof. change 0x7f with (Z.ones 7). rewrite Z.land_ones by lia. reflexivity. Qed.

Lemma low6_mod (m : Z) : Z.land m 0x3f = m mod 64.
Proof. change 0x3f with (Z.ones 6). rewrite Z.land_ones by lia. reflexivity. Qed.

Lemma continuation_payload (x : Z) : Z.land (Z.lor x 0x80) 0x7f = Z.land x 0x7f.
Proof.
  rewrite Z.land_lor_distr_l. change (Z.land 0x80 0x7f) with 0.
  apply Z.lor_0_r.
Qed.

Lemma continuation_set (x : Z) : Z.testbit (Z.lor x 0x80) 7 = true.
Proof. rewrite Z.lor_spec. apply orb_true_r. Qed.

Lemma continuation_clear (m : Z) : Z.testbit (Z.land m 0x7f) 7 = false.
Proof. rewrite Z.land_spec. apply andb_false_r. Qed.

Lemma integer_loop_0 (fuel : nat) : integer_loop fuel 0 = [].
Proof. destruct fuel; reflexivity. Qed.

(** The bytes of the loop, read back from [shift] on, add [m * 2 ^ shift]
    to the magnitude gathered so far and leave what follows untouched. *)
Lemma decode_integer_loop (fuel : nat) :
  forall m shift acc rest,
    0 < m < 2 ^ (7 * Z.of_nat fuel) -> 0 <= shift ->
    decode_magnitude (integer_loop fuel m ++ rest) shift acc
    = Some (acc + m * 2 ^ shift, rest).
Proof.
  induction fuel as [|fuel IH]; intros m shift acc rest Hm Hshift.
  - change (2 ^ (7 * Z.of_nat 0)) with 1 in Hm. lia.
  - cbn [integer_loop].
    destruct (Z.eqb_spec m 0) as [->|_]; [lia|].
    assert (Hdiv : m = 128 * (m / 128) + m mod 128) by (apply Z.div_mod; lia).
    assert (Hrem : 0 <= m mod 128 < 128) by (apply Z.mod_pos_bound; lia).
    rewrite Z.shiftr_div_pow2 by lia. change (2 ^ 7) with 128.
    destruct (Z.eqb_spec (m / 128) 0) as [Hz|Hnz]; cbn [app decode_magnitude].
    + rewrite continuation_clear, !low7_mod, Z.mod_mod by lia.
      rewrite Z.shiftl_mul_pow2 by lia.
      rewrite Hz, integer_loop_0. cbn [app]. do 3 f_equal. lia.
    + rewrite continuation_set, continuation_payload, !low7_mod, Z.mod_mod by lia.
      rewrite IH.
      * rewrite Z.shiftl_mul_pow2 by lia. rewrite Z.pow_add_r by lia.
        change (2 ^ 7) with 128. do 2 f_equal. lia.
      * split.
        -- pose proof (Z.div_pos m 128). lia.
        -- apply Z.div_lt_upper_bound; [lia|].
           replace (7 * Z.of_nat (S fuel)) with (7 + 7 * Z.of_nat fuel) in Hm by lia.
           rewrite Z.pow_add_r in Hm by lia. change (2 ^ 7) with 128 in Hm. lia.
      * lia.
Qed.

Lemma sign_bit_clear (m : Z) : Z.testbit (Z.land m 0x3f) 6 = false.
Proof. rewrite Z.land_spec. apply andb_false_r. Qed.

Lemma first_byte_sign mag sign more : Z.testbit (first_byte mag sign more) 6 = sign.
Proof.
  unfold first_byte.
  destruct sign, more; rewrite ?Z.lor_spec, ?sign_bit_clear; reflexivity.
Qed.

Lemma first_byte_more mag sign more : Z.testbit (first_byte mag sign more) 7 = more.
Proof.
  unfold first_byte.
  destruct sign, more; rewrite ?Z.lor_spec, ?Z.land_spec; cbn;
    rewrite ?andb_false_r; reflexivity.
Qed.

Lemma first_byte_payload mag sign more :
  Z.land (first_byte mag sign more) 0x3f = mag mod 64.
Proof.
  unfold first_byte.
  destruct sign, more; rewrite ?Z.land_lor_distr_l;
    change (Z.land 0x40 0x3f) with 0; change (Z.land 0x80 0x3f) with 0;
    rewrite ?Z.lor_0_r, <- Z.land_assoc, Z.land_diag; apply low6_mod.
Qed.

Lemma integer_first_byte (n : Z) :
  integer n =
  let mag := to_uint64 (if n <? 0 then - n else n) in
  first_byte mag (n <? 0) (negb (Z.shiftr mag 6 =? 0))
    :: integer_loop 10 (Z.shiftr mag 6).
Proof.
  unfold integer, first_byte. cbn zeta.
  destruct (Z.shiftr _ 6 =? 0); reflexivity.
Qed.

(** Decoding what [integer] wrote gives the integer back, whatever follows
    it in the stream, for every [n] whose magnitude fits a [mojo_uint_t]. *)
Lemma decode_integer_app (n : Z) (rest : list Z) :
  - 2 ^ 64 < n < 2 ^ 64 ->
  decode_integer (integer n ++ rest) = Some (n, rest).
Proof.
  intros Hn. rewrite integer_first_byte. cbn zeta.
  set (mag := to_uint64 (if n <? 0 then - n else n)).
  assert (Hmag : mag = Z.abs n).
  { unfold mag, to_uint64. destruct (Z.ltb_spec n 0); rewrite Z.mod_small; lia. }
  assert (Hpos : 0 <= mag < 2 ^ 64) by lia.
  assert (Hdiv : mag = 64 * (mag / 64) + mag mod 64) by (apply Z.div_mod; lia).
  assert (Hrem : 0 <= mag mod 64 < 64) by (apply Z.mod_pos_bound; lia).
  cbn [app decode_integer].
  rewrite first_byte_sign, first_byte_more, first_byte_payload.
  rewrite Z.shiftr_div_pow2 by lia. change (2 ^ 6) with 64.
  destruct (Z.eqb_spec (mag / 64) 0) as [Hz|Hnz]; cbn [negb].
  - rewrite Hz, integer_loop_0. cbn [app].
    f_equal. f_equal. destruct (Z.ltb_spec n 0); lia.
  - rewrite decode_integer_loop.
    + f_equal. f_equal. change (2 ^ 6) with 64. destruct (Z.ltb_spec n 0); lia.
    + split.
      * pose proof (Z.div_pos mag 64). lia.
      * apply Z.div_lt_upper_bound; [lia|]. change (7 * Z.of_nat 10) with 70.
        change (2 ^ 70) with (64 * 2 ^ 64). lia.
    + lia.
Qed.

End VarintRoundTrip.

(** C9.  For every integer [n] in [-2^40, 2^40], the bytes that
    [MojoRenderer::integer] writes for [n], read back by the sign-and-magnitude
    decoder (magnitude reassembled least-significant chunk first, negated if
    the sign bit is set), give exactly [n] and leave no byte over. *)
Theorem integer_roundtrip (n : Z) :
  - 2 ^ 40 <= n <= 2 ^ 40 ->
  MojoRenderer.decode_integer (MojoRenderer.integer n) = Some (n, []).
Proof.
  intros Hn. rewrite <- (app_nil_r (MojoRenderer.integer n)).
  apply decode_integer_app. lia.
Qed.

Lemma integer_roundtrip_witness :
  - 2 ^ 40 <= - 2 ^ 40 <= 2 ^ 40 /\
  MojoRenderer.decode_integer (MojoRenderer.integer (- 2 ^ 40)) = Some (- 2 ^ 40, []).
Proof. split; [lia | apply (integer_roundtrip (- 2 ^ 40)); lia]. Defined.

(** ** Bounds of the 3.11 location-table decoder *)

Section Decoder311.

Import LineTable.

Variable table : list byte.

Let len : Z := Z.of_nat (length table).

Lemma table_at_inside (i : Z) :
  0 <= i < len -> exists b, table_at table i = Ret b /\ 0 <= b < 256.
Proof.
  intros Hi. unfold table_at.
  destruct (Z.ltb_spec i 0) as [?|_]; [lia|].
  destruct (table !! Z.to_nat i) as [b|] eqn:Hb.
  - exists (byte_val b). split; [reflexivity | apply byte_val_range].
  - apply lookup_ge_None in Hb. unfold len in Hi. lia.
Qed.

Lemma table_at_outside (i : Z) : len <= i -> table_at table i = OutOfBounds.
Proof.
  intros Hi. unfold table_at.
  destruct (Z.ltb_spec i 0) as [?|_]; [reflexivity|].
  rewrite (proj2 (lookup_ge_None table (Z.to_nat i))); [reflexivity|].
  unfold len in Hi. lia.
Qed.

(** Reads the byte the model already knows to be inside the table. *)
Ltac read_inside i :=
  let b := fresh "b" in
  let Hb := fresh "Hb" in
  let Hr := fresh "Hr" in
  destruct (table_at_inside i) as (b & Hb & Hr); [lia|]; rewrite Hb; cbn [bind].

Lemma read_varint_loop_inside (fuel : nat) :
  forall i shift val,
    0 <= i <= len - 1 -> len - 1 - i <= Z.of_nat fuel ->
    exists v i', read_varint_loop fuel table (len - 1) i shift val = Ret (v, i')
                 /\ i <= i' <= len - 1.
Proof.
  induction fuel as [|fuel IH]; intros i shift val Hi Hfuel.
  - cbn [read_varint_loop]. read_inside i.
    destruct (Z.land b 64 =? 0); cbn [orb].
    + exists val, i. split; [reflexivity | lia].
    + destruct (Z.ltb_spec i (len - 1)); [lia|]. cbn [negb].
      exists val, i. split; [reflexivity | lia].
  - cbn [read_varint_loop]. read_inside i.
    destruct (Z.land b 64 =? 0); cbn [orb].
    + exists val, i. split; [reflexivity | lia].
    + destruct (Z.ltb_spec i (len - 1)); cbn [negb].
      * read_inside (i + 1).
        destruct (IH (i + 1) (shift + 6) (Z.lor val (shl_int (Z.land b0 63) (shift + 6))))
          as (v & i' & Hloop & Hi'); [lia | lia |].
        exists v, i'. split; [exact Hloop | lia].
      * exists val, i. split; [reflexivity | lia].
Qed.

(** [_read_varint] called on a position inside the table returns, and
    leaves [*i] inside the table. *)
Lemma _read_varint_inside (i : Z) :
  0 <= i < len ->
  exists v i', _read_varint table len i = Ret (v, i') /\ i <= i' < len.
Proof.
  intros Hi. unfold _read_varint.
  destruct (Z.geb_spec i (len - 1)).
  - exists 0, i. split; [reflexivity | lia].
  - read_inside (i + 1).
    destruct (read_varint_loop_inside (length table) (i + 1) 0 (Z.land b 63))
      as (v & i' & Hloop & Hi'); [lia | fold len; lia |].
    exists v, i'. split; [exact Hloop | lia].
Qed.

Lemma _read_signed_varint_inside (i : Z) :
  0 <= i < len ->
  exists v i', _read_signed_varint table len i = Ret (v, i') /\ i <= i' < len.
Proof.
  intros Hi. unfold _read_signed_varint.
  destruct (_read_varint_inside i Hi) as (v & i' & Hv & Hi').
  rewrite Hv. cbn [bind]. eauto.
Qed.

(** The entry kinds, by what happens when the bytes behind the entry byte
    are missing. *)
Lemma entry_inside (code i lineno : Z) (loc : Location) :
  0 <= i < len ->
  (exists i' lineno' loc', entry table len code i lineno loc = Ret (i', lineno', loc')
                           /\ i <= i' < len)
  \/ (entry table len code i lineno loc = Throw Frame_LocationError
      /\ code <> 15 /\ code <> 14 /\ code <> 13).
Proof.
  intros Hi. unfold entry.
  destruct (Z.eqb_spec code 15); [left; do 3 eexists; split; [reflexivity | lia]|].
  destruct (Z.eqb_spec code 14).
  { left.
    destruct (_read_signed_varint_inside i Hi) as (d & i1 & -> & Hi1). cbn [bind].
    destruct (_read_varint_inside i1) as (v & i2 & -> & Hi2); [lia|]. cbn [bind].
    destruct (_read_varint_inside i2) as (c & i3 & -> & Hi3); [lia|]. cbn [bind].
    destruct (_read_varint_inside i3) as (ce & i4 & -> & Hi4); [lia|]. cbn [bind].
    do 3 eexists. split; [reflexivity | lia]. }
  destruct (Z.eqb_spec code 13).
  { left.
    destruct (_read_signed_varint_inside i Hi) as (d & i1 & -> & Hi1). cbn [bind].
    do 3 eexists. split; [reflexivity | lia]. }
  destruct ((code =? 12) || (code =? 11) || (code =? 10)).
  - destruct (Z.geb_spec i (len - 2)); [right; auto|].
    left. read_inside (i + 1). read_inside (i + 1 + 1).
    do 3 eexists. split; [reflexivity | lia].
  - destruct (Z.geb_spec i (len - 1)); [right; auto|].
    left. read_inside (i + 1).
    do 3 eexists. split; [reflexivity | lia].
Qed.

(** The loop never leaves the table and never runs out of turns: it ends
    with a location or with [LocationError]. *)
Lemma loop_311_inside (lasti : Z) (fuel : nat) :
  forall i bc lineno loc,
    0 <= i -> len - i <= Z.of_nat fuel ->
    (exists r, loop_311 fuel table lasti i bc lineno loc = Ret r)
    \/ loop_311 fuel table lasti i bc lineno loc = Throw Frame_LocationError.
Proof.
  induction fuel as [|fuel IH]; intros i bc lineno loc Hi Hfuel.
  - cbn [loop_311]. fold len.
    destruct (Z.ltb_spec i len); [lia|]. cbn [negb]. left; eauto.
  - cbn [loop_311]. fold len.
    destruct (Z.ltb_spec i len); cbn [negb]; [|left; eauto].
    read_inside i.
    destruct (entry_inside (Z.land (Z.shiftr b 3) 15) i lineno loc)
      as [(i' & lineno' & loc' & -> & Hi') | [-> _]]; [lia | | right; reflexivity].
    cbn [bind].
    destruct (bc + (Z.land b 7 + 1) >? lasti); [left; eauto|].
    apply IH; lia.
Qed.

Lemma decode_311_inside (first lasti : Z) :
  (exists loc, decode_311 table first lasti = Ret loc)
  \/ decode_311 table first lasti = Throw Frame_LocationError.
Proof.
  unfold decode_311.
  destruct (loop_311_inside lasti (length table) 0 0 (to_uint32 first) (mkLocation 0 0 0 0))
    as [[[lineno loc] ->] | ->]; [lia | fold len; lia | |].
  - left. cbn [bind]. eauto.
  - right. reflexivity.
Qed.

(** Whatever the loop found, the location left in the frame has its line
    twice and no columns. *)
Lemma decode_311_location (first lasti : Z) (loc : Location) :
  decode_311 table first lasti = Ret loc ->
  line_end loc = line loc /\ column loc = 0 /\ column_end loc = 0.
Proof.
  unfold decode_311.
  destruct (loop_311 _ _ _ _ _ _ _) as [[lineno l]| | |]; cbn [bind]; try discriminate.
  intros [= <-]. cbn. auto.
Qed.

(** *** The decoder against the layout of the table *)

Lemma read_varint_loop_index (fuel : nat) :
  forall i shift val,
    0 <= i <= len - 1 -> len - 1 - i <= Z.of_nat fuel ->
    exists v, read_varint_loop fuel table (len - 1) i shift val
              = Ret (v, varint_scan fuel table i)
              /\ i <= varint_scan fuel table i <= len - 1.
Proof.
  induction fuel as [|fuel IH]; intros i shift val Hi Hfuel.
  - cbn [read_varint_loop varint_scan]. read_inside i.
    destruct (Z.land b 64 =? 0); cbn [orb].
    + exists val. split; [reflexivity | lia].
    + destruct (Z.ltb_spec i (len - 1)); [lia|]. cbn [negb].
      exists val. split; [reflexivity | lia].
  - cbn [read_varint_loop varint_scan]. fold len. read_inside i.
    destruct (Z.land b 64 =? 0); cbn [orb negb andb].
    + exists val. split; [reflexivity | lia].
    + destruct (Z.ltb_spec i (len - 1)); destruct (Z.ltb_spec (i + 1) len); try lia;
        cbn [negb].
      * read_inside (i + 1).
        destruct (IH (i + 1) (shift + 6) (Z.lor val (shl_int (Z.land b0 63) (shift + 6))))
          as (v & Hloop & Hi'); [lia | lia |].
        exists v. split; [exact Hloop | lia].
      * exists val. split; [reflexivity | lia].
Qed.

Lemma _read_varint_index (i : Z) :
  0 <= i < len ->
  exists v, _read_varint table len i = Ret (v, varint_last table i)
            /\ i <= varint_last table i < len.
Proof.
  intros Hi. unfold _read_varint, varint_last. fold len.
  destruct (Z.geb_spec i (len - 1)); destruct (Z.leb_spec len (i + 1)); try lia.
  - exists 0. split; [reflexivity | lia].
  - read_inside (i + 1).
    destruct (read_varint_loop_index (length table) (i + 1) 0 (Z.land b 63))
      as (v & Hloop & Hi'); [lia | fold len; lia |].
    exists v. split; [exact Hloop | lia].
Qed.

Lemma _read_signed_varint_index (i : Z) :
  0 <= i < len ->
  exists v, _read_signed_varint table len i = Ret (v, varint_last table i)
            /\ i <= varint_last table i < len.
Proof.
  intros Hi. unfold _read_signed_varint.
  destruct (_read_varint_index i Hi) as (v & Hv & Hi').
  rewrite Hv. cbn [bind]. eauto.
Qed.

(** One entry: it throws when it lacks trailing bytes, and otherwise leaves
    [i] on its last byte. *)
Lemma entry_layout (i b lineno : Z) (loc : Location) :
  0 <= i < len -> table_at table i = Ret b ->
  let code := Z.land (Z.shiftr b 3) 15 in
  (lacks_trailing_bytes table i = true
   /\ entry table len code i lineno loc = Throw Frame_LocationError)
  \/ (lacks_trailing_bytes table i = false
      /\ i <= entry_last table i < len
      /\ exists lineno' loc',
           entry table len code i lineno loc = Ret (entry_last table i, lineno', loc')).
Proof.
  intros Hi Hb code.
  assert (Hcode : 0 <= code < 16).
  { unfold code. change 15 with (Z.ones 4). rewrite Z.land_ones by lia.
    change (2 ^ 4) with 16.
    pose proof (Z.mod_pos_bound (Z.shiftr b 3) 16 ltac:(lia)). lia. }
  unfold lacks_trailing_bytes, entry_last, kind_at, entry. rewrite Hb. fold code len.
  destruct (Z.eqb_spec code 15).
  { right. destruct (Z.leb_spec code 9); [lia|]. destruct (Z.leb_spec code 12); [lia|].
    split; [reflexivity|]. split; [lia|]. eauto. }
  destruct (Z.eqb_spec code 14).
  { right. destruct (Z.leb_spec code 9); [lia|]. destruct (Z.leb_spec code 12); [lia|].
    split; [reflexivity|].
    destruct (_read_signed_varint_index i Hi) as (d & -> & Hi1). cbn [bind].
    destruct (_read_varint_index (varint_last table i)) as (v & -> & Hi2); [lia|].
    cbn [bind].
    destruct (_read_varint_index (varint_last table (varint_last table i)))
      as (c & -> & Hi3); [lia|]. cbn [bind].
    destruct (_read_varint_index
                (varint_last table (varint_last table (varint_last table i))))
      as (ce & -> & Hi4); [lia|]. cbn [bind].
    split; [lia|]. eauto. }
  destruct (Z.eqb_spec code 13).
  { right. destruct (Z.leb_spec code 9); [lia|]. destruct (Z.leb_spec code 12); [lia|].
    split; [reflexivity|].
    destruct (_read_signed_varint_index i Hi) as (d & -> & Hi1). cbn [bind].
    split; [lia|]. eauto. }
  destruct (Z.leb_spec code 9).
  - replace ((code =? 12) || (code =? 11) || (code =? 10)) with false by lia.
    destruct (Z.leb_spec 10 code); [lia|].
    destruct (Z.geb_spec i (len - 1)); destruct (Z.leb_spec len (i + 1)); try lia;
      [left; auto|].
    right. split; [reflexivity|]. split; [lia|].
    read_inside (i + 1). eauto.
  - replace ((code =? 12) || (code =? 11) || (code =? 10)) with true by lia.
    destruct (Z.leb_spec code 12); [|lia]. destruct (Z.leb_spec 10 code); [|lia].
    destruct (Z.geb_spec i (len - 2)); destruct (Z.leb_spec len (i + 2)); try lia;
      [left; auto|].
    right. split; [reflexivity|]. split; [lia|].
    read_inside (i + 1). read_inside (i + 1 + 1).
    replace (i + 1 + 1) with (i + 2) by lia. eauto.
Qed.

(** The loop throws exactly when one of the entries it looks at lacks
    trailing bytes. *)
Lemma loop_311_faults (lasti : Z) (fuel : nat) :
  forall i bc lineno loc,
    0 <= i -> len - i <= Z.of_nat fuel ->
    loop_311 fuel table lasti i bc lineno loc = Throw Frame_LocationError
    <-> exists j, In j (entries_from fuel table lasti i bc)
                  /\ lacks_trailing_bytes table j = true.
Proof.
  induction fuel as [|fuel IH]; intros i bc lineno loc Hi Hfuel.
  - cbn [loop_311 entries_from]. fold len.
    destruct (Z.ltb_spec i len); [lia|]. cbn [negb].
    split; [discriminate | intros (j & [] & _)].
  - cbn [loop_311 entries_from]. fold len.
    destruct (Z.ltb_spec i len); cbn [negb].
    2: { rewrite table_at_outside by lia. split; [discriminate | intros (j & [] & _)]. }
    read_inside i.
    destruct (entry_layout i b lineno loc) as [[Hlacks ->] | (Hlacks & Hlast & l' & loc' & ->)];
      [lia | exact Hb | |].
    + cbn [bind]. split; [|reflexivity]. intros _. exists i. split; [left; reflexivity|].
      exact Hlacks.
    + cbn [bind]. destruct (bc + (Z.land b 7 + 1) >? lasti).
      * split; [discriminate|]. intros (j & [<- | []] & Hj). congruence.
      * rewrite IH by lia. split.
        -- intros (j & Hin & Hj). exists j. split; [right; exact Hin | exact Hj].
        -- intros (j & [<- | Hin] & Hj); [congruence|]. eauto.
Qed.

Lemma decode_311_throws (first lasti : Z) :
  decode_311 table first lasti = Throw Frame_LocationError
  <-> exists i, In i (entries_reached table lasti)
                /\ lacks_trailing_bytes table i = true.
Proof.
  unfold entries_reached.
  rewrite <- (loop_311_faults lasti (length table) 0 0 (to_uint32 first)
                (mkLocation 0 0 0 0)) by (fold len; lia).
  unfold decode_311.
  destruct (loop_311 _ _ _ _ _ _ _) as [[lineno loc]|e| |]; cbn [bind];
    split; congruence.
Qed.

End Decoder311.

(** C1 (amended).  In the 3.11 generation decoding never reads outside the
    table and always ends, with a location or with [LocationError].
    [LocationError] is thrown exactly when one of the entries decoding looks
    at lacks trailing bytes: an entry of kind 0 to 9 whose trailing byte is
    missing, or an entry of kind 10 to 12 whose two column bytes are not
    both there.  The variable-length fields of kinds 13 and 14 never throw:
    a field with no byte left in the table reads as 0. *)
Theorem decode_311_faults (table : list byte) (first lasti code i lineno : Z)
    (loc : Location) :
  let len := Z.of_nat (length table) in
  ((exists l, LineTable.decode_311 table first lasti = Ret l)
   \/ LineTable.decode_311 table first lasti = Throw Frame_LocationError)
  /\ (LineTable.decode_311 table first lasti = Throw Frame_LocationError
      <-> exists j, In j (LineTable.entries_reached table lasti)
                    /\ LineTable.lacks_trailing_bytes table j = true)
  /\ (0 <= i < len -> 0 <= code <= 9 ->
      (len - 1 <= i ->
       LineTable.entry table len code i lineno loc = Throw Frame_LocationError)
      /\ (i < len - 1 -> exists r, LineTable.entry table len code i lineno loc = Ret r))
  /\ (0 <= i < len -> 10 <= code <= 12 ->
      (len - 2 <= i ->
       LineTable.entry table len code i lineno loc = Throw Frame_LocationError)
      /\ (i < len - 2 -> exists r, LineTable.entry table len code i lineno loc = Ret r))
  /\ (0 <= i < len -> 13 <= code <= 15 ->
      exists r, LineTable.entry table len code i lineno loc = Ret r)
  /\ (len - 1 <= i -> LineTable._read_varint table len i = Ret (0, i)).
Proof.
  intros len. split; [apply decode_311_inside|].
  split; [apply decode_311_throws|].
  assert (Hkinds : forall c, 0 <= c <= 12 ->
            (c =? 15) = false /\ (c =? 14) = false /\ (c =? 13) = false) by lia.
  split; [|split; [|split]].
  - intros Hi Hcode. unfold LineTable.entry.
    destruct (Hkinds code) as (-> & -> & ->); [lia|].
    replace ((code =? 12) || (code =? 11) || (code =? 10)) with false by lia.
    split; intros Hend.
    + destruct (Z.geb_spec i (len - 1)); [reflexivity | lia].
    + destruct (Z.geb_spec i (len - 1)); [lia|].
      destruct (table_at_inside table (i + 1)) as (b & -> & _); [fold len; lia|].
      cbn [bind]. eauto.
  - intros Hi Hcode. unfold LineTable.entry.
    destruct (Hkinds code) as (-> & -> & ->); [lia|].
    replace ((code =? 12) || (code =? 11) || (code =? 10)) with true by lia.
    split; intros Hend.
    + destruct (Z.geb_spec i (len - 2)); [reflexivity | lia].
    + destruct (Z.geb_spec i (len - 2)); [lia|].
      destruct (table_at_inside table (i + 1)) as (b & -> & _); [fold len; lia|].
      destruct (table_at_inside table (i + 1 + 1)) as (b' & -> & _); [fold len; lia|].
      cbn [bind]. eauto.
  - intros Hi Hcode.
    destruct (entry_inside table code i lineno loc Hi)
      as [(i' & l' & loc' & He & _) | (_ & H15 & H14 & H13)]; [eauto | lia].
  - intros Hend. unfold LineTable._read_varint.
    destruct (Z.geb_spec i (len - 1)); [reflexivity | lia].
Qed.

Lemma decode_311_faults_witness :
  LineTable.decode_311 [x50; x04] 7 0 = Throw Frame_LocationError
  /\ LineTable.decode_311 [x78; x00] 7 5 = Throw Frame_LocationError
  /\ LineTable.entry [x00] 1 0 0 7 (mkLocation 0 0 0 0) = Throw Frame_LocationError
  /\ LineTable.entry [x50; x04] 2 10 0 7 (mkLocation 0 0 0 0) = Throw Frame_LocationError
  /\ (exists r, LineTable.entry [x70] 1 14 0 7 (mkLocation 0 0 0 0) = Ret r).
Proof.
  split; [|split; [|split; [|split]]].
  - destruct (decode_311_faults [x50; x04] 7 0 10 0 7 (mkLocation 0 0 0 0))
      as (_ & H & _).
    apply H. exists 0. split; [left; reflexivity | reflexivity].
  - destruct (decode_311_faults [x78; x00] 7 5 0 1 7 (mkLocation 0 0 0 0))
      as (_ & H & _).
    apply H. exists 1. split; [right; left; reflexivity | reflexivity].
  - destruct (decode_311_faults [x00] 7 0 0 0 7 (mkLocation 0 0 0 0)) as (_ & _ & H & _).
    apply H; cbn; lia.
  - destruct (decode_311_faults [x50; x04] 7 0 10 0 7 (mkLocation 0 0 0 0))
      as (_ & _ & _ & H & _).
    apply H; cbn; lia.
  - destruct (decode_311_faults [x70] 7 0 14 0 7 (mkLocation 0 0 0 0))
      as (_ & _ & _ & _ & H & _).
    apply H; cbn; lia.
Defined.

(** C1, as stated, fails twice.  A long-form entry (kind 14) that is the last
    byte of its table decodes without [LocationError]; and the decoders of
    the two older generations read the byte behind a table of odd length. *)
Lemma location_error_counterexample :
  LineTable.decode_311 [x70] 7 0 = Ret (mkLocation 7 7 0 0)
  /\ LineTable.decode_310 [x00] 7 0 = OutOfBounds
  /\ LineTable.decode_legacy [x00] 7 0 = OutOfBounds.
Proof. repeat split; reflexivity. Qed.

(** ** The two older decoders end *)

Section OlderDecoders.

Import LineTable.

Variable table : list byte.

Lemma table_at_cases (i : Z) :
  (exists b, table_at table i = Ret b) \/ table_at table i = OutOfBounds.
Proof.
  unfold table_at. destruct (i <? 0); [right; reflexivity|].
  destruct (table !! Z.to_nat i); [left; eauto | right; reflexivity].
Qed.

(** Reads a byte that may lie outside the table. *)
Ltac read_somewhere i :=
  let b := fresh "b" in
  destruct (table_at_cases i) as [[b ->] | ->]; cbn [bind]; [|discriminate].

Lemma loop_310_turns (lasti : Z) (fuel : nat) :
  forall i bc lineno,
    Z.of_nat (length table) - i <= Z.of_nat fuel ->
    loop_310 fuel table lasti i bc lineno <> OutOfFuel.
Proof.
  induction fuel as [|fuel IH]; intros i bc lineno Hfuel; cbn [loop_310];
    destruct (Z.ltb_spec i (Z.of_nat (length table))); cbn [negb];
    try discriminate; [lia|].
  read_somewhere i.
  destruct (b =? 0xff); [discriminate|].
  read_somewhere (i + 1).
  destruct (bc + b >? lasti); [discriminate|].
  apply IH. lia.
Qed.

Lemma loop_legacy_turns (lasti : Z) (fuel : nat) :
  forall i bc lineno,
    Z.of_nat (length table) - i <= Z.of_nat fuel ->
    loop_legacy fuel table lasti i bc lineno <> OutOfFuel.
Proof.
  induction fuel as [|fuel IH]; intros i bc lineno Hfuel; cbn [loop_legacy];
    destruct (Z.ltb_spec i (Z.of_nat (length table))); cbn [negb];
    try discriminate; [lia|].
  read_somewhere i.
  destruct (bc + b >? lasti); [discriminate|].
  read_somewhere (i + 1).
  apply IH. lia.
Qed.

Lemma decode_310_ends (first lasti : Z) : decode_310 table first lasti <> OutOfFuel.
Proof.
  unfold decode_310.
  destruct (loop_310 _ _ _ _ _ _) eqn:Hloop; cbn [bind]; try discriminate.
  exfalso. eapply loop_310_turns; [|exact Hloop]. lia.
Qed.

Lemma decode_legacy_ends (first lasti : Z) : decode_legacy table first lasti <> OutOfFuel.
Proof.
  unfold decode_legacy.
  destruct (loop_legacy _ _ _ _ _ _) eqn:Hloop; cbn [bind]; try discriminate.
  exfalso. eapply loop_legacy_turns; [|exact Hloop]. lia.
Qed.

End OlderDecoders.

(** ** The decoders on small tables *)

Lemma int_of_first_lineno (first : Z) :
  - 2 ^ 31 <= first < 2 ^ 31 -> to_int32 (to_uint32 first) = first.
Proof. intros Hf. rewrite to_int32_to_uint32. apply to_int32_id, Hf. Qed.

(** C2 (amended).  The one-byte table [0x00] is a short-form entry of kind 0
    whose column byte is missing: decoding it at offset 0 throws
    [LocationError].  The one-byte no-op table is [0x78] (kind 15); decoding
    it at offset 0 yields the code's first line number with columns 0. *)
Theorem decode_311_one_byte (first : Z) :
  - 2 ^ 31 <= first < 2 ^ 31 ->
  LineTable.decode_311 [x00] first 0 = Throw Frame_LocationError
  /\ LineTable.decode_311 [x78] first 0 = Ret (mkLocation first first 0 0).
Proof.
  intros Hf. split; [reflexivity|].
  transitivity (Ret (LineTable.final_location (to_uint32 first))); [reflexivity|].
  unfold LineTable.final_location. rewrite int_of_first_lineno by exact Hf.
  reflexivity.
Qed.

Lemma decode_311_one_byte_witness :
  LineTable.decode_311 [x00] 7 0 = Throw Frame_LocationError
  /\ LineTable.decode_311 [x78] 7 0 = Ret (mkLocation 7 7 0 0).
Proof. apply (decode_311_one_byte 7). lia. Defined.

(** C2, as stated, fails: decoding [0x00] at offset 0 does not succeed. *)
Lemma decode_311_zero_byte_counterexample :
  ~ (exists loc, LineTable.decode_311 [x00] 7 0 = Ret loc
                 /\ line loc = 7 /\ column loc = 0 /\ column_end loc = 0).
Proof. intros (loc & H & _). discriminate H. Qed.

(** C3 (amended).  The [co_lnotab] table [0x02, 0x01] gives the first line
    number for every offset below 2, offset 0 among them, and the first line
    number plus one from offset 2 on. *)
Theorem decode_legacy_pair (first lasti : Z) :
  - 2 ^ 31 <= first < 2 ^ 31 - 1 ->
  (lasti < 2 ->
   LineTable.decode_legacy [x02; x01] first lasti = Ret (mkLocation first first 0 0))
  /\ (2 <= lasti ->
      LineTable.decode_legacy [x02; x01] first lasti
      = Ret (mkLocation (first + 1) (first + 1) 0 0)).
Proof.
  intros Hf.
  assert (Hnext : to_int32 (to_uint32 (to_uint32 first + 1)) = first + 1).
  { rewrite to_int32_to_uint32. unfold to_int32, to_uint32.
    rewrite <- Z.add_assoc, Zplus_mod_idemp_l.
    rewrite Z.mod_small; lia. }
  assert (Hloop : LineTable.decode_legacy [x02; x01] first lasti
                  = if 2 >? lasti
                    then Ret (LineTable.final_location (to_uint32 first))
                    else Ret (LineTable.final_location (to_uint32 (to_uint32 first + 1)))).
  { unfold LineTable.decode_legacy.
    transitivity
      (let? lineno := (if 2 >? lasti then Ret (to_uint32 first)
                       else Ret (to_uint32 (to_uint32 first + 1))) in
       Ret (LineTable.final_location lineno)); [reflexivity|].
    destruct (2 >? lasti); reflexivity. }
  rewrite Hloop. unfold LineTable.final_location.
  split; intros Hl; destruct (Z.gtb_spec 2 lasti); try lia.
  - rewrite int_of_first_lineno by lia. reflexivity.
  - rewrite Hnext. reflexivity.
Qed.

Lemma decode_legacy_pair_witness :
  LineTable.decode_legacy [x02; x01] 7 0 = Ret (mkLocation 7 7 0 0)
  /\ LineTable.decode_legacy [x02; x01] 7 2 = Ret (mkLocation 8 8 0 0).
Proof.
  split.
  - apply (decode_legacy_pair 7 0); lia.
  - apply (decode_legacy_pair 7 2); lia.
Defined.

(** C3, as stated, fails: at offset 0 the line is the first line, not the
    first line plus one. *)
Lemma decode_legacy_pair_counterexample :
  ~ (exists loc, LineTable.decode_legacy [x02; x01] 7 0 = Ret loc /\ line loc = 7 + 1).
Proof. intros (loc & H & Hline). injection H as <-. discriminate Hline. Qed.

(** The same two bytes in a 3.10 table: there the line delta is applied
    before the offset is tested, and offset 0 already gets the next line. *)
Example decode_310_pair :
  LineTable.decode_310 [x02; x01] 7 0 = Ret (mkLocation 8 8 0 0).
Proof. reflexivity. Qed.

(** C4.  The loop of the 3.11 decoder computes 1-based columns for a
    fixed-delta entry (kind 10), a long-form entry (kind 14) and a short-form
    entry, but the assignments behind the loop reset both columns to 0 and
    the end line to the line: the resolved frame carries no column. *)
Theorem infer_location_drops_columns :
  (LineTable.loop_311 3 [x50; x04; x09] 0 0 0 7 (mkLocation 0 0 0 0)
   = Ret (7, mkLocation 7 7 5 10)
   /\ LineTable.decode_311 [x50; x04; x09] 7 0 = Ret (mkLocation 7 7 0 0))
  /\ (LineTable.loop_311 5 [x70; x02; x01; x05; x09] 0 0 0 7 (mkLocation 0 0 0 0)
      = Ret (8, mkLocation 8 9 5 9)
      /\ LineTable.decode_311 [x70; x02; x01; x05; x09] 7 0 = Ret (mkLocation 8 8 0 0))
  /\ (LineTable.loop_311 2 [x00; x23] 0 0 0 7 (mkLocation 0 0 0 0)
      = Ret (7, mkLocation 7 7 3 6)
      /\ LineTable.decode_311 [x00; x23] 7 0 = Ret (mkLocation 7 7 0 0))
  /\ (let '(r, w) := Frame.get Sample.py311 Sample.memory 1000 0 (initial_world 2) in
      exists ref, r = Ret ref
                  /\ location <$> Frame.deref w ref = Some (mkLocation 7 7 0 0)).
Proof.
  repeat match goal with |- _ /\ _ => split end;
    try (vm_compute; reflexivity).
  vm_compute. eexists. split; reflexivity.
Qed.

(** ** The string table *)

Section StringTableFacts.

Variable rt : Runtime.

Lemma copy_type_eq {T : Type} (view : Z -> option T) (addr : Z) (w : World) :
  copy_type view addr w = (Ret (view addr), one_read w).
Proof. reflexivity. Qed.

Lemma only_reads_refl w : only_reads w w.
Proof. repeat split. Qed.

Lemma only_reads_trans w1 w2 w3 :
  only_reads w1 w2 -> only_reads w2 w3 -> only_reads w1 w3.
Proof. unfold only_reads. intuition congruence. Qed.

Lemma pyunicode_to_utf8_only_reads mem addr w o w' :
  pyunicode_to_utf8 rt mem addr w = (o, w') -> only_reads w w'.
Proof.
  unfold pyunicode_to_utf8, bindM, copy_generic, copy_type, count_read, throw, pure.
  cbn.
  repeat match goal with
         | |- context [match ?x with _ => _ end] => destruct x
         end;
    intros [= <- <-]; repeat split.
Qed.

(** A text object whose declared length is out of range is refused after
    the one struct copy. *)
Lemma pyunicode_to_utf8_bad_length mem addr u w :
  unicode_at mem addr = Some u ->
  declared_length u < 0 \/ 1024 < declared_length u ->
  pyunicode_to_utf8 rt mem addr w = (Throw StringError, one_read w).
Proof.
  intros Hu Hlen. unfold pyunicode_to_utf8, bindM. rewrite copy_type_eq, Hu.
  unfold declared_length in Hlen.
  destruct (negb (state_kind u =? 1)); [reflexivity|].
  destruct (_ =? 0); [reflexivity|].
  destruct (state_compact u);
    match goal with
    | |- context [(?a <? 0) || (?a >? 1024)] =>
        replace ((a <? 0) || (a >? 1024)) with true by lia
    end; reflexivity.
Qed.

Lemma pylong_to_llong_text mem addr w :
  (forall l, long_at mem addr = Some l -> long_exact l = false) ->
  pylong_to_llong rt mem addr w = (Throw LongError, one_read w).
Proof.
  intros Htext. unfold pylong_to_llong, bindM. rewrite copy_type_eq.
  destruct (long_at mem addr) as [l|] eqn:Hl; [|reflexivity].
  rewrite (Htext l eq_refl). reflexivity.
Qed.

Lemma contains_eq k w :
  StringTable.contains k w = (Ret (bool_decide (is_Some (string_table w !! k))), w).
Proof. reflexivity. Qed.

Lemma contains_absent k w :
  string_table w !! k = None -> StringTable.contains k w = (Ret false, w).
Proof.
  intros Hk. rewrite contains_eq, bool_decide_eq_false_2; [reflexivity|].
  rewrite Hk. apply is_Some_None.
Qed.

Lemma contains_present k w :
  is_Some (string_table w !! k) -> StringTable.contains k w = (Ret true, w).
Proof. intros Hk. rewrite contains_eq, bool_decide_eq_true_2; [reflexivity | exact Hk]. Qed.

End StringTableFacts.

(** C6.  Interning a foreign text object whose declared length is negative
    or above the ceiling of 1024 leaves the string table as it was: no entry
    is added under the address.  Unless the address was interned before (it
    is then answered from the table, unread), the call fails with
    [StringTable::Error]. *)
Theorem key_rejects_bad_length (rt : Runtime) (mem : Memory) (addr : Z)
    (u : PyUnicodeObject) (w : World) :
  unicode_at mem addr = Some u ->
  declared_length u < 0 \/ 1024 < declared_length u ->
  not_boxed_integer rt mem addr ->
  exists o w', StringTable.key rt mem addr w = (o, w')
               /\ string_table w' = string_table w
               /\ (string_table w !! addr = None ->
                   o = Throw StringTable_Error /\ string_table w' !! addr = None).
Proof.
  intros Hu Hlen Htext.
  destruct (string_table w !! addr) as [str|] eqn:Hnew.
  { exists (Ret addr), w. unfold StringTable.key, bindM.
    rewrite contains_present by (rewrite Hnew; eauto).
    split; [reflexivity|]. split; [reflexivity | discriminate]. }
  unfold StringTable.key, bindM at 1. rewrite contains_absent by exact Hnew.
  unfold try_catch at 1, bindM at 1, bindM at 1.
  destruct (Z.geb_spec (PY_VERSION_HEX rt) 0x030c0000) as [Hv|Hv].
  - unfold try_catch at 1, bindM at 1.
    rewrite pylong_to_llong_text by (apply Htext; lia).
    cbn [is_LongError].
    rewrite (pyunicode_to_utf8_bad_length rt mem addr u) by assumption.
    cbn. do 2 eexists. split; [reflexivity|]. cbn. auto.
  - rewrite (pyunicode_to_utf8_bad_length rt mem addr u) by assumption.
    cbn. do 2 eexists. split; [reflexivity|]. cbn. auto.
Qed.

Lemma key_rejects_bad_length_witness :
  exists o w', StringTable.key Sample.py312 Sample.memory 6000 (initial_world 2) = (o, w')
               /\ string_table w' = string_table (initial_world 2)
               /\ (string_table (initial_world 2) !! 6000 = None ->
                   o = Throw StringTable_Error /\ string_table w' !! 6000 = None).
Proof.
  apply (key_rejects_bad_length Sample.py312 Sample.memory 6000 (Sample.text 5000)).
  - reflexivity.
  - right. cbn. lia.
  - intros _ l Hl. discriminate Hl.
Defined.

(** Case analysis on a scrutinee that holds no further [match]. *)
Ltac case_innermost :=
  match goal with
  | |- context [match ?x with _ => _ end] =>
      lazymatch x with
      | context [match _ with _ => _ end] => fail
      | _ => destruct x eqn:?
      end
  end.

(** Once an address is in the table, [key] answers from the table: it returns
    the address and touches nothing, whatever the foreign memory holds. *)
Lemma key_present (rt : Runtime) (mem : Memory) (s : Z) (w : World) :
  is_Some (string_table w !! s) -> StringTable.key rt mem s w = (Ret s, w).
Proof.
  intros Hs. unfold StringTable.key, bindM.
  rewrite contains_present by exact Hs. reflexivity.
Qed.

(** A successful [key] on an address that was absent has stored a text under
    it, and has made two copies (the struct and the bytes) in front of 3.12,
    one (a boxed integer) or three (the refused integer attempt, the struct
    and the bytes) from 3.12 on. *)
Lemma key_absent_success (rt : Runtime) (mem : Memory) (s : Z) (w w1 : World) (k : Z) :
  string_table w !! s = None ->
  StringTable.key rt mem s w = (Ret k, w1) ->
  k = s
  /\ is_Some (string_table w1 !! s)
  /\ (PY_VERSION_HEX rt < 0x030c0000 -> reads w1 = (reads w + 2)%nat)
  /\ (PY_VERSION_HEX rt >= 0x030c0000 ->
      reads w1 = (reads w + 1)%nat \/ reads w1 = (reads w + 3)%nat).
Proof.
  intros Hnew. unfold StringTable.key, bindM at 1.
  rewrite contains_absent by exact Hnew.
  unfold bindM, try_catch, pyunicode_to_utf8, pylong_to_llong, bindM, copy_type,
    copy_generic, count_read, emplace, throw, pure.
  cbn. rewrite ?Hnew.
  destruct (Z.geb_spec (PY_VERSION_HEX rt) 0x030c0000) as [Hv|Hv];
    repeat (case_innermost; cbn; rewrite ?Hnew);
    try discriminate; intros [= <- <-]; cbn;
    (split; [reflexivity|]);
    (split; [rewrite lookup_insert_eq; eauto|]); split; intros; lia.
Qed.

(** C7 (amended).  When interning an address succeeds, interning it again
    yields the same key and reads no foreign memory at all: the second call
    leaves the whole state as it was, so every read of the two calls is a
    read of the first.  The first call reads nothing if the address was
    interned before; otherwise it makes two copies (one of the struct, one of
    the bytes) in front of 3.12, and one or three copies from 3.12 on. *)
Theorem key_twice (rt : Runtime) (mem mem' : Memory) (s k : Z) (w w1 : World) :
  StringTable.key rt mem s w = (Ret k, w1) ->
  k = s
  /\ StringTable.key rt mem' s w1 = (Ret k, w1)
  /\ (is_Some (string_table w !! s) -> w1 = w)
  /\ (string_table w !! s = None -> PY_VERSION_HEX rt < 0x030c0000 ->
      reads w1 = (reads w + 2)%nat)
  /\ (string_table w !! s = None -> PY_VERSION_HEX rt >= 0x030c0000 ->
      reads w1 = (reads w + 1)%nat \/ reads w1 = (reads w + 3)%nat).
Proof.
  intros Hkey.
  destruct (string_table w !! s) as [str|] eqn:Hs.
  - rewrite key_present in Hkey by (rewrite Hs; eauto).
    injection Hkey as <- <-.
    split; [reflexivity|]. split; [apply key_present; rewrite Hs; eauto|].
    split; [reflexivity|]. split; discriminate.
  - destruct (key_absent_success rt mem s w w1 k Hs Hkey) as (-> & Hin & Hold & Hnew).
    split; [reflexivity|]. split; [apply key_present, Hin|].
    split; [intros [? [=]]|]. split; auto.
Qed.

Lemma key_twice_witness :
  let w := initial_world 2 in
  let w1 := snd (StringTable.key Sample.py311 Sample.memory 2000 w) in
  StringTable.key Sample.py311 Sample.memory 2000 w1 = (Ret 2000, w1)
  /\ reads w1 = (reads w + 2)%nat.
Proof.
  intros w w1.
  destruct (key_twice Sample.py311 Sample.memory Sample.memory 2000 2000 w w1)
    as (_ & Hagain & _ & Hreads & _).
  - reflexivity.
  - split; [exact Hagain|]. apply Hreads; [reflexivity | cbn; lia].
Defined.

(** C7, as stated, fails: interning a text object twice takes two calls of
    the copy primitives, not one. *)
Lemma key_twice_counterexample :
  let w := initial_world 2 in
  let '(r1, w1) := StringTable.key Sample.py311 Sample.memory 2000 w in
  let '(r2, w2) := StringTable.key Sample.py311 Sample.memory 2000 w1 in
  r1 = Ret 2000 /\ r2 = Ret 2000 /\ reads w = 0%nat /\ reads w2 = 2%nat
  /\ reads w2 <> 1%nat.
Proof. vm_compute. repeat split; discriminate. Qed.

(** ** Native frames *)

Lemma cache_lookup_miss (k : Z) (w : World) :
  LRUCache.find k (frame_cache w) = None ->
  Frame.cache_lookup k w = (Throw Cache_LookupError, w).
Proof. intros Hk. unfold Frame.cache_lookup, LRUCache.lookup. rewrite Hk. reflexivity. Qed.

Lemma cache_lookup_hit (k : Z) (f : Frame) (w : World) :
  LRUCache.find k (frame_cache w) = Some f ->
  Frame.cache_lookup k w
  = (Ret (Frame.Cached k),
     mkWorld (string_table w)
             (LRUCache.mk (LRUCache.capacity (frame_cache w))
                          ((k, f) :: LRUCache.remove k (LRUCache.items (frame_cache w))))
             (output w) (reads w)).
Proof. intros Hk. unfold Frame.cache_lookup, LRUCache.lookup. rewrite Hk. reflexivity. Qed.

(** [key(pc)] always returns [pc], leaves [pc] interned, and changes the
    table at [pc] only. *)
Lemma key_pc_eq (rt : Runtime) (pc : Z) (w : World) :
  exists w', StringTable.key_pc rt pc w = (Ret pc, w')
             /\ is_Some (string_table w' !! pc)
             /\ (forall k, k <> pc -> string_table w' !! k = string_table w !! k)
             /\ frame_cache w' = frame_cache w
             /\ output w' = output w.
Proof.
  unfold StringTable.key_pc, bindM. rewrite contains_eq.
  destruct (string_table w !! pc) as [str|] eqn:Hpc.
  - rewrite bool_decide_eq_true_2 by eauto. eexists. split; [reflexivity|].
    rewrite Hpc. eauto 6.
  - rewrite bool_decide_eq_false_2 by (apply is_Some_None).
    unfold emplace, pure. rewrite Hpc. eexists. split; [reflexivity|]. cbn.
    rewrite lookup_insert_eq. split; [eauto|]. split; [|auto].
    intros k Hk. apply lookup_insert_ne. congruence.
Qed.

(** Without a symbol [key(cursor)] throws and changes nothing. *)
Lemma key_cursor_no_symbol (rt : Runtime) (cursor : unw_cursor_t) (w : World) :
  proc_info_start_ip cursor = None
  \/ (exists k, proc_info_start_ip cursor = Some k
                /\ string_table w !! k = None /\ proc_name cursor = None) ->
  StringTable.key_cursor rt cursor w = (Throw StringTable_Error, w).
Proof.
  intros [Hinfo | (k & Hinfo & Hk & Hname)]; unfold StringTable.key_cursor; rewrite Hinfo.
  - reflexivity.
  - unfold bindM. rewrite contains_absent by exact Hk. rewrite Hname. reflexivity.
Qed.

(** C8 (amended).  A cursor whose program counter is 0 makes
    [Frame::get(cursor)] throw [Frame::Error] to its caller.  For a cursor
    with a program counter other than 0 that is not a key of the frame cache,
    and for which the unwinder cannot produce a symbol, [Frame::get(cursor)]
    returns [UNKNOWN_FRAME] and throws nothing; it stores no frame and
    writes no record. *)
Theorem get_cursor_no_symbol (rt : Runtime) (cursor : unw_cursor_t) (w : World) :
  (reg_ip cursor = 0 -> Frame.get_cursor rt cursor w = (Throw Frame_Error, w))
  /\ (reg_ip cursor <> 0 ->
      LRUCache.find (reg_ip cursor) (frame_cache w) = None ->
      no_symbol w cursor ->
      exists w', Frame.get_cursor rt cursor w = (Ret Frame.UNKNOWN_FRAME, w')
                 /\ frame_cache w' = frame_cache w
                 /\ output w' = output w).
Proof.
  split.
  - intros Hpc. unfold Frame.get_cursor. rewrite Hpc. reflexivity.
  - intros Hpc Hmiss Hsym. unfold Frame.get_cursor.
    destruct (Z.eqb_spec (reg_ip cursor) 0) as [?|_]; [contradiction|].
    unfold try_catch at 1. rewrite cache_lookup_miss by exact Hmiss.
    cbn [is_Cache_LookupError].
    unfold try_catch at 1, bindM at 1, Frame.of_cursor, try_catch at 1, bindM at 1.
    destruct (key_pc_eq rt (reg_ip cursor) w) as (w1 & -> & _ & Hother & Hcache & Hout).
    unfold bindM at 1. rewrite key_cursor_no_symbol.
    + cbn. eauto.
    + destruct Hsym as [Hinfo | (k & Hinfo & Hne & Hk & Hname)]; [left; exact Hinfo|].
      right. exists k. rewrite Hother by exact Hne. auto.
Qed.

Lemma get_cursor_no_symbol_witness :
  exists w', Frame.get_cursor Sample.py311 (Sample.cursor 77) (initial_world 2)
             = (Ret Frame.UNKNOWN_FRAME, w')
             /\ frame_cache w' = frame_cache (initial_world 2)
             /\ output w' = output (initial_world 2).
Proof.
  apply (get_cursor_no_symbol Sample.py311 (Sample.cursor 77) (initial_world 2)).
  - cbn. lia.
  - reflexivity.
  - left. reflexivity.
Defined.

(** C8, as stated, fails three ways: with the program counter 0 the call
    throws; with a program counter that is a key of the cache (here the key
    of a synthetic frame) it returns the cached frame; and with a program
    counter that is the start address of its procedure it resolves the frame
    without asking for the name. *)
Lemma get_cursor_counterexample :
  Frame.get_cursor Sample.py311 (Sample.cursor 0) (initial_world 2)
  = (Throw Frame_Error, initial_world 2)
  /\ fst (Frame.get_cursor Sample.py311 (Sample.cursor 77)
            (snd (Frame.get_name 77 (initial_world 2))))
     = Ret (Frame.Cached 77)
  /\ fst (Frame.get_cursor Sample.py311
            {| reg_ip := 70; proc_info_start_ip := Some 70; proc_name := None |}
            (initial_world 2))
     = Ret (Frame.Cached 70).
Proof. repeat split; reflexivity. Qed.

(** ** Frames of code objects *)

Lemma extends_refl (w : World) : extends w w.
Proof. repeat split; auto. Qed.

Lemma extends_trans (w1 w2 w3 : World) :
  extends w1 w2 -> extends w2 w3 -> extends w1 w3.
Proof.
  intros (H1 & H2 & H3) (H4 & H5 & H6). repeat split; [auto | congruence | congruence].
Qed.

Lemma only_reads_extends (w w' : World) : only_reads w w' -> extends w w'.
Proof. intros (H1 & H2 & H3). repeat split; [|auto|auto]. intros k. rewrite H1. auto. Qed.

Lemma bindM_inv {A B : Type} (m : M A) (k : A -> M B) (w w' : World) (o : outcome B) :
  bindM m k w = (o, w') ->
  (exists a w1, m w = (Ret a, w1) /\ k a w1 = (o, w'))
  \/ (snd (m w) = w' /\ forall b, o <> Ret b).
Proof.
  unfold bindM. destruct (m w) as [[a|e| |] w1]; intros H.
  - left. eauto.
  - right. injection H as <- <-. split; [reflexivity | discriminate].
  - right. injection H as <- <-. split; [reflexivity | discriminate].
  - right. injection H as <- <-. split; [reflexivity | discriminate].
Qed.

Lemma try_catch_inv {A : Type} (body handler : M A) (catches : exn -> bool)
    (w w' : World) (o : outcome A) :
  try_catch body catches handler w = (o, w') ->
  body w = (o, w')
  \/ (exists e w1, body w = (Throw e, w1) /\ catches e = true /\ handler w1 = (o, w')).
Proof.
  unfold try_catch. destruct (body w) as [[a|e| |] w1]; intros H; auto.
  destruct (catches e) eqn:He; [right; eauto | left; exact H].
Qed.

Section Preservation.

Context {A : Type} (R : World -> World -> Prop).

Lemma preserves_pure (a : A) : (forall w, R w w) -> preserves R (pure a).
Proof. intros Hrefl w o w' [= _ <-]. apply Hrefl. Qed.

Lemma preserves_throw (e : exn) : (forall w, R w w) -> preserves R (@throw A e).
Proof. intros Hrefl w o w' [= _ <-]. apply Hrefl. Qed.

Lemma preserves_bind {B : Type} (m : M B) (k : B -> M A) :
  (forall w, R w w) ->
  (forall w1 w2 w3, R w1 w2 -> R w2 w3 -> R w1 w3) ->
  preserves R m -> (forall b, preserves R (k b)) -> preserves R (bindM m k).
Proof.
  intros Hrefl Htrans Hm Hk w o w' H. apply bindM_inv in H.
  destruct H as [(b & w1 & Hmw & Hkw) | [Hw _]].
  - exact (Htrans _ _ _ (Hm _ _ _ Hmw) (Hk _ _ _ _ Hkw)).
  - destruct (m w) as [o1 w1] eqn:Hmw. cbn in Hw. subst w1.
    exact (Hm _ _ _ Hmw).
Qed.

Lemma preserves_try_catch (body handler : M A) (catches : exn -> bool) :
  (forall w1 w2 w3, R w1 w2 -> R w2 w3 -> R w1 w3) ->
  preserves R body -> preserves R handler ->
  preserves R (try_catch body catches handler).
Proof.
  intros Htrans Hbody Hhandler w o w' H. apply try_catch_inv in H.
  destruct H as [H | (e & w1 & Hb & _ & Hh)].
  - exact (Hbody _ _ _ H).
  - exact (Htrans _ _ _ (Hbody _ _ _ Hb) (Hhandler _ _ _ Hh)).
Qed.

End Preservation.

Section Effects.

Variables (rt : Runtime) (mem : Memory).

(** [key] may only add to the string table; when it returns, its argument
    is interned. *)
Lemma key_extends (s : Z) (w w' : World) (o : outcome Z) :
  StringTable.key rt mem s w = (o, w') ->
  extends w w' /\ (forall k, o = Ret k -> k = s /\ is_Some (string_table w' !! s)).
Proof.
  destruct (string_table w !! s) as [str|] eqn:Hs.
  - rewrite key_present by (rewrite Hs; eauto). intros [= <- <-].
    split; [apply extends_refl|]. intros k [= <-]. rewrite Hs. eauto.
  - unfold StringTable.key, bindM at 1.
    rewrite contains_absent by exact Hs.
    unfold bindM, try_catch, pyunicode_to_utf8, pylong_to_llong, bindM, copy_type,
      copy_generic, count_read, emplace, throw, pure.
    cbn. rewrite ?Hs.
    repeat (case_innermost; cbn; rewrite ?Hs);
      intros [= <- <-]; cbn;
      (split;
       [ repeat split; auto; intros k' Hk'; cbn;
         destruct (decide (s = k')) as [<-|Hne];
         rewrite ?lookup_insert_eq, ?lookup_insert_ne by exact Hne; eauto
       | intros k' Hk'; try discriminate Hk'; injection Hk' as <-;
         (split; [reflexivity | cbn; rewrite lookup_insert_eq; eauto]) ]).
Qed.

Lemma pybytes_to_bytes_and_size_only_reads (addr : Z) (w w' : World)
    (o : outcome (option (list byte))) :
  pybytes_to_bytes_and_size rt mem addr w = (o, w') -> only_reads w w'.
Proof.
  unfold pybytes_to_bytes_and_size, bindM, copy_type, copy_generic, count_read, pure.
  cbn. repeat (case_innermost; cbn); intros [= <- <-]; repeat split.
Qed.

Lemma infer_location_only_reads (code : PyCodeObject) (lasti : Z) (w w' : World)
    (o : outcome Location) :
  Frame.infer_location rt mem code lasti w = (o, w') -> only_reads w w'.
Proof.
  unfold Frame.infer_location.
  repeat case_innermost;
    intros H; apply bindM_inv in H;
    destruct H as [(table & w1 & Hread & Hrest) | [Hw _]];
    try (rewrite <- Hw;
         match goal with
         | |- only_reads _ (snd ?c) =>
             destruct c as [o1 w1] eqn:Hread;
             exact (pybytes_to_bytes_and_size_only_reads _ _ _ _ Hread)
         end);
    apply pybytes_to_bytes_and_size_only_reads in Hread;
    destruct table; injection Hrest as _ <-; exact Hread.
Qed.

(** The constructor interns the two strings of the frame it returns and
    leaves the frame cache and the trace alone. *)
Lemma of_code_extends (code : PyCodeObject) (lasti : Z) :
  preserves extends (Frame.of_code rt mem code lasti).
Proof.
  unfold Frame.of_code.
  apply preserves_bind; [apply extends_refl | apply extends_trans | |].
  - apply preserves_try_catch; [apply extends_trans | | apply preserves_throw, extends_refl].
    apply preserves_bind; [apply extends_refl | apply extends_trans | |].
    + intros w o w' H. apply key_extends in H. apply H.
    + intros filename.
      apply preserves_bind; [apply extends_refl | apply extends_trans | |].
      * intros w o w' H. apply key_extends in H. apply H.
      * intros name. apply preserves_pure, extends_refl.
  - intros [filename name].
    apply preserves_bind; [apply extends_refl | apply extends_trans | |].
    + intros w o w' H. apply only_reads_extends.
      exact (infer_location_only_reads _ _ _ _ _ H).
    + intros loc. apply preserves_pure, extends_refl.
Qed.

Lemma of_code_interned (code : PyCodeObject) (lasti : Z) (w w' : World) (f : Frame) :
  Frame.of_code rt mem code lasti w = (Ret f, w') ->
  is_Some (string_table w' !! filename f) /\ is_Some (string_table w' !! name f).
Proof.
  unfold Frame.of_code. intros H.
  apply bindM_inv in H. destruct H as [([fn nm] & w1 & Hstr & H) | [_ H]];
    [|exfalso; exact (H f eq_refl)].
  apply bindM_inv in H. destruct H as [(loc & w2 & Hloc & H) | [_ H]];
    [|exfalso; exact (H f eq_refl)].
  injection H as <- <-. cbn [filename name].
  apply infer_location_only_reads in Hloc. destruct Hloc as (-> & _ & _).
  apply try_catch_inv in Hstr. destruct Hstr as [Hstr | (e & w0 & _ & _ & [=])].
  apply bindM_inv in Hstr. destruct Hstr as [(fn' & w3 & Hfn & H) | [_ H]];
    [|exfalso; exact (H _ eq_refl)].
  apply bindM_inv in H. destruct H as [(nm' & w4 & Hnm & H) | [_ H]];
    [|exfalso; exact (H _ eq_refl)].
  injection H as <- <- <-.
  apply key_extends in Hfn. destruct Hfn as (_ & Hfn).
  destruct (Hfn fn' eq_refl) as (-> & Hin).
  apply key_extends in Hnm. destruct Hnm as ((Hmono & _) & Hnm).
  destruct (Hnm nm' eq_refl) as (-> & Hin').
  split; [apply Hmono, Hin | exact Hin'].
Qed.

End Effects.

(** ** Resolution through the cache *)

(** Declaring a new frame appends its record to the trace and puts it in
    front of the cache. *)
Lemma declare_and_store_eq (k : Z) (f : Frame) (w : World) :
  Frame.declare_and_store k f w
  = (Ret (Frame.Cached k),
     mkWorld (string_table w)
             (LRUCache.store k (Frame.set_cache_key k f) (frame_cache w))
             (output w ++ MojoRenderer.frame k (filename f) (name f) (location f))
             (reads w)).
Proof. reflexivity. Qed.

Lemma find_store (k : Z) (f : Frame) (c : LRUCache.t) :
  LRUCache.find k (LRUCache.store k f c) = Some f.
Proof.
  unfold LRUCache.find, LRUCache.store. cbn.
  rewrite bool_decide_eq_true_2 by reflexivity. reflexivity.
Qed.

(** The four ways [Frame::get(code_addr, lasti)] ends. *)
Lemma get_cases (rt : Runtime) (mem : Memory) (code_addr lasti : Z) (w w' : World)
    (o : outcome Frame.Ref) :
  Frame.get rt mem code_addr lasti w = (o, w') ->
  let k := Frame.key code_addr lasti in
  (code_at mem code_addr = None /\ o = Ret Frame.INVALID_FRAME /\ w' = one_read w)
  \/ (exists f, LRUCache.find k (frame_cache w) = Some f
                /\ o = Ret (Frame.Cached k)
                /\ string_table w' = string_table w
                /\ output w' = output w
                /\ frame_cache w'
                   = LRUCache.mk (LRUCache.capacity (frame_cache w))
                       ((k, f) :: LRUCache.remove k (LRUCache.items (frame_cache w))))
  \/ (exists code f w1,
        code_at mem code_addr = Some code
        /\ LRUCache.find k (frame_cache w) = None
        /\ Frame.of_code rt mem code lasti (one_read w) = (Ret f, w1)
        /\ o = Ret (Frame.Cached k)
        /\ string_table w' = string_table w1
        /\ output w' = output w ++ MojoRenderer.frame k (filename f) (name f) (location f)
        /\ frame_cache w' = LRUCache.store k (Frame.set_cache_key k f) (frame_cache w))
  \/ (LRUCache.find k (frame_cache w) = None
      /\ (forall r, o = Ret r -> r = Frame.INVALID_FRAME)
      /\ output w' = output w
      /\ frame_cache w' = frame_cache w).
Proof.
  intros H k. unfold Frame.get, bindM at 1 in H. rewrite copy_type_eq in H.
  destruct (code_at mem code_addr) as [code|] eqn:Hcode.
  2: { injection H as <- <-. left. auto. }
  fold k in H. right.
  destruct (LRUCache.find k (frame_cache w)) as [f|] eqn:Hfind.
  - left. exists f. unfold try_catch at 1 in H.
    rewrite (cache_lookup_hit k f) in H by exact Hfind.
    injection H as <- <-. cbn. auto.
  - right. unfold try_catch at 1 in H.
    rewrite cache_lookup_miss in H by exact Hfind. cbn [is_Cache_LookupError] in H.
    unfold try_catch, bindM in H.
    destruct (Frame.of_code rt mem code lasti (one_read w)) as [[f|e| |] w1] eqn:Hof.
    + left. exists code, f, w1. rewrite declare_and_store_eq in H.
      injection H as <- <-. cbn.
      destruct (of_code_extends rt mem code lasti _ _ _ Hof) as (_ & -> & ->).
      auto 10.
    + right. destruct (of_code_extends rt mem code lasti _ _ _ Hof) as (_ & Hc & Ho).
      destruct (is_Frame_Error e); injection H as <- <-;
        (split; [reflexivity|]); (split; [intros r [= <-]; reflexivity || discriminate|]);
        auto.
    + right. destruct (of_code_extends rt mem code lasti _ _ _ Hof) as (_ & Hc & Ho).
      injection H as <- <-. split; [reflexivity|]. split; [discriminate|]. auto.
    + right. destruct (of_code_extends rt mem code lasti _ _ _ Hof) as (_ & Hc & Ho).
      injection H as <- <-. split; [reflexivity|]. split; [discriminate|]. auto.
Qed.








(** ** Repeat lookups *)

Lemma skip_non_code_only_reads (mem : Memory) (fuel : nat) :
  forall frame_addr, preserves only_reads (Frame.skip_non_code fuel mem frame_addr).
Proof.
  induction fuel as [|fuel IH]; intros frame_addr; cbn [Frame.skip_non_code];
    destruct (frame_addr =? 0); try (apply preserves_pure, only_reads_refl).
  - intros w o w' [= _ <-]. apply only_reads_refl.
  - apply preserves_bind; [apply only_reads_refl | apply only_reads_trans | |].
    + intros w o w' [= _ <-]. repeat split.
    + intros [iframe|]; [|apply preserves_throw, only_reads_refl].
      apply preserves_bind; [apply only_reads_refl | apply only_reads_trans | |].
      * intros w o w' [= _ <-]. repeat split.
      * intros [[|]|]; [apply preserves_pure, only_reads_refl | apply IH
                        | apply preserves_throw, only_reads_refl].
Qed.

(** A [get] that returns the reference to a frame the cache already held has
    promoted that frame and changed nothing in it. *)
Lemma get_cached (rt : Runtime) (mem : Memory) (code_addr lasti k : Z) (f : Frame)
    (w w' : World) :
  LRUCache.find k (frame_cache w) = Some f ->
  Frame.get rt mem code_addr lasti w = (Ret (Frame.Cached k), w') ->
  frame_cache w'
  = LRUCache.mk (LRUCache.capacity (frame_cache w))
      ((k, f) :: LRUCache.remove k (LRUCache.items (frame_cache w))).
Proof.
  intros Hf H. apply get_cases in H.
  destruct H as [(_ & [=] & _) | [(f0 & Hf0 & [= ->] & _ & _ & Hcache)
                | [(code & f0 & w1 & _ & Hf0 & _ & [= ->] & _)
                  | (_ & Hinv & _)]]].
  - rewrite Hf in Hf0. injection Hf0 as <-. exact Hcache.
  - congruence.
  - specialize (Hinv _ eq_refl). discriminate.
Qed.

Lemma find_update_head (k : Z) (g : Frame -> Frame) (f : Frame) (cap : nat)
    (rest : list (Z * Frame)) :
  LRUCache.find k (LRUCache.update k g (LRUCache.mk cap ((k, f) :: rest))) = Some (g f).
Proof.
  unfold LRUCache.find, LRUCache.update. cbn.
  rewrite (bool_decide_eq_true_2 (k = k)) by reflexivity. cbn.
  rewrite (bool_decide_eq_true_2 (k = k)) by reflexivity. reflexivity.
Qed.

Lemma find_head (k : Z) (f : Frame) (cap : nat) (rest : list (Z * Frame)) :
  LRUCache.find k (LRUCache.mk cap ((k, f) :: rest)) = Some f.
Proof.
  unfold LRUCache.find. cbn. rewrite bool_decide_eq_true_2 by reflexivity. reflexivity.
Qed.

Lemma set_is_entry_same (f : Frame) : Frame.set_is_entry (is_entry f) f = f.
Proof. destruct f. reflexivity. Qed.

(** C10.  When [Frame::read] resolves to a frame the cache already holds, the
    cache holds under the same key, afterwards, that very frame with at most
    its [is_entry] flag assigned anew: cache key, file name, name and
    location are the ones it was stored with. *)
Theorem read_keeps_frame (fuel : nat) (rt : Runtime) (mem : Memory)
    (frame_addr k prev : Z) (f : Frame) (w w' : World) :
  LRUCache.find k (frame_cache w) = Some f ->
  Frame.read fuel rt mem frame_addr w = (Ret (Frame.Cached k, prev), w') ->
  exists f', LRUCache.find k (frame_cache w') = Some f'
             /\ cache_key f' = cache_key f
             /\ filename f' = filename f
             /\ name f' = name f
             /\ location f' = location f
             /\ (PY_VERSION_HEX rt < 0x030b0000 -> is_entry f' = is_entry f).
Proof.
  intros Hf H.
  assert (Hflag : forall b, exists f',
             Some (Frame.set_is_entry b f) = Some f'
             /\ cache_key f' = cache_key f /\ filename f' = filename f
             /\ name f' = name f /\ location f' = location f).
  { intros b. exists (Frame.set_is_entry b f). cbn. auto 6. }
  unfold Frame.read in H.
  destruct (Z.geb_spec (PY_VERSION_HEX rt) 0x030b0000) as [Hv|Hv].
  - apply bindM_inv in H. destruct H as [(addr & w1 & Hskip & H) | [_ H]];
      [|exfalso; exact (H _ eq_refl)].
    assert (Hw1 : frame_cache w1 = frame_cache w).
    { destruct (PY_VERSION_HEX rt >=? 0x030d0000).
      - apply bindM_inv in Hskip. destruct Hskip as [(a & w0 & Hs & Hrest) | [_ Hs]];
          [|exfalso; exact (Hs _ eq_refl)].
        apply skip_non_code_only_reads in Hs. destruct Hs as (_ & Hc & _).
        destruct (a =? 0); injection Hrest as _ <-; exact Hc.
      - injection Hskip as _ <-. reflexivity. }
    unfold bindM at 1 in H. rewrite copy_type_eq in H.
    destruct (iframe_at mem addr) as [iframe|]; [|discriminate H].
    apply bindM_inv in H. destruct H as [(r & w2 & Hget & H) | [_ H]];
      [|exfalso; exact (H _ eq_refl)].
    unfold bindM, Frame.assign_is_entry, pure in H.
    destruct r as [| |k']; [discriminate H | discriminate H |].
    injection H as -> _ <-.
    apply (get_cached rt mem _ _ k f) in Hget; [|cbn; rewrite Hw1; exact Hf].
    cbn [frame_cache]. rewrite Hget, find_update_head.
    destruct (Hflag (if PY_VERSION_HEX rt >=? 0x030c0000
                     then owner iframe =? FRAME_OWNED_BY_CSTACK
                     else iframe_is_entry iframe)) as (f' & [= <-] & Hrest).
    eexists. split; [reflexivity|]. cbn. repeat split; lia.
  - unfold bindM at 1 in H. rewrite copy_type_eq in H.
    destruct (pyframe_at mem frame_addr) as [py_frame|]; [|discriminate H].
    apply bindM_inv in H. destruct H as [(r & w2 & Hget & H) | [_ H]];
      [|exfalso; exact (H _ eq_refl)].
    unfold pure in H.
    destruct r as [| |k']; [discriminate H | discriminate H |].
    injection H as -> _ <-.
    apply (get_cached rt mem _ _ k f) in Hget; [|exact Hf].
    rewrite Hget, find_head. exists f. auto 7.
Qed.

Lemma read_keeps_frame_witness :
  let w := snd (Frame.read 0 Sample.py311 Sample.memory 5000 (initial_world 2)) in
  let w' := snd (Frame.read 0 Sample.py311 Sample.memory 5000 w) in
  let k := Frame.key 1000 2 in
  let f := mkFrame k 2000 3000 (mkLocation 7 7 0 0) true in
  exists f', LRUCache.find k (frame_cache w') = Some f'
             /\ cache_key f' = cache_key f
             /\ filename f' = filename f
             /\ name f' = name f
             /\ location f' = location f
             /\ (PY_VERSION_HEX Sample.py311 < 0x030b0000 -> is_entry f' = is_entry f).
Proof.
  intros w w' k f.
  apply (read_keeps_frame 0 Sample.py311 Sample.memory 5000 k 0 f w w');
    vm_compute; reflexivity.
Defined.

(** On 3.11 and 3.12 a repeat lookup does return: when the frame snapshot and
    the code object can be copied and the frame key is in the cache,
    [Frame::read] yields the reference to the cached frame, with the flag
    taken from the snapshot. *)
Lemma read_hit_returns (fuel : nat) (rt : Runtime) (mem : Memory) (frame_addr : Z)
    (iframe : InterpreterFrame) (code : PyCodeObject) (f : Frame) (w : World) :
  0x030b0000 <= PY_VERSION_HEX rt < 0x030d0000 ->
  iframe_at mem frame_addr = Some iframe ->
  code_at mem (f_code iframe) = Some code ->
  let lasti :=
    to_int32 (to_int32 ((prev_instr iframe - f_code iframe) / sizeof_Py_CODEUNIT)
              - offsetof_co_code_adaptive rt / sizeof_Py_CODEUNIT) in
  let k := Frame.key (f_code iframe) lasti in
  LRUCache.find k (frame_cache w) = Some f ->
  exists w' b, Frame.read fuel rt mem frame_addr w = (Ret (Frame.Cached k, previous iframe), w')
               /\ LRUCache.find k (frame_cache w') = Some (Frame.set_is_entry b f).
Proof.
  intros Hv Hframe Hcode lasti k Hf. unfold Frame.read.
  replace (PY_VERSION_HEX rt >=? 0x030b0000) with true by lia.
  replace (PY_VERSION_HEX rt >=? 0x030d0000) with false by lia.
  unfold bindM at 1, pure at 1. unfold bindM at 1. rewrite copy_type_eq, Hframe.
  fold lasti. unfold bindM at 1, Frame.get, bindM at 1. rewrite copy_type_eq, Hcode.
  fold k. unfold try_catch.
  rewrite (cache_lookup_hit k f) by exact Hf.
  unfold bindM, Frame.assign_is_entry, pure. cbn [frame_cache].
  do 2 eexists. split; [reflexivity|]. cbn [frame_cache]. apply find_update_head.
Qed.

(** * Further properties *)

(** ** The integer form on a stream *)

Lemma lor_bit_range (a b k : Z) :
  0 <= k -> 0 <= a < 2 ^ k -> 0 <= b < 2 ^ k -> 0 <= Z.lor a b < 2 ^ k.
Proof.
  intros Hk Ha Hb.
  assert (Hnonneg : 0 <= Z.lor a b) by (apply Z.lor_nonneg; lia).
  split; [exact Hnonneg|].
  destruct (Z.eq_dec (Z.lor a b) 0) as [->|Hne]; [lia|].
  assert (Hkpos : 0 < k).
  { destruct (Z.eq_dec k 0) as [->|]; [|lia].
    change (2 ^ 0) with 1 in *. replace a with 0 in Hne by lia.
    replace b with 0 in Hne by lia. contradiction. }
  assert (Hlog : forall x, 0 <= x < 2 ^ k -> Z.log2 x < k).
  { intros x Hx. destruct (Z.eq_dec x 0) as [->|]; [exact Hkpos|].
    apply Z.log2_lt_pow2; lia. }
  apply Z.log2_lt_pow2; [lia|].
  rewrite Z.log2_lor by lia. apply Z.max_lub_lt; auto.
Qed.

Lemma integer_loop_shape (fuel : nat) :
  forall m, 0 < m < 2 ^ (7 * Z.of_nat fuel) ->
    continued (MojoRenderer.integer_loop fuel m)
    /\ (length (MojoRenderer.integer_loop fuel m) <= fuel)%nat.
Proof.
  induction fuel as [|fuel IH]; intros m Hm.
  - change (2 ^ (7 * Z.of_nat 0)) with 1 in Hm. lia.
  - cbn [MojoRenderer.integer_loop].
    destruct (Z.eqb_spec m 0) as [->|_]; [lia|].
    assert (Hlow : 0 <= Z.land m 0x7f < 128).
    { rewrite low7_mod. apply Z.mod_pos_bound. lia. }
    rewrite Z.shiftr_div_pow2 by lia. change (2 ^ 7) with 128.
    destruct (Z.eqb_spec (m / 128) 0) as [Hz|Hnz].
    + rewrite Hz, integer_loop_0. cbn [continued length].
      rewrite continuation_clear. split; [|lia].
      split; [lia | reflexivity].
    + destruct (IH (m / 128)) as [Hshape Hlen].
      { split.
        - pose proof (Z.div_pos m 128). lia.
        - apply Z.div_lt_upper_bound; [lia|].
          replace (7 * Z.of_nat (S fuel)) with (7 + 7 * Z.of_nat fuel) in Hm by lia.
          rewrite Z.pow_add_r in Hm by lia. change (2 ^ 7) with 128 in Hm. lia. }
      split; [|cbn [length]; lia].
      destruct (MojoRenderer.integer_loop fuel (m / 128)) as [|b' l] eqn:Hl;
        [destruct Hshape|].
      cbn [continued]. rewrite continuation_set.
      split; [|split; [reflexivity | exact Hshape]].
      apply (lor_bit_range _ _ 8); lia.
Qed.

Lemma integer_loop_length (fuel : nat) :
  forall (m : Z) (k : nat), 0 <= m < 2 ^ (7 * Z.of_nat k) ->
    (length (MojoRenderer.integer_loop fuel m) <= k)%nat.
Proof.
  induction fuel as [|fuel IH]; intros m k Hm; cbn [MojoRenderer.integer_loop length];
    [lia|].
  destruct (Z.eqb_spec m 0) as [->|Hne]; cbn [length]; [lia|].
  destruct k as [|k]; [change (2 ^ (7 * Z.of_nat 0)) with 1 in Hm; lia|].
  apply le_n_S, IH. rewrite Z.shiftr_div_pow2 by lia. change (2 ^ 7) with 128.
  split; [apply Z.div_pos; lia|]. apply Z.div_lt_upper_bound; [lia|].
  replace (7 * Z.of_nat (S k)) with (7 + 7 * Z.of_nat k) in Hm by lia.
  rewrite Z.pow_add_r in Hm by lia. change (2 ^ 7) with 128 in Hm. lia.
Qed.

Lemma first_byte_range (mag : Z) (sign more : bool) :
  0 <= MojoRenderer.first_byte mag sign more < 256.
Proof.
  unfold MojoRenderer.first_byte.
  assert (Hlow : 0 <= Z.land mag 0x3f < 64).
  { rewrite low6_mod. apply Z.mod_pos_bound. lia. }
  destruct sign, more; repeat apply (lor_bit_range _ _ 8); lia.
Qed.

(** X1.  The integer form is self-delimiting over the whole range of
    [mojo_int_t]: reading back what [integer] wrote gives the integer and
    leaves exactly the bytes that follow it on the stream. *)
Theorem integer_stream_roundtrip (n : Z) (rest : list Z) :
  - 2 ^ 63 <= n < 2 ^ 63 ->
  MojoRenderer.decode_integer (MojoRenderer.integer n ++ rest) = Some (n, rest).
Proof. intros Hn. apply decode_integer_app. lia. Qed.

Lemma integer_stream_roundtrip_witness :
  MojoRenderer.decode_integer (MojoRenderer.integer (- 2 ^ 63) ++ [7; 9])
  = Some (- 2 ^ 63, [7; 9]).
Proof. apply (integer_stream_roundtrip (- 2 ^ 63) [7; 9]). lia. Defined.

(** X2.  For every [mojo_int_t] the encoder puts between one and ten bytes,
    each of them an [unsigned char], with the continuation bit set on every
    byte but the last: the loop always reaches the end of the magnitude. *)
Theorem integer_bytes_shape (n : Z) :
  - 2 ^ 63 <= n < 2 ^ 63 ->
  continued (MojoRenderer.integer n)
  /\ (1 <= length (MojoRenderer.integer n) <= 10)%nat.
Proof.
  intros Hn. rewrite integer_first_byte. cbn zeta.
  set (mag := to_uint64 (if n <? 0 then - n else n)).
  assert (Hmag : 0 <= mag < 2 ^ 64).
  { unfold mag, to_uint64. apply Z.mod_pos_bound. lia. }
  pose proof (first_byte_range mag (n <? 0) (negb (mag ≫ 6 =? 0))) as Hb.
  pose proof (first_byte_more mag (n <? 0) (negb (mag ≫ 6 =? 0))) as Hmore.
  revert Hb Hmore. generalize (MojoRenderer.first_byte mag (n <? 0) (negb (mag ≫ 6 =? 0))).
  intros b Hb Hmore.
  rewrite Z.shiftr_div_pow2 in * by lia. change (2 ^ 6) with 64 in *.
  destruct (Z.eqb_spec (mag / 64) 0) as [Hz|Hnz]; cbn [negb] in Hmore.
  - rewrite Hz, integer_loop_0. cbn [continued length]. split; [auto | lia].
  - destruct (integer_loop_shape 10 (mag / 64)) as [Hshape Hlen].
    { split.
      - pose proof (Z.div_pos mag 64). lia.
      - apply Z.div_lt_upper_bound; [lia|]. change (7 * Z.of_nat 10) with 70.
        change (2 ^ 70) with (64 * 2 ^ 64). lia. }
    split.
    + destruct (MojoRenderer.integer_loop 10 (mag / 64)) as [|b' l]; [destruct Hshape|].
      cbn [continued]. auto.
    + pose proof (integer_loop_length 10 (mag / 64) 9) as Hnine. cbn [length].
      split; [lia|]. apply le_n_S, Hnine.
      split; [apply Z.div_pos; lia|]. apply Z.div_lt_upper_bound; [lia|].
      change (7 * Z.of_nat 9) with 63. change (2 ^ 64) with (64 * 2 ^ 58) in Hmag.
      change (2 ^ 63) with (32 * 2 ^ 58). lia.
Qed.

Lemma integer_bytes_shape_witness :
  continued (MojoRenderer.integer (2 ^ 63 - 1))
  /\ (1 <= length (MojoRenderer.integer (2 ^ 63 - 1)) <= 10)%nat.
Proof. apply (integer_bytes_shape (2 ^ 63 - 1)). lia. Defined.

(** X3.  Two different integers of [mojo_int_t] never have the same bytes on
    the trace. *)
Theorem integer_injective (n m : Z) :
  - 2 ^ 63 <= n < 2 ^ 63 -> - 2 ^ 63 <= m < 2 ^ 63 ->
  n <> m -> MojoRenderer.integer n <> MojoRenderer.integer m.
Proof.
  intros Hn Hm Hne Heq.
  pose proof (decode_integer_app n [] ltac:(lia)) as Hdn.
  pose proof (decode_integer_app m [] ltac:(lia)) as Hdm.
  rewrite Heq, Hdm in Hdn. congruence.
Qed.

Lemma integer_injective_witness : MojoRenderer.integer 5 <> MojoRenderer.integer (- 5).
Proof. apply (integer_injective 5 (- 5)); lia. Defined.

(** ** Frame records read back *)

Lemma leading_bytes_put (bs : list Z) (items : list out_item) :
  leading_bytes ((PutByte <$> bs) ++ items)
  = (bs ++ fst (leading_bytes items), snd (leading_bytes items)).
Proof.
  induction bs as [|b bs IH]; cbn [fmap list_fmap app leading_bytes].
  - destruct (leading_bytes items). reflexivity.
  - rewrite IH. reflexivity.
Qed.

Lemma leading_bytes_back (items : list out_item) :
  (PutByte <$> fst (leading_bytes items)) ++ snd (leading_bytes items) = items.
Proof.
  induction items as [|[e|b|s] items IH]; cbn [leading_bytes]; try reflexivity.
  destruct (leading_bytes items) as [bs rest]. cbn in *. rewrite IH. reflexivity.
Qed.

Lemma read_integer_put (n : Z) (items : list out_item) :
  - 2 ^ 63 <= n < 2 ^ 63 ->
  read_integer (MojoRenderer.put_integer n ++ items) = Some (n, items).
Proof.
  intros Hn. unfold read_integer, MojoRenderer.put_integer.
  rewrite leading_bytes_put, decode_integer_app by lia.
  rewrite leading_bytes_back. reflexivity.
Qed.

Lemma ref_range (value : Z) : - 2 ^ 63 <= Z.land MOJO_INT32 value < 2 ^ 63.
Proof.
  rewrite Z.land_comm. change MOJO_INT32 with (Z.ones 32).
  rewrite Z.land_ones by lia. pose proof (Z.mod_pos_bound value (2 ^ 32)). lia.
Qed.

(** X4.  A frame record can be read back from the trace: the tag, the three
    keys as the reference form masks them, and the four integers of the
    location, with what follows the record left in place. *)
Theorem frame_record_roundtrip (key filename name : Z) (loc : Location)
    (rest : list out_item) :
  - 2 ^ 63 <= line loc < 2 ^ 63 -> - 2 ^ 63 <= line_end loc < 2 ^ 63 ->
  - 2 ^ 63 <= column loc < 2 ^ 63 -> - 2 ^ 63 <= column_end loc < 2 ^ 63 ->
  read_frame_record (MojoRenderer.frame key filename name loc ++ rest)
  = Some ([Z.land MOJO_INT32 key; Z.land MOJO_INT32 filename; Z.land MOJO_INT32 name;
           line loc; line_end loc; column loc; column_end loc], rest).
Proof.
  intros Hl Hle Hc Hce.
  unfold MojoRenderer.frame, MojoRenderer.event, MojoRenderer.ref.
  rewrite <- !app_assoc. cbn [app read_frame_record read_integers].
  repeat (rewrite read_integer_put by (first [apply ref_range | assumption])).
  reflexivity.
Qed.

Lemma frame_record_roundtrip_witness :
  read_frame_record
    (MojoRenderer.frame (2 ^ 40 + 5) 2000 3000 (mkLocation 7 7 0 0) ++ [PutEvent MOJO_STACK])
  = Some ([5; 2000; 3000; 7; 7; 0; 0], [PutEvent MOJO_STACK]).
Proof.
  apply (frame_record_roundtrip (2 ^ 40 + 5) 2000 3000 (mkLocation 7 7 0 0)); cbn; lia.
Defined.

(** ** The two older decoders on tables of pairs *)

Lemma to_uint32_range (z : Z) : 0 <= to_uint32 z < 2 ^ 32.
Proof. unfold to_uint32. apply Z.mod_pos_bound. lia. Qed.

Lemma to_uint32_add_l (a b : Z) : to_uint32 (to_uint32 a + b) = to_uint32 (a + b).
Proof. unfold to_uint32. apply Zplus_mod_idemp_l. Qed.

Lemma to_uint32_small (z : Z) : 0 <= z < 2 ^ 32 -> to_uint32 z = z.
Proof. intros Hz. unfold to_uint32. apply Z.mod_small. exact Hz. Qed.

Lemma pairs_table_length (pairs : list (byte * byte)) :
  length (pairs_table pairs) = (2 * length pairs)%nat.
Proof.
  induction pairs as [|p pairs IH]; [reflexivity|].
  unfold pairs_table in *. cbn [flat_map app length]. rewrite IH. lia.
Qed.

Lemma pairs_table_app (seen todo : list (byte * byte)) :
  pairs_table (seen ++ todo) = pairs_table seen ++ pairs_table todo.
Proof. unfold pairs_table. apply flat_map_app. Qed.

Lemma bytecode_span_nonneg (pairs : list (byte * byte)) : 0 <= bytecode_span pairs.
Proof.
  induction pairs as [|p pairs IH]; cbn; [lia|].
  pose proof (byte_val_range (fst p)). unfold bytecode_span in IH. lia.
Qed.

(** The two bytes of the pair that follows [seen]. *)
Lemma pairs_table_at (seen rest : list (byte * byte)) (a b : byte) :
  let table := pairs_table (seen ++ (a, b) :: rest) in
  let i := 2 * Z.of_nat (length seen) in
  LineTable.table_at table i = Ret (byte_val a)
  /\ LineTable.table_at table (i + 1) = Ret (byte_val b)
  /\ i < Z.of_nat (length table).
Proof.
  intros table i. unfold LineTable.table_at.
  assert (Hlen : length (pairs_table seen) = Z.to_nat i)
    by (rewrite pairs_table_length; unfold i; lia).
  destruct (Z.ltb_spec i 0); [unfold i in *; lia|].
  destruct (Z.ltb_spec (i + 1) 0); [lia|].
  unfold table. rewrite pairs_table_app.
  replace (Z.to_nat (i + 1)) with (length (pairs_table seen) + 1)%nat by lia.
  rewrite <- Hlen.
  rewrite lookup_app_r by lia. rewrite Nat.sub_diag.
  rewrite lookup_app_r by lia.
  replace (length (pairs_table seen) + 1 - length (pairs_table seen))%nat with 1%nat by lia.
  cbn. repeat split; try reflexivity.
  rewrite length_app, pairs_table_length. cbn [length]. unfold i. lia.
Qed.

Section LegacyTable.

Variable lasti : Z.

(** The [co_lnotab] loop walks through the pairs [mid] as long as the
    bytecode offset they span does not exceed [lasti], adding up their line
    deltas. *)
Lemma loop_legacy_walk (mid : list (byte * byte)) :
  forall (seen rest : list (byte * byte)) (fuel : nat) (bc lineno : Z),
    0 <= bc -> bc + bytecode_span mid <= lasti -> 0 <= lineno < 2 ^ 32 ->
    LineTable.loop_legacy (length mid + fuel) (pairs_table (seen ++ mid ++ rest)) lasti
      (2 * Z.of_nat (length seen)) bc lineno
    = LineTable.loop_legacy fuel (pairs_table (seen ++ mid ++ rest)) lasti
        (2 * Z.of_nat (length (seen ++ mid))) (bc + bytecode_span mid)
        (to_uint32 (lineno + line_span mid)).
Proof.
  induction mid as [|[a b] mid IH]; intros seen rest fuel bc lineno Hbc Hspan Hline.
  - rewrite app_nil_r. cbn. rewrite !Z.add_0_r, to_uint32_small by exact Hline.
    reflexivity.
  - cbn [bytecode_span line_span fold_right fst snd] in *.
    fold (bytecode_span mid) in *. fold (line_span mid).
    pose proof (bytecode_span_nonneg mid) as Hmid.
    pose proof (byte_val_range a) as Ha. pose proof (byte_val_range b) as Hb.
    destruct (pairs_table_at seen (mid ++ rest) a b) as (Hat & Hat' & Hin).
    cbn [app length Nat.add LineTable.loop_legacy].
    destruct (Z.ltb_spec (2 * Z.of_nat (length seen))
                (Z.of_nat (length (pairs_table (seen ++ (a, b) :: mid ++ rest)))));
      [|lia].
    cbn [negb]. rewrite Hat. cbn [bind].
    destruct (Z.gtb_spec (bc + byte_val a) lasti); [lia|].
    rewrite Hat'. cbn [bind].
    replace (seen ++ (a, b) :: mid ++ rest) with ((seen ++ [(a, b)]) ++ mid ++ rest)
      by (rewrite <- app_assoc; reflexivity).
    replace (2 * Z.of_nat (length seen) + 1 + 1)
      with (2 * Z.of_nat (length (seen ++ [(a, b)])))
      by (rewrite length_app; cbn [length]; lia).
    rewrite IH; [| lia | lia | apply to_uint32_range].
    rewrite <- !app_assoc. cbn [app]. f_equal; [lia|].
    unfold signed_delta.
    destruct (Z.geb_spec (byte_val b) 0x80);
      rewrite ?to_uint32_add_l, <- ?Z.add_assoc, ?to_uint32_add_l; f_equal; lia.
Qed.

End LegacyTable.

Lemma pairs_table_fuel (seen todo : list (byte * byte)) :
  length (pairs_table (seen ++ todo))
  = (length seen + (length seen + 2 * length todo))%nat.
Proof. rewrite pairs_table_length, length_app. lia. Qed.

Lemma final_location_line (z : Z) :
  LineTable.final_location (to_uint32 z) = mkLocation (to_int32 z) (to_int32 z) 0 0.
Proof. unfold LineTable.final_location. rewrite to_int32_to_uint32. reflexivity. Qed.

(** X5.  What the [co_lnotab] decoder computes on a table of whole pairs:
    the first line number plus the line deltas, each taken as a signed byte,
    of the pairs [seen] whose bytecode offsets do not exceed the queried
    offset; it stops in front of the first pair that passes the offset, or
    at the end of the table.  It reads no byte outside the table and throws
    nothing. *)
Theorem decode_legacy_line (seen rest : list (byte * byte)) (first lasti : Z) :
  (seen <> [] -> bytecode_span seen <= lasti) ->
  match rest with
  | [] => True
  | (a, _) :: _ => lasti < bytecode_span seen + byte_val a
  end ->
  LineTable.decode_legacy (pairs_table (seen ++ rest)) first lasti
  = Ret (mkLocation (to_int32 (first + line_span seen))
                    (to_int32 (first + line_span seen)) 0 0).
Proof.
  intros Hseen Hrest. unfold LineTable.decode_legacy.
  assert (Hwalk :
    LineTable.loop_legacy (length (pairs_table (seen ++ rest)))
      (pairs_table (seen ++ rest)) lasti 0 0 (to_uint32 first)
    = LineTable.loop_legacy (length seen + 2 * length rest)
        (pairs_table (seen ++ rest)) lasti (2 * Z.of_nat (length seen))
        (bytecode_span seen) (to_uint32 (first + line_span seen))).
  { rewrite pairs_table_fuel.
    destruct seen as [|p seen'] eqn:Hs.
    - cbn. rewrite Z.add_0_r. reflexivity.
    - rewrite <- Hs in *.
      pose proof (loop_legacy_walk lasti seen [] rest
                    (length seen + 2 * length rest) 0 (to_uint32 first)) as H.
      cbn [app length] in H. change (2 * Z.of_nat 0) with 0 in H.
      rewrite H; [| lia | apply Hseen; subst; discriminate | apply to_uint32_range].
      rewrite to_uint32_add_l. reflexivity. }
  rewrite Hwalk. clear Hwalk.
  destruct rest as [|[a b] rest].
  - rewrite app_nil_r in *.
    destruct (length seen + 2 * length (@nil (byte * byte)))%nat;
      cbn [LineTable.loop_legacy];
      (destruct (Z.ltb_spec (2 * Z.of_nat (length seen))
                   (Z.of_nat (length (pairs_table seen))));
       [rewrite pairs_table_length in *; lia|]);
      cbn [negb bind]; rewrite final_location_line; reflexivity.
  - destruct (pairs_table_at seen rest a b) as (Hat & _ & Hin).
    replace (length seen + 2 * length ((a, b) :: rest))%nat
      with (S (length seen + 2 * length rest + 1))%nat by (cbn [length]; lia).
    cbn [LineTable.loop_legacy].
    destruct (Z.ltb_spec (2 * Z.of_nat (length seen))
                (Z.of_nat (length (pairs_table (seen ++ (a, b) :: rest))))); [|lia].
    cbn [negb]. rewrite Hat. cbn [bind].
    destruct (Z.gtb_spec (bytecode_span seen + byte_val a) lasti); [|lia].
    cbn [bind]. rewrite final_location_line. reflexivity.
Qed.

Lemma decode_legacy_line_witness :
  LineTable.decode_legacy (pairs_table ([(x02, x01); (x04, xfe)] ++ [(x03, x05)])) 10 8
  = Ret (mkLocation 9 9 0 0).
Proof.
  apply (decode_legacy_line [(x02, x01); (x04, xfe)] [(x03, x05)] 10 8).
  - intros _. vm_compute. discriminate.
  - vm_compute. reflexivity.
Defined.

Section Table310.

Variable lasti : Z.

(** One line delta of a 3.10 table applied to the running line number. *)
Lemma apply_delta_310 (lineno : Z) (b : byte) :
  0 <= lineno < 2 ^ 32 ->
  (if byte_val b =? 0x80 then lineno
   else if byte_val b >? 0x80 then to_uint32 (to_uint32 (lineno - 0x100) + byte_val b)
   else to_uint32 (lineno + byte_val b))
  = to_uint32 (lineno + delta_310 b).
Proof.
  intros Hline. unfold delta_310.
  destruct (byte_val b =? 0x80); [rewrite Z.add_0_r, to_uint32_small by lia; reflexivity|].
  destruct (byte_val b >? 0x80); [|reflexivity].
  rewrite to_uint32_add_l. f_equal. lia.
Qed.

(** The 3.10 loop walks through the pairs [mid] as long as none of them
    starts with the sentinel 0xff and the offset they span does not exceed
    [lasti]. *)
Lemma loop_310_walk (mid : list (byte * byte)) :
  forall (seen rest : list (byte * byte)) (fuel : nat) (bc lineno : Z),
    Forall (fun p => byte_val (fst p) <> 0xff) mid ->
    0 <= bc -> bc + bytecode_span mid <= lasti -> 0 <= lineno < 2 ^ 32 ->
    LineTable.loop_310 (length mid + fuel) (pairs_table (seen ++ mid ++ rest)) lasti
      (2 * Z.of_nat (length seen)) bc lineno
    = LineTable.loop_310 fuel (pairs_table (seen ++ mid ++ rest)) lasti
        (2 * Z.of_nat (length (seen ++ mid))) (bc + bytecode_span mid)
        (to_uint32 (lineno + line_span_310 mid)).
Proof.
  induction mid as [|[a b] mid IH]; intros seen rest fuel bc lineno Hff Hbc Hspan Hline.
  - rewrite app_nil_r. cbn. rewrite !Z.add_0_r, to_uint32_small by exact Hline.
    reflexivity.
  - cbn [bytecode_span line_span_310 fold_right fst snd] in *.
    fold (bytecode_span mid) in *. fold (line_span_310 mid).
    apply Forall_cons in Hff. destruct Hff as [Ha255 Hff]. cbn [fst] in Ha255.
    pose proof (bytecode_span_nonneg mid) as Hmid.
    pose proof (byte_val_range a) as Ha.
    destruct (pairs_table_at seen (mid ++ rest) a b) as (Hat & Hat' & Hin).
    cbn [app length Nat.add LineTable.loop_310].
    destruct (Z.ltb_spec (2 * Z.of_nat (length seen))
                (Z.of_nat (length (pairs_table (seen ++ (a, b) :: mid ++ rest)))));
      [|lia].
    cbn [negb]. rewrite Hat. cbn [bind].
    destruct (Z.eqb_spec (byte_val a) 0xff); [contradiction|].
    rewrite Hat'. cbn [bind].
    destruct (Z.gtb_spec (bc + byte_val a) lasti); [lia|].
    rewrite apply_delta_310 by exact Hline.
    replace (seen ++ (a, b) :: mid ++ rest) with ((seen ++ [(a, b)]) ++ mid ++ rest)
      by (rewrite <- app_assoc; reflexivity).
    replace (2 * Z.of_nat (length seen) + 1 + 1)
      with (2 * Z.of_nat (length (seen ++ [(a, b)])))
      by (rewrite length_app; cbn [length]; lia).
    rewrite IH; [| exact Hff | lia | lia | apply to_uint32_range].
    rewrite <- !app_assoc. cbn [app]. f_equal; [lia|].
    rewrite to_uint32_add_l. f_equal. lia.
Qed.

End Table310.

Lemma decode_310_walk (seen rest : list (byte * byte)) (first lasti : Z) :
  Forall (fun p => byte_val (fst p) <> 0xff) seen ->
  (seen <> [] -> bytecode_span seen <= to_int32 (Z.shiftl lasti 1)) ->
  LineTable.loop_310 (length (pairs_table (seen ++ rest)))
    (pairs_table (seen ++ rest)) (to_int32 (Z.shiftl lasti 1)) 0 0 (to_uint32 first)
  = LineTable.loop_310 (length seen + 2 * length rest)
      (pairs_table (seen ++ rest)) (to_int32 (Z.shiftl lasti 1))
      (2 * Z.of_nat (length seen))
      (bytecode_span seen) (to_uint32 (first + line_span_310 seen)).
Proof.
  intros Hff Hseen. rewrite pairs_table_fuel.
  destruct seen as [|p seen'] eqn:Hs.
  - cbn. rewrite Z.add_0_r. reflexivity.
  - rewrite <- Hs in *.
    pose proof (loop_310_walk (to_int32 (Z.shiftl lasti 1)) seen [] rest
                  (length seen + 2 * length rest) 0 (to_uint32 first)) as H.
    cbn [app length] in H. change (2 * Z.of_nat 0) with 0 in H.
    rewrite H; [| exact Hff | lia | apply Hseen; subst; discriminate
                | apply to_uint32_range].
    rewrite to_uint32_add_l. reflexivity.
Qed.

(** X6.  The 3.10 decoder stops at the end of a table of whole pairs, and
    in front of a pair whose bytecode delta is the sentinel 0xff: the line is
    the first line number plus the line deltas of the pairs before, none of
    which passes twice the queried offset. *)
Theorem decode_310_sentinel (seen rest : list (byte * byte)) (first lasti : Z) :
  Forall (fun p => byte_val (fst p) <> 0xff) seen ->
  (seen <> [] -> bytecode_span seen <= to_int32 (Z.shiftl lasti 1)) ->
  match rest with
  | [] => True
  | (a, _) :: _ => byte_val a = 0xff
  end ->
  LineTable.decode_310 (pairs_table (seen ++ rest)) first lasti
  = Ret (mkLocation (to_int32 (first + line_span_310 seen))
                    (to_int32 (first + line_span_310 seen)) 0 0).
Proof.
  intros Hff Hseen Hrest. unfold LineTable.decode_310.
  rewrite decode_310_walk by assumption.
  destruct rest as [|[a b] rest].
  - rewrite app_nil_r in *.
    destruct (length seen + 2 * length (@nil (byte * byte)))%nat;
      cbn [LineTable.loop_310];
      (destruct (Z.ltb_spec (2 * Z.of_nat (length seen))
                   (Z.of_nat (length (pairs_table seen))));
       [rewrite pairs_table_length in *; lia|]);
      cbn [negb bind]; rewrite final_location_line; reflexivity.
  - destruct (pairs_table_at seen rest a b) as (Hat & _ & Hin).
    replace (length seen + 2 * length ((a, b) :: rest))%nat
      with (S (length seen + 2 * length rest + 1))%nat by (cbn [length]; lia).
    cbn [LineTable.loop_310].
    destruct (Z.ltb_spec (2 * Z.of_nat (length seen))
                (Z.of_nat (length (pairs_table (seen ++ (a, b) :: rest))))); [|lia].
    cbn [negb]. rewrite Hat. cbn [bind]. rewrite Hrest. cbn [Z.eqb Pos.eqb bind].
    rewrite final_location_line. reflexivity.
Qed.

Lemma decode_310_sentinel_witness :
  LineTable.decode_310 (pairs_table ([(x02, x01); (x04, x80)] ++ [(xff, x05)])) 10 8
  = Ret (mkLocation 11 11 0 0).
Proof.
  apply (decode_310_sentinel [(x02, x01); (x04, x80)] [(xff, x05)] 10 8).
  - repeat constructor; vm_compute; discriminate.
  - intros _. vm_compute. discriminate.
  - reflexivity.
Defined.

(** X7.  Otherwise the 3.10 decoder stops at the first pair that takes the
    bytecode offset beyond twice the queried offset, and, unlike the
    [co_lnotab] decoder, counts the line delta of that pair in. *)
Theorem decode_310_passing (seen rest : list (byte * byte)) (a b : byte)
    (first lasti : Z) :
  Forall (fun p => byte_val (fst p) <> 0xff) seen ->
  byte_val a <> 0xff ->
  (seen <> [] -> bytecode_span seen <= to_int32 (Z.shiftl lasti 1)) ->
  to_int32 (Z.shiftl lasti 1) < bytecode_span seen + byte_val a ->
  LineTable.decode_310 (pairs_table (seen ++ (a, b) :: rest)) first lasti
  = Ret (mkLocation (to_int32 (first + line_span_310 seen + delta_310 b))
                    (to_int32 (first + line_span_310 seen + delta_310 b)) 0 0).
Proof.
  intros Hff Ha Hseen Hpass. unfold LineTable.decode_310.
  rewrite decode_310_walk by assumption.
  destruct (pairs_table_at seen rest a b) as (Hat & Hat' & Hin).
  replace (length seen + 2 * length ((a, b) :: rest))%nat
    with (S (length seen + 2 * length rest + 1))%nat by (cbn [length]; lia).
  cbn [LineTable.loop_310].
  destruct (Z.ltb_spec (2 * Z.of_nat (length seen))
              (Z.of_nat (length (pairs_table (seen ++ (a, b) :: rest))))); [|lia].
  cbn [negb]. rewrite Hat. cbn [bind].
  destruct (Z.eqb_spec (byte_val a) 0xff); [contradiction|].
  rewrite Hat'. cbn [bind].
  destruct (Z.gtb_spec (bytecode_span seen + byte_val a) (to_int32 (Z.shiftl lasti 1)));
    [|lia].
  rewrite apply_delta_310 by apply to_uint32_range.
  cbn [bind]. rewrite to_uint32_add_l, final_location_line. reflexivity.
Qed.

Lemma decode_310_passing_witness :
  LineTable.decode_310 (pairs_table ([(x02, x01)] ++ (x04, xfe) :: [(x03, x05)])) 10 2
  = Ret (mkLocation 9 9 0 0).
Proof.
  apply (decode_310_passing [(x02, x01)] [(x03, x05)] x04 xfe 10 2).
  - repeat constructor; vm_compute; discriminate.
  - vm_compute. discriminate.
  - intros _. vm_compute. discriminate.
  - vm_compute. reflexivity.
Defined.

(** ** What the string table stores *)

Lemma string_length_app (s t : string) :
  String.length (s +:+ t) = (String.length s + String.length t)%nat.
Proof. induction s as [|c s IH]; simpl; [reflexivity | f_equal; exact IH]. Qed.

Lemma string_length_substring (n : nat) :
  forall s, (String.length (String.substring 0 n s) <= n)%nat.
Proof.
  induction n as [|n IH]; intros [|c s]; cbn; try lia.
  specialize (IH s). lia.
Qed.

Lemma string_length_of_bytes (l : list byte) :
  String.length (String.string_of_list_byte l) = length l.
Proof. induction l as [|b l IH]; simpl; [reflexivity | f_equal; exact IH]. Qed.

Lemma snprintf32_length (text : string) : String.length (snprintf32 text) = 32%nat.
Proof.
  unfold snprintf32. rewrite string_length_app, string_length_of_bytes, repeat_length.
  pose proof (string_length_substring 31 text). lia.
Qed.

Lemma copy_generic_eq (mem : Memory) (addr size : Z) (w : World) :
  copy_generic mem addr size w
  = (Ret (mapM (fun k => byte_at mem (addr + Z.of_nat k)) (seq 0 (Z.to_nat size))),
     one_read w).
Proof. reflexivity. Qed.

Lemma mapM_readable (mem : Memory) (addr : Z) (bs : list byte) :
  readable mem addr bs ->
  mapM (fun k => byte_at mem (addr + Z.of_nat k)) (seq 0 (length bs)) = Some bs.
Proof.
  intros Hread. apply mapM_Some, Forall2_lookup. intros i.
  destruct (bs !! i) as [b|] eqn:Hb.
  - rewrite lookup_seq_lt by (apply lookup_lt_Some in Hb; exact Hb).
    constructor. cbn. apply Hread. exact Hb.
  - rewrite lookup_seq_ge by (apply lookup_ge_None in Hb; exact Hb). constructor.
Qed.

Lemma emplace_eq (k : Z) (s : string) (w : World) :
  emplace k s w
  = (Ret tt,
     mkWorld (match string_table w !! k with
              | Some _ => string_table w
              | None => <[k := s]> (string_table w)
              end) (frame_cache w) (output w) (reads w)).
Proof. reflexivity. Qed.

(** The outcomes of [key]: the address, or [StringTable::Error]. *)
Lemma key_outcome_cases (rt : Runtime) (mem : Memory) (s : Z) (w : World) :
  fst (StringTable.key rt mem s w) = Ret s
  \/ fst (StringTable.key rt mem s w) = Throw StringTable_Error.
Proof.
  destruct (string_table w !! s) as [str|] eqn:Hs.
  - rewrite key_present by (rewrite Hs; eauto). left. reflexivity.
  - unfold StringTable.key, bindM at 1.
    rewrite contains_absent by exact Hs.
    unfold bindM, try_catch, pyunicode_to_utf8, pylong_to_llong, bindM, copy_type,
      copy_generic, count_read, emplace, throw, pure.
    cbn. rewrite ?Hs.
    repeat (case_innermost; cbn; rewrite ?Hs); auto.
Qed.

(** [key] keeps every entry the table holds. *)
Lemma key_keeps (rt : Runtime) (mem : Memory) (s : Z) (w : World) (k : Z) (text : string) :
  string_table w !! k = Some text ->
  string_table (snd (StringTable.key rt mem s w)) !! k = Some text.
Proof.
  intros Hk.
  destruct (string_table w !! s) as [str|] eqn:Hs.
  - rewrite key_present by (rewrite Hs; eauto). exact Hk.
  - assert (Hne : s <> k) by congruence.
    unfold StringTable.key, bindM at 1.
    rewrite contains_absent by exact Hs.
    unfold bindM, try_catch, pyunicode_to_utf8, pylong_to_llong, bindM, copy_type,
      copy_generic, count_read, emplace, throw, pure.
    cbn. rewrite ?Hs.
    repeat (case_innermost; cbn; rewrite ?Hs);
      rewrite ?lookup_insert_ne by exact Hne; exact Hk.
Qed.

Lemma key_pc_keeps (rt : Runtime) (pc : Z) (w : World) (k : Z) (text : string) :
  string_table w !! k = Some text ->
  string_table (snd (StringTable.key_pc rt pc w)) !! k = Some text.
Proof.
  intros Hk. unfold StringTable.key_pc, bindM. rewrite contains_eq.
  destruct (string_table w !! pc) as [str|] eqn:Hpc.
  - rewrite bool_decide_eq_true_2 by eauto. exact Hk.
  - rewrite bool_decide_eq_false_2 by (apply is_Some_None).
    rewrite emplace_eq, Hpc. cbn. rewrite lookup_insert_ne by congruence. exact Hk.
Qed.

Lemma key_cursor_keeps (rt : Runtime) (cursor : unw_cursor_t) (w : World) (k : Z)
    (text : string) :
  string_table w !! k = Some text ->
  string_table (snd (StringTable.key_cursor rt cursor w)) !! k = Some text.
Proof.
  intros Hk. unfold StringTable.key_cursor.
  destruct (proc_info_start_ip cursor) as [start|]; [|exact Hk].
  unfold bindM. rewrite contains_eq.
  destruct (string_table w !! start) as [str|] eqn:Hstart.
  - rewrite bool_decide_eq_true_2 by eauto. exact Hk.
  - rewrite bool_decide_eq_false_2 by (apply is_Some_None).
    destruct (proc_name cursor) as [sym|]; [|exact Hk].
    rewrite emplace_eq, Hstart. cbn. rewrite lookup_insert_ne by congruence. exact Hk.
Qed.

(** X8.  First writer wins: whatever a call of one of the three interning
    operations does, and however it ends, a key that was in the table keeps
    its text.  In particular the reserved keys 0, [INVALID] and [UNKNOWN]
    stay what the constructor made them. *)
Theorem intern_keeps_entries (rt : Runtime) (mem : Memory) (cursor : unw_cursor_t)
    (addr pc k : Z) (text : string) (w : World) :
  string_table w !! k = Some text ->
  string_table (snd (StringTable.key rt mem addr w)) !! k = Some text
  /\ string_table (snd (StringTable.key_pc rt pc w)) !! k = Some text
  /\ string_table (snd (StringTable.key_cursor rt cursor w)) !! k = Some text.
Proof.
  intros Hk. split; [|split].
  - apply key_keeps, Hk.
  - apply key_pc_keeps, Hk.
  - apply key_cursor_keeps, Hk.
Qed.

Lemma intern_keeps_entries_witness :
  let w := initial_world 2 in
  string_table (snd (StringTable.key Sample.py311 Sample.memory 1 w)) !! 1
  = Some "<invalid>"%string
  /\ string_table (snd (StringTable.key_pc Sample.py311 1 w)) !! 1 = Some "<invalid>"%string
  /\ string_table (snd (StringTable.key_cursor Sample.py311
                          {| reg_ip := 9; proc_info_start_ip := Some 1;
                             proc_name := Some "main"%string |} w)) !! 1
     = Some "<invalid>"%string.
Proof.
  intros w.
  apply (intern_keeps_entries Sample.py311 Sample.memory _ 1 1 1 "<invalid>" w).
  vm_compute. reflexivity.
Defined.

(** X9.  Interning a readable text object that is not yet in the table
    stores the bytes of its characters as its text, under its address and
    nowhere else, and [lookup] then returns that text. *)
Theorem key_interns_text (rt : Runtime) (mem : Memory) (addr : Z) (u : PyUnicodeObject)
    (bs : list byte) (w : World) :
  unicode_at mem addr = Some u ->
  state_kind u = 1 ->
  text_data rt addr u <> 0 ->
  declared_length u = Z.of_nat (length bs) ->
  (length bs <= 1024)%nat ->
  readable mem (text_data rt addr u) bs ->
  not_boxed_integer rt mem addr ->
  string_table w !! addr = None ->
  exists w', StringTable.key rt mem addr w = (Ret addr, w')
             /\ StringTable.lookup addr w' = (Ret (String.string_of_list_byte bs), w')
             /\ string_table w' = <[addr := String.string_of_list_byte bs]> (string_table w).
Proof.
  intros Hu Hkind Hdata Hlen Hmax Hread Htext Hnew.
  assert (Hutf : forall w0,
    pyunicode_to_utf8 rt mem addr w0
    = (Ret (String.string_of_list_byte bs), one_read (one_read w0))).
  { intros w0. unfold pyunicode_to_utf8, bindM. rewrite copy_type_eq, Hu, Hkind.
    cbn [Z.eqb Pos.eqb negb]. fold (text_data rt addr u). fold (declared_length u).
    destruct (Z.eqb_spec (text_data rt addr u) 0); [contradiction|].
    rewrite Hlen.
    replace ((Z.of_nat (length bs) <? 0) || (Z.of_nat (length bs) >? 1024)) with false
      by lia.
    rewrite copy_generic_eq, Nat2Z.id, mapM_readable by exact Hread. reflexivity. }
  unfold StringTable.key, bindM at 1. rewrite contains_absent by exact Hnew.
  unfold try_catch at 1, bindM at 1, bindM at 1.
  destruct (Z.geb_spec (PY_VERSION_HEX rt) 0x030c0000) as [Hv|Hv].
  - unfold try_catch at 1, bindM at 1.
    rewrite pylong_to_llong_text by (apply Htext; lia).
    cbn [is_LongError]. rewrite Hutf, emplace_eq. cbn. rewrite Hnew.
    eexists. split; [reflexivity|]. unfold StringTable.lookup. cbn.
    rewrite lookup_insert_eq. auto.
  - rewrite Hutf, emplace_eq. cbn. rewrite Hnew.
    eexists. split; [reflexivity|]. unfold StringTable.lookup. cbn.
    rewrite lookup_insert_eq. auto.
Qed.

Lemma key_interns_text_witness :
  exists w', StringTable.key Sample.py312 Sample.memory 2000 (initial_world 2) = (Ret 2000, w')
             /\ StringTable.lookup 2000 w' = (Ret "ab"%string, w')
             /\ string_table w' = <[2000 := "ab"%string]> (string_table (initial_world 2)).
Proof.
  apply (key_interns_text Sample.py312 Sample.memory 2000 (Sample.text 2) [x61; x62]).
  - reflexivity.
  - reflexivity.
  - vm_compute. discriminate.
  - reflexivity.
  - cbn. lia.
  - intros [|[|i]] b Hb; cbn in Hb; try discriminate; injection Hb as <-; reflexivity.
  - intros _ l Hl. discriminate Hl.
  - reflexivity.
Defined.

(** X10.  A text that [pyunicode_to_utf8] returns has the declared length of
    the object it was read from, which is at most 1024. *)
Theorem pyunicode_to_utf8_length (rt : Runtime) (mem : Memory) (addr : Z) (text : string)
    (w w' : World) :
  pyunicode_to_utf8 rt mem addr w = (Ret text, w') ->
  (String.length text <= 1024)%nat
  /\ exists u, unicode_at mem addr = Some u
               /\ Z.of_nat (String.length text) = declared_length u.
Proof.
  unfold pyunicode_to_utf8, bindM. rewrite copy_type_eq.
  destruct (unicode_at mem addr) as [u|]; [|discriminate].
  destruct (negb (state_kind u =? 1)); [discriminate|].
  destruct (_ =? 0); [discriminate|].
  fold (declared_length u).
  destruct (Z.ltb_spec (declared_length u) 0); [discriminate|].
  destruct (Z.gtb_spec (declared_length u) 1024); [discriminate|].
  cbn [orb]. rewrite copy_generic_eq.
  destruct (mapM _ _) as [dest|] eqn:Hcopy; [|discriminate].
  intros [= <- _]. apply length_mapM in Hcopy. rewrite length_seq in Hcopy.
  rewrite string_length_of_bytes. split; [lia|]. exists u. split; [reflexivity | lia].
Qed.

Lemma pyunicode_to_utf8_length_witness :
  (String.length "ab" <= 1024)%nat
  /\ exists u, unicode_at Sample.memory 2000 = Some u
               /\ Z.of_nat (String.length "ab") = declared_length u.
Proof.
  apply (pyunicode_to_utf8_length Sample.py311 Sample.memory 2000 "ab"
           (initial_world 2) (one_read (one_read (initial_world 2)))).
  reflexivity.
Defined.

(** X11.  [StringTable::key] lets no other exception out than
    [StringTable::Error]: it returns the address it was given, or throws
    that. *)
Theorem key_outcomes (rt : Runtime) (mem : Memory) (s : Z) (w : World) :
  fst (StringTable.key rt mem s w) = Ret s
  \/ fst (StringTable.key rt mem s w) = Throw StringTable_Error.
Proof. apply key_outcome_cases. Qed.

(** X12.  A buffer that [pybytes_to_bytes_and_size] returns holds exactly
    [ob_size] bytes, and [ob_size] lies between 0 and 2^20: a larger byte
    object is never copied.  Two copies are counted, the struct and the
    bytes. *)
Theorem pybytes_to_bytes_and_size_buffer (rt : Runtime) (mem : Memory) (addr : Z)
    (table : list byte) (w w' : World) :
  pybytes_to_bytes_and_size rt mem addr w = (Ret (Some table), w') ->
  (exists b, bytes_at mem addr = Some b
             /\ Z.of_nat (length table) = ob_size b
             /\ 0 <= ob_size b <= 2 ^ 20)
  /\ w' = one_read (one_read w).
Proof.
  unfold pybytes_to_bytes_and_size, bindM. rewrite copy_type_eq.
  destruct (bytes_at mem addr) as [b|]; [|discriminate].
  destruct (Z.ltb_spec (ob_size b) 0); [discriminate|].
  destruct (Z.gtb_spec (ob_size b) (2 ^ 20)); [discriminate|].
  cbn [orb]. rewrite copy_generic_eq.
  destruct (mapM _ _) as [data|] eqn:Hcopy; [|discriminate].
  intros [= <- <-]. apply length_mapM in Hcopy. rewrite length_seq in Hcopy.
  split; [|reflexivity]. exists b. split; [reflexivity|]. split; lia.
Qed.

Lemma pybytes_to_bytes_and_size_buffer_witness :
  (exists b, bytes_at Sample.memory 4000 = Some b
             /\ Z.of_nat (length [x50; x04; x09]) = ob_size b
             /\ 0 <= ob_size b <= 2 ^ 20)
  /\ one_read (one_read (initial_world 2)) = one_read (one_read (initial_world 2)).
Proof.
  apply (pybytes_to_bytes_and_size_buffer Sample.py311 Sample.memory 4000
           [x50; x04; x09] (initial_world 2)).
  reflexivity.
Defined.

(** X13.  The file name interned for a program counter is 32 characters long
    whatever the pointer prints as (the text and NUL padding), and begins
    with "native@", which is what [render_where] tests for.  The call cannot
    fail. *)
Theorem key_pc_native_text (rt : Runtime) (pc : Z) (w : World) :
  string_table w !! pc = None ->
  exists w' text, StringTable.key_pc rt pc w = (Ret pc, w')
                  /\ string_table w' !! pc = Some text
                  /\ String.length text = 32%nat
                  /\ String.prefix "native@" text = true.
Proof.
  intros Hpc. unfold StringTable.key_pc, bindM.
  rewrite contains_absent by exact Hpc. rewrite emplace_eq, Hpc. unfold pure.
  do 2 eexists. split; [reflexivity|]. cbn [string_table]. rewrite lookup_insert_eq.
  split; [reflexivity|]. split; [apply snprintf32_length|].
  unfold snprintf32. lazy.
  match goal with |- _ _ ?tail = true => generalize tail end.
  intros [|c tail]; reflexivity.
Qed.

Lemma key_pc_native_text_witness :
  exists w' text, StringTable.key_pc Sample.py311 77 (initial_world 2) = (Ret 77, w')
                  /\ string_table w' !! 77 = Some text
                  /\ String.length text = 32%nat
                  /\ String.prefix "native@" text = true.
Proof. apply (key_pc_native_text Sample.py311 77 (initial_world 2)). reflexivity. Defined.

(** X14.  Native names are keyed by the start address of the procedure: once
    a cursor has been interned, every cursor of the same procedure gets the
    same key without the unwinder being asked for the name again, and the
    state stays as it is. *)
Theorem key_cursor_same_procedure (rt : Runtime) (c1 c2 : unw_cursor_t) (k : Z)
    (w w1 : World) :
  StringTable.key_cursor rt c1 w = (Ret k, w1) ->
  proc_info_start_ip c2 = proc_info_start_ip c1 ->
  proc_info_start_ip c1 = Some k
  /\ StringTable.key_cursor rt c2 w1 = (Ret k, w1).
Proof.
  intros H1 Hsame. unfold StringTable.key_cursor in *. rewrite Hsame.
  destruct (proc_info_start_ip c1) as [start|]; [|discriminate].
  unfold bindM in *. rewrite contains_eq in H1.
  destruct (string_table w !! start) as [str|] eqn:Hstart.
  - rewrite bool_decide_eq_true_2 in H1 by eauto. injection H1 as <- <-.
    split; [reflexivity|]. rewrite contains_present by (rewrite Hstart; eauto).
    reflexivity.
  - rewrite bool_decide_eq_false_2 in H1 by (apply is_Some_None).
    destruct (proc_name c1) as [sym|]; [|discriminate].
    rewrite emplace_eq, Hstart in H1. injection H1 as <- <-.
    split; [reflexivity|]. rewrite contains_present; [reflexivity|].
    cbn. rewrite lookup_insert_eq. eauto.
Qed.

Lemma key_cursor_same_procedure_witness :
  let c1 := {| reg_ip := 72; proc_info_start_ip := Some 70; proc_name := Some "main"%string |} in
  let c2 := {| reg_ip := 75; proc_info_start_ip := Some 70; proc_name := None |} in
  let w1 := snd (StringTable.key_cursor Sample.py311 c1 (initial_world 2)) in
  proc_info_start_ip c1 = Some 70
  /\ StringTable.key_cursor Sample.py311 c2 w1 = (Ret 70, w1).
Proof.
  intros c1 c2 w1.
  apply (key_cursor_same_procedure Sample.py311 c1 c2 70 (initial_world 2) w1);
    reflexivity.
Defined.

(** ** Frame keys *)

Lemma masked_code_bits (code n : Z) :
  Z.testbit (Z.shiftl (Z.land (to_uint64 code) MOJO_INT32) 16) n = true ->
  16 <= n < 48.
Proof.
  intros Hbit.
  destruct (Z.lt_ge_cases n 0) as [Hneg|Hpos]; [rewrite Z.testbit_neg_r in Hbit by lia; discriminate|].
  rewrite Z.shiftl_spec in Hbit by lia.
  destruct (Z.lt_ge_cases (n - 16) 0) as [Hlow|Hhigh];
    [rewrite Z.testbit_neg_r in Hbit by lia; discriminate|].
  rewrite Z.land_spec in Hbit. apply andb_true_iff in Hbit. destruct Hbit as [_ Hmask].
  change MOJO_INT32 with (Z.ones 32) in Hmask.
  destruct (Z.lt_ge_cases (n - 16) 32) as [?|Hbig]; [lia|].
  rewrite Z.ones_spec_high in Hmask by lia. discriminate.
Qed.

(** X15.  An offset that is negative (down to -2^16) takes the whole key:
    the key is the offset as an unsigned 64-bit number, whatever the code
    object.  All code objects whose frame has not started ([lasti] -1) share
    one key, and with it one cache entry. *)
Theorem key_negative_lasti (code lasti : Z) :
  - 2 ^ 16 <= lasti < 0 -> Frame.key code lasti = 2 ^ 64 + lasti.
Proof.
  intros Hl. unfold Frame.key.
  assert (Hwrap : to_uint64 lasti = 2 ^ 64 + lasti).
  { unfold to_uint64. symmetry. apply (Z.mod_unique _ _ (-1)); lia. }
  assert (Hlor : Z.lor (Z.shiftl (Z.land (to_uint64 code) MOJO_INT32) 16) (to_uint64 lasti)
                 = to_uint64 lasti).
  { apply Z.bits_inj'. intros n Hn. rewrite Z.lor_spec.
    destruct (Z.testbit (Z.shiftl _ 16) n) eqn:Hbit; [|reflexivity].
    apply masked_code_bits in Hbit. cbn [orb]. symmetry.
    unfold to_uint64. rewrite Z.mod_pow2_bits_low by lia.
    apply Z.bits_above_log2_neg; [lia|].
    destruct (Z.eq_dec (Z.pred (- lasti)) 0) as [->|Hne]; [cbn; lia|].
    apply Z.lt_le_trans with 16; [|lia]. apply Z.log2_lt_pow2; lia. }
  rewrite Hlor, Hwrap. unfold to_uint64. apply Z.mod_small. lia.
Qed.

Lemma key_negative_lasti_witness :
  Frame.key 1000 (-1) = 2 ^ 64 + -1 /\ Frame.key 1100 (-1) = 2 ^ 64 + -1.
Proof.
  split; [apply (key_negative_lasti 1000 (-1)) | apply (key_negative_lasti 1100 (-1))]; lia.
Defined.

Lemma key_small (code lasti : Z) :
  0 <= code < 2 ^ 32 -> 0 <= lasti < 2 ^ 16 ->
  Frame.key code lasti = code * 2 ^ 16 + lasti.
Proof.
  intros Hc Hl. unfold Frame.key.
  assert (Hcode : Z.land (to_uint64 code) MOJO_INT32 = code).
  { unfold to_uint64. rewrite Z.mod_small by lia.
    change MOJO_INT32 with (Z.ones 32). rewrite Z.land_ones by lia.
    apply Z.mod_small. lia. }
  rewrite Hcode. unfold to_uint64 at 2. rewrite (Z.mod_small lasti) by lia.
  rewrite <- Z.add_nocarry_lor.
  - rewrite Z.shiftl_mul_pow2 by lia. unfold to_uint64. apply Z.mod_small.
    change (2 ^ 64) with (2 ^ 32 * 2 ^ 32). nia.
  - apply Z.bits_inj'. intros n Hn. rewrite Z.land_spec, Z.bits_0.
    destruct (Z.lt_ge_cases n 16) as [Hlow|Hhigh].
    + rewrite Z.shiftl_spec_low by lia. reflexivity.
    + replace (Z.testbit lasti n) with false; [apply andb_false_r|].
      symmetry. destruct (Z.eq_dec lasti 0) as [->|Hne]; [apply Z.bits_0|].
      apply Z.bits_above_log2; [lia|].
      apply Z.lt_le_trans with 16; [|lia]. apply Z.log2_lt_pow2; lia.
Qed.

(** X16.  For code addresses below 2^32 and offsets from 0 up to 2^16 the
    key is the address times 2^16 plus the offset: two frames have the same
    key only if they have the same code object and the same offset. *)
Theorem key_injective (code1 lasti1 code2 lasti2 : Z) :
  0 <= code1 < 2 ^ 32 -> 0 <= lasti1 < 2 ^ 16 ->
  0 <= code2 < 2 ^ 32 -> 0 <= lasti2 < 2 ^ 16 ->
  Frame.key code1 lasti1 = code1 * 2 ^ 16 + lasti1
  /\ (Frame.key code1 lasti1 = Frame.key code2 lasti2 -> code1 = code2 /\ lasti1 = lasti2).
Proof.
  intros Hc1 Hl1 Hc2 Hl2. split; [apply key_small; assumption|].
  rewrite !key_small by assumption. lia.
Qed.

Lemma key_injective_witness :
  Frame.key 1000 2 = 1000 * 2 ^ 16 + 2
  /\ (Frame.key 1000 2 = Frame.key 1000 2 -> 1000 = 1000 /\ 2 = 2).
Proof. apply (key_injective 1000 2 1000 2); lia. Defined.

(** ** The outcomes of resolution *)

Lemma loop_310_no_throw (table : list byte) (lasti : Z) (fuel : nat) :
  forall i bc lineno e, LineTable.loop_310 fuel table lasti i bc lineno <> Throw e.
Proof.
  induction fuel as [|fuel IH]; intros i bc lineno e; cbn [LineTable.loop_310];
    destruct (negb _); try discriminate.
  destruct (table_at_cases table i) as [[b ->] | ->]; cbn [bind]; [|discriminate].
  destruct (b =? 0xff); [discriminate|].
  destruct (table_at_cases table (i + 1)) as [[b' ->] | ->]; cbn [bind]; [|discriminate].
  destruct (bc + b >? lasti); [discriminate | apply IH].
Qed.

Lemma loop_legacy_no_throw (table : list byte) (lasti : Z) (fuel : nat) :
  forall i bc lineno e, LineTable.loop_legacy fuel table lasti i bc lineno <> Throw e.
Proof.
  induction fuel as [|fuel IH]; intros i bc lineno e; cbn [LineTable.loop_legacy];
    destruct (negb _); try discriminate.
  destruct (table_at_cases table i) as [[b ->] | ->]; cbn [bind]; [|discriminate].
  destruct (bc + b >? lasti); [discriminate|].
  destruct (table_at_cases table (i + 1)) as [[b' ->] | ->]; cbn [bind]; [|discriminate].
  apply IH.
Qed.

Lemma decode_310_cases (table : list byte) (first lasti : Z) :
  (exists loc, LineTable.decode_310 table first lasti = Ret loc)
  \/ LineTable.decode_310 table first lasti = OutOfBounds.
Proof.
  pose proof (decode_310_ends table first lasti) as Hends.
  unfold LineTable.decode_310 in *.
  destruct (LineTable.loop_310 _ _ _ _ _ _) as [l|e| |] eqn:Hloop; cbn [bind] in *.
  - left. eauto.
  - exfalso. exact (loop_310_no_throw _ _ _ _ _ _ _ Hloop).
  - right. reflexivity.
  - contradiction.
Qed.

Lemma decode_legacy_cases (table : list byte) (first lasti : Z) :
  (exists loc, LineTable.decode_legacy table first lasti = Ret loc)
  \/ LineTable.decode_legacy table first lasti = OutOfBounds.
Proof.
  pose proof (decode_legacy_ends table first lasti) as Hends.
  unfold LineTable.decode_legacy in *.
  destruct (LineTable.loop_legacy _ _ _ _ _ _) as [l|e| |] eqn:Hloop; cbn [bind] in *.
  - left. eauto.
  - exfalso. exact (loop_legacy_no_throw _ _ _ _ _ _ _ Hloop).
  - right. reflexivity.
  - contradiction.
Qed.

Lemma pybytes_to_bytes_and_size_returns (rt : Runtime) (mem : Memory) (addr : Z)
    (w : World) :
  exists r, fst (pybytes_to_bytes_and_size rt mem addr w) = Ret r.
Proof.
  unfold pybytes_to_bytes_and_size, bindM. rewrite copy_type_eq.
  destruct (bytes_at mem addr) as [b|]; [|eexists; reflexivity].
  destruct ((ob_size b <? 0) || (ob_size b >? 2 ^ 20)); eexists; reflexivity.
Qed.

Lemma infer_location_outcomes (rt : Runtime) (mem : Memory) (code : PyCodeObject)
    (lasti : Z) (w : World) :
  (exists loc, fst (Frame.infer_location rt mem code lasti w) = Ret loc)
  \/ frame_fault rt (fst (Frame.infer_location rt mem code lasti w)).
Proof.
  unfold Frame.infer_location.
  destruct (Z.geb_spec (PY_VERSION_HEX rt) 0x030b0000) as [Hv|Hv];
    [|destruct (Z.geb_spec (PY_VERSION_HEX rt) 0x030a0000) as [Hv'|Hv']];
    unfold bindM;
    match goal with
    | |- context [pybytes_to_bytes_and_size rt mem ?a w] =>
        destruct (pybytes_to_bytes_and_size_returns rt mem a w) as [r Hr];
        destruct (pybytes_to_bytes_and_size rt mem a w) as [o w1]; cbn in Hr; subst o
    end;
    (destruct r as [table|]; [|right; constructor; reflexivity]); unfold lift; cbn [fst].
  - destruct (decode_311_inside table (co_firstlineno code) lasti) as [[loc ->] | ->];
      [left; eauto | right; constructor; reflexivity].
  - destruct (decode_310_cases table (co_firstlineno code) lasti) as [[loc ->] | ->];
      [left; eauto | right; constructor; lia].
  - destruct (decode_legacy_cases table (co_firstlineno code) lasti) as [[loc ->] | ->];
      [left; eauto | right; constructor; lia].
Qed.

(** Interning the two strings of a frame returns both keys or throws
    [Frame::Error]. *)
Lemma of_code_strings_outcomes (rt : Runtime) (mem : Memory) (a b : Z) (w : World) :
  let strings :=
    try_catch
      (let* filename := StringTable.key rt mem a in
       let* name := StringTable.key rt mem b in
       pure (filename, name))
      is_StringTable_Error (throw Frame_Error) in
  fst (strings w) = Ret (a, b) \/ fst (strings w) = Throw Frame_Error.
Proof.
  cbn zeta. unfold try_catch, bindM.
  destruct (key_outcome_cases rt mem a w) as [Ha|Ha];
    destruct (StringTable.key rt mem a w) as [oa wa]; cbn in Ha; subst oa;
    [|right; reflexivity].
  destruct (key_outcome_cases rt mem b wa) as [Hb|Hb];
    destruct (StringTable.key rt mem b wa) as [ob wb]; cbn in Hb; subst ob;
    [left | right]; reflexivity.
Qed.

Lemma of_code_outcomes (rt : Runtime) (mem : Memory) (code : PyCodeObject) (lasti : Z)
    (w : World) :
  (exists f, fst (Frame.of_code rt mem code lasti w) = Ret f)
  \/ frame_fault rt (fst (Frame.of_code rt mem code lasti w)).
Proof.
  unfold Frame.of_code.
  pose proof (of_code_strings_outcomes rt mem (co_filename code)
                (if PY_VERSION_HEX rt >=? 0x030b0000 then co_qualname code
                 else co_name code) w) as Hs.
  cbn zeta in Hs. set (strings := try_catch _ _ _) in *.
  unfold bindM at 1 3. destruct (strings w) as [os ws].
  cbn [fst] in Hs. destruct Hs as [-> | ->]; [|right; constructor; reflexivity].
  unfold bindM.
  destruct (infer_location_outcomes rt mem code lasti ws) as [[loc Hloc] | Hfault];
    destruct (Frame.infer_location rt mem code lasti ws) as [ol wl]; cbn [fst] in *.
  - subst ol. left. eexists. reflexivity.
  - right. destruct Hfault; cbn; constructor; assumption.
Qed.

Lemma get_outcome_cases (rt : Runtime) (mem : Memory) (code_addr lasti : Z)
    (w w' : World) (o : outcome Frame.Ref) :
  Frame.get rt mem code_addr lasti w = (o, w') ->
  o = Ret Frame.INVALID_FRAME
  \/ o = Ret (Frame.Cached (Frame.key code_addr lasti))
  \/ (PY_VERSION_HEX rt < 0x030b0000 /\ o = OutOfBounds).
Proof.
  intros H. unfold Frame.get, bindM at 1 in H. rewrite copy_type_eq in H.
  destruct (code_at mem code_addr) as [code|]; [|injection H as <- _; auto].
  set (k := Frame.key code_addr lasti) in *.
  destruct (LRUCache.find k (frame_cache (one_read w))) as [f|] eqn:Hfind.
  - unfold try_catch at 1 in H. rewrite (cache_lookup_hit k f) in H by exact Hfind.
    injection H as <- _. auto.
  - unfold try_catch at 1 in H. rewrite cache_lookup_miss in H by exact Hfind.
    cbn [is_Cache_LookupError] in H. unfold try_catch, bindM in H.
    destruct (of_code_outcomes rt mem code lasti (one_read w)) as [[f Hf] | Hfault];
      destruct (Frame.of_code rt mem code lasti (one_read w)) as [o1 w1]; cbn [fst] in *.
    + subst o1. rewrite declare_and_store_eq in H. injection H as <- _. auto.
    + destruct Hfault as [e He | Hv].
      * rewrite He in H. injection H as <- _. auto.
      * injection H as <- _. auto.
Qed.

(** X17.  [Frame::get(code_addr, lasti)] never throws: it returns
    [INVALID_FRAME] or the reference to the frame cached under the key of its
    arguments.  The one way it can fail to return is the read past a
    line-number table of odd length, in front of 3.11. *)
Theorem get_never_throws (rt : Runtime) (mem : Memory) (code_addr lasti : Z) (w : World) :
  fst (Frame.get rt mem code_addr lasti w) = Ret Frame.INVALID_FRAME
  \/ fst (Frame.get rt mem code_addr lasti w) = Ret (Frame.Cached (Frame.key code_addr lasti))
  \/ (PY_VERSION_HEX rt < 0x030b0000
      /\ fst (Frame.get rt mem code_addr lasti w) = OutOfBounds).
Proof.
  destruct (Frame.get rt mem code_addr lasti w) as [o w'] eqn:H.
  exact (get_outcome_cases rt mem code_addr lasti w w' o H).
Qed.

Lemma get_invalid_keeps (rt : Runtime) (mem : Memory) (code_addr lasti : Z)
    (w w' : World) :
  Frame.get rt mem code_addr lasti w = (Ret Frame.INVALID_FRAME, w') ->
  frame_cache w' = frame_cache w /\ output w' = output w.
Proof.
  intros H. apply get_cases in H.
  destruct H as [(_ & _ & ->) | [(f & _ & [=] & _)
                | [(code & f & w1 & _ & _ & _ & [=] & _) | (_ & _ & Hout & Hcache)]]];
    auto.
Qed.

(** X18.  When [Frame::get(code_addr, lasti)] gives [INVALID_FRAME] it has
    stored no frame and written no record: the sentinel is handed out
    without the cache or the trace being touched. *)
Theorem get_invalid_untouched (rt : Runtime) (mem : Memory) (code_addr lasti : Z)
    (w w' : World) :
  Frame.get rt mem code_addr lasti w = (Ret Frame.INVALID_FRAME, w') ->
  frame_cache w' = frame_cache w /\ output w' = output w.
Proof. apply get_invalid_keeps. Qed.

Lemma get_invalid_untouched_witness :
  let w := initial_world 2 in
  let w' := snd (Frame.get Sample.py311 Sample.memory 9999 0 w) in
  frame_cache w' = frame_cache w /\ output w' = output w.
Proof.
  intros w w'.
  apply (get_invalid_untouched Sample.py311 Sample.memory 9999 0 w w').
  vm_compute. reflexivity.
Defined.

Lemma bindM_cases {A B : Type} (m : M A) (k : A -> M B) (w w' : World) (o : outcome B) :
  bindM m k w = (o, w') ->
  (exists a w1, m w = (Ret a, w1) /\ k a w1 = (o, w'))
  \/ (exists e, m w = (Throw e, w') /\ o = Throw e)
  \/ (m w = (OutOfBounds, w') /\ o = OutOfBounds)
  \/ (m w = (OutOfFuel, w') /\ o = OutOfFuel).
Proof.
  unfold bindM. destruct (m w) as [[a|e| |] w1]; intros H.
  - left. eauto.
  - injection H as <- <-. right. left. eauto.
  - injection H as <- <-. right. right. left. auto.
  - injection H as <- <-. right. right. right. auto.
Qed.




(** ** What every state of the resolver satisfies *)

Lemma find_In (k : Z) (f : Frame) (c : LRUCache.t) :
  LRUCache.find k c = Some f -> In (k, f) (LRUCache.items c).
Proof.
  unfold LRUCache.find. destruct (List.find _ _) as [[k' f']|] eqn:Hfind; [|discriminate].
  intros [= <-]. apply find_some in Hfind. destruct Hfind as [Hin Hk].
  apply bool_decide_eq_true in Hk. cbn in Hk. subst k'. exact Hin.
Qed.

Lemma In_remove (k : Z) (x : Z * Frame) (l : list (Z * Frame)) :
  In x (LRUCache.remove k l) -> In x l.
Proof. unfold LRUCache.remove. intros H. apply filter_In in H. tauto. Qed.

Lemma In_removelast {A : Type} (x : A) (l : list A) : In x (removelast l) -> In x l.
Proof.
  induction l as [|a l IH]; [auto|]. cbn [removelast].
  destruct l as [|b l]; [intros []|]. intros [-> | H]; [left; reflexivity|].
  right. apply IH. exact H.
Qed.

Lemma In_store (k : Z) (f : Frame) (c : LRUCache.t) (x : Z * Frame) :
  In x (LRUCache.items (LRUCache.store k f c)) -> x = (k, f) \/ In x (LRUCache.items c).
Proof.
  unfold LRUCache.store. cbn. intros [<- | H]; [auto|]. right.
  destruct (_ <=? _)%nat; [apply In_removelast|]; exact H.
Qed.

Lemma In_update (k : Z) (g : Frame -> Frame) (c : LRUCache.t) (x : Z * Frame) :
  In x (LRUCache.items (LRUCache.update k g c)) ->
  exists f, In (fst x, f) (LRUCache.items c) /\ (snd x = f \/ snd x = g f).
Proof.
  unfold LRUCache.update. cbn. intros H. apply in_map_iff in H.
  destruct H as ([k' f'] & Hx & Hin). exists f'. cbn in Hx.
  destruct (bool_decide (k' = k)); subst x; cbn; auto.
Qed.

Lemma invariant_init (capacity : nat) : resolver_invariant (initial_world capacity).
Proof.
  split; [intros k f [] | split; [intros k f [] | intros k Hk; exact Hk]].
Qed.

Lemma invariant_extends (w w' : World) :
  extends w w' -> resolver_invariant w -> resolver_invariant w'.
Proof.
  intros (Hkeys & Hcache & _) (Hagree & Hres & Hsent).
  unfold resolver_invariant, keys_agree, frames_resolvable, sentinels_interned.
  rewrite Hcache. repeat split.
  - exact Hagree.
  - apply Hkeys. exact (proj1 (Hres k f H)).
  - apply Hkeys. exact (proj2 (Hres k f H)).
  - intros k Hk. apply Hkeys, Hsent, Hk.
Qed.

Lemma invariant_cache_lookup (k : Z) (w w' : World) (o : outcome Frame.Ref) :
  Frame.cache_lookup k w = (o, w') -> resolver_invariant w -> resolver_invariant w'.
Proof.
  intros H (Hagree & Hres & Hsent).
  destruct (LRUCache.find k (frame_cache w)) as [f|] eqn:Hfind.
  - rewrite (cache_lookup_hit k f) in H by exact Hfind. injection H as _ <-.
    apply find_In in Hfind.
    repeat split; cbn.
    + intros k' f' [[= <- <-] | Hin]; [exact (Hagree _ _ Hfind)|].
      exact (Hagree _ _ (In_remove _ _ _ Hin)).
    + destruct H as [[= <- <-] | Hin]; [exact (proj1 (Hres _ _ Hfind))|].
      exact (proj1 (Hres _ _ (In_remove _ _ _ Hin))).
    + destruct H as [[= <- <-] | Hin]; [exact (proj2 (Hres _ _ Hfind))|].
      exact (proj2 (Hres _ _ (In_remove _ _ _ Hin))).
    + exact Hsent.
  - rewrite cache_lookup_miss in H by exact Hfind. injection H as _ <-.
    repeat split; auto; apply (Hres _ _ H).
Qed.

Lemma invariant_declare_and_store (k : Z) (f : Frame) (w w' : World)
    (o : outcome Frame.Ref) :
  Frame.declare_and_store k f w = (o, w') ->
  is_Some (string_table w !! filename f) -> is_Some (string_table w !! name f) ->
  resolver_invariant w -> resolver_invariant w'.
Proof.
  rewrite declare_and_store_eq. intros [= _ <-] Hfile Hname (Hagree & Hres & Hsent).
  repeat split; cbn.
  - intros k' f' Hin. apply In_store in Hin.
    destruct Hin as [[= -> ->] | Hin]; [reflexivity | exact (Hagree _ _ Hin)].
  - apply In_store in H.
    destruct H as [[= -> ->] | Hin]; [exact Hfile | exact (proj1 (Hres _ _ Hin))].
  - apply In_store in H.
    destruct H as [[= -> ->] | Hin]; [exact Hname | exact (proj2 (Hres _ _ Hin))].
  - exact Hsent.
Qed.

Lemma invariant_assign_is_entry (r : Frame.Ref) (b : bool) (w w' : World)
    (o : outcome unit) :
  Frame.assign_is_entry r b w = (o, w') -> resolver_invariant w -> resolver_invariant w'.
Proof.
  destruct r as [| |k]; cbn; intros [= _ <-]; auto.
  intros (Hagree & Hres & Hsent). repeat split; cbn.
  - intros k' f' Hin. apply In_update in Hin. cbn in Hin.
    destruct Hin as (f & Hin & [-> | ->]); exact (Hagree _ _ Hin).
  - apply In_update in H. cbn in H.
    destruct H as (f' & Hin & [-> | ->]); exact (proj1 (Hres _ _ Hin)).
  - apply In_update in H. cbn in H.
    destruct H as (f' & Hin & [-> | ->]); exact (proj2 (Hres _ _ Hin)).
  - exact Hsent.
Qed.

(** The body shared by the entry points: look the key up; on a miss build
    the frame, announce and store it. *)
Lemma invariant_build (build : M Frame) (k : Z) (w w' : World) (o : outcome Frame.Ref) :
  preserves extends build ->
  (forall w0 f w1, resolver_invariant w0 -> build w0 = (Ret f, w1) ->
     is_Some (string_table w1 !! filename f) /\ is_Some (string_table w1 !! name f)) ->
  (let* f := build in Frame.declare_and_store k f) w = (o, w') ->
  resolver_invariant w -> resolver_invariant w'.
Proof.
  intros Hext Hint H Hinv. apply bindM_inv in H.
  destruct H as [(f & w1 & Hb & Hd) | [Hw _]].
  - destruct (Hint _ _ _ Hinv Hb) as [Hfile Hname].
    apply (invariant_declare_and_store _ _ _ _ _ Hd Hfile Hname).
    exact (invariant_extends _ _ (Hext _ _ _ Hb) Hinv).
  - destruct (build w) as [o1 w1] eqn:Hb. cbn in Hw. subst w1.
    exact (invariant_extends _ _ (Hext _ _ _ Hb) Hinv).
Qed.

Lemma invariant_resolve (build : M Frame) (k : Z) (sentinel : Frame.Ref)
    (w w' : World) (o : outcome Frame.Ref) :
  preserves extends build ->
  (forall w0 f w1, resolver_invariant w0 -> build w0 = (Ret f, w1) ->
     is_Some (string_table w1 !! filename f) /\ is_Some (string_table w1 !! name f)) ->
  try_catch (Frame.cache_lookup k) is_Cache_LookupError
    (try_catch (let* f := build in Frame.declare_and_store k f) is_Frame_Error
       (pure sentinel)) w = (o, w') ->
  resolver_invariant w -> resolver_invariant w'.
Proof.
  intros Hext Hint H Hinv. apply try_catch_inv in H.
  destruct H as [H | (e & w1 & Hl & _ & H)].
  - exact (invariant_cache_lookup _ _ _ _ H Hinv).
  - apply (invariant_cache_lookup _ _ _ _ Hl) in Hinv.
    apply try_catch_inv in H. destruct H as [H | (e' & w2 & H & _ & [= _ <-])];
      exact (invariant_build _ _ _ _ _ Hext Hint H Hinv).
Qed.

Lemma key_pc_extends (rt : Runtime) (pc : Z) : preserves extends (StringTable.key_pc rt pc).
Proof.
  intros w o w' H. destruct (key_pc_eq rt pc w) as (w1 & Heq & Hpc & Hother & Hc & Ho).
  rewrite Heq in H. injection H as _ <-. repeat split; auto.
  intros k Hk. destruct (decide (k = pc)) as [-> | Hne]; [exact Hpc|].
  rewrite Hother by exact Hne. exact Hk.
Qed.

Lemma key_cursor_extends (rt : Runtime) (cursor : unw_cursor_t) (w w' : World)
    (o : outcome Z) :
  StringTable.key_cursor rt cursor w = (o, w') ->
  extends w w' /\ (forall k, o = Ret k -> is_Some (string_table w' !! k)).
Proof.
  unfold StringTable.key_cursor.
  destruct (proc_info_start_ip cursor) as [k|].
  2: { intros [= <- <-]. split; [apply extends_refl | discriminate]. }
  unfold bindM at 1. rewrite contains_eq.
  destruct (string_table w !! k) as [str|] eqn:Hk.
  - rewrite bool_decide_eq_true_2 by eauto. intros [= <- <-].
    split; [apply extends_refl|]. intros k' [= <-]. rewrite Hk. eauto.
  - rewrite bool_decide_eq_false_2 by (apply is_Some_None).
    destruct (proc_name cursor) as [sym|].
    2: { intros [= <- <-]. split; [apply extends_refl | discriminate]. }
    unfold bindM, emplace, pure. rewrite Hk. intros [= <- <-]. cbn. split.
    + repeat split; auto. intros k' Hk'. cbn.
      destruct (decide (k' = k)) as [-> | Hne].
      * rewrite lookup_insert_eq. eauto.
      * rewrite lookup_insert_ne by congruence. exact Hk'.
    + intros k' [= <-]. cbn. rewrite lookup_insert_eq. eauto.
Qed.

Lemma of_cursor_cases (rt : Runtime) (cursor : unw_cursor_t) (pc : Z) (w w' : World)
    (o : outcome Frame) :
  Frame.of_cursor rt cursor pc w = (o, w') ->
  extends w w'
  /\ ((exists k, o = Ret (mkFrame 0 pc k (mkLocation 0 0 0 0) false)
                 /\ proc_info_start_ip cursor = Some k
                 /\ is_Some (string_table w' !! pc)
                 /\ is_Some (string_table w' !! k))
      \/ o = Throw Frame_Error).
Proof.
  unfold Frame.of_cursor, try_catch, bindM at 1.
  destruct (key_pc_eq rt pc w) as (w1 & Heq & Hpc & Hother & Hc & Ho).
  pose proof (key_pc_extends rt pc _ _ _ Heq) as Hext1.
  rewrite Heq. unfold bindM.
  destruct (StringTable.key_cursor rt cursor w1) as [o2 w2] eqn:Hcur.
  destruct (key_cursor_extends _ _ _ _ _ Hcur) as [Hext2 Hint].
  pose proof (extends_trans _ _ _ Hext1 Hext2) as Hext.
  assert (Hshape : (exists k, o2 = Ret k /\ proc_info_start_ip cursor = Some k)
                   \/ o2 = Throw StringTable_Error).
  { revert Hcur. unfold StringTable.key_cursor.
    destruct (proc_info_start_ip cursor) as [k|]; [|intros [= <- _]; auto].
    unfold bindM at 1. rewrite contains_eq.
    destruct (bool_decide _); [intros [= <- _]; eauto|].
    destruct (proc_name cursor); [|intros [= <- _]; auto].
    unfold bindM, emplace, pure. intros [= <- _]. eauto. }
  destruct Hshape as [(k & -> & Hip) | ->].
  - unfold pure. intros [= <- <-]. split; [exact Hext|]. left. exists k.
    repeat split; auto. apply Hext2. exact Hpc.
  - cbn. intros [= <- <-]. split; [exact Hext|]. auto.
Qed.

Lemma invariant_get (rt : Runtime) (mem : Memory) (code_addr lasti : Z) (w w' : World)
    (o : outcome Frame.Ref) :
  Frame.get rt mem code_addr lasti w = (o, w') ->
  resolver_invariant w -> resolver_invariant w'.
Proof.
  unfold Frame.get, bindM at 1. rewrite copy_type_eq. intros H Hinv.
  assert (Hinv1 : resolver_invariant (one_read w)) by exact Hinv.
  destruct (code_at mem code_addr) as [code|]; [|injection H as _ <-; exact Hinv1].
  refine (invariant_resolve _ _ _ _ _ _ _ _ H Hinv1).
  - apply of_code_extends.
  - intros w0 f w1 _. apply of_code_interned.
Qed.

Lemma invariant_get_cursor (rt : Runtime) (cursor : unw_cursor_t) (w w' : World)
    (o : outcome Frame.Ref) :
  Frame.get_cursor rt cursor w = (o, w') ->
  resolver_invariant w -> resolver_invariant w'.
Proof.
  unfold Frame.get_cursor. destruct (reg_ip cursor =? 0); [intros [= _ <-]; auto|].
  intros H Hinv. refine (invariant_resolve _ _ _ _ _ _ _ _ H Hinv).
  - intros w0 o0 w1 H0. exact (proj1 (of_cursor_cases _ _ _ _ _ _ H0)).
  - intros w0 f w1 _ H0.
    destruct (of_cursor_cases _ _ _ _ _ _ H0) as [_ [(k & [= ->] & _ & Hpc & Hk) | [=]]].
    auto.
Qed.

Lemma invariant_get_name (name : Z) (w w' : World) (o : outcome Frame.Ref) :
  Frame.get_name name w = (o, w') ->
  is_Some (string_table w !! name) ->
  resolver_invariant w -> resolver_invariant w'.
Proof.
  unfold Frame.get_name. intros H Hname Hinv. apply try_catch_inv in H.
  destruct H as [H | (e & w1 & Hl & _ & H)].
  - exact (invariant_cache_lookup _ _ _ _ H Hinv).
  - assert (Hst : string_table w1 = string_table w).
    { destruct (LRUCache.find name (frame_cache w)) as [f|] eqn:Hfind.
      - rewrite (cache_lookup_hit name f) in Hl by exact Hfind. discriminate.
      - rewrite cache_lookup_miss in Hl by exact Hfind. congruence. }
    apply (invariant_cache_lookup _ _ _ _ Hl) in Hinv.
    refine (invariant_declare_and_store _ _ _ _ _ H _ _ Hinv); cbn; rewrite Hst.
    + destruct Hinv as (_ & _ & Hsent). rewrite <- Hst. apply Hsent. cbn. eauto.
    + exact Hname.
Qed.

Lemma invariant_read (fuel : nat) (rt : Runtime) (mem : Memory) (frame_addr : Z)
    (w w' : World) (o : outcome (Frame.Ref * Z)) :
  Frame.read fuel rt mem frame_addr w = (o, w') ->
  resolver_invariant w -> resolver_invariant w'.
Proof.
  set (R := fun w w' : World => resolver_invariant w -> resolver_invariant w').
  assert (Hrefl : forall w, R w w) by (intros ? ?; assumption).
  assert (Htrans : forall w1 w2 w3, R w1 w2 -> R w2 w3 -> R w1 w3)
    by (unfold R; intros; auto).
  assert (Hreads : forall (A : Type) (m : M A), preserves only_reads m -> preserves R m).
  { intros A m Hm w0 o0 w1 H0. unfold R. apply invariant_extends, only_reads_extends.
    exact (Hm _ _ _ H0). }
  assert (Hcopy : forall (T : Type) (view : Z -> option T) (addr : Z),
            preserves R (copy_type view addr)).
  { intros T view addr w0 o0 w1. rewrite copy_type_eq. intros [= _ <-] H0. exact H0. }
  assert (Hget : forall code_addr lasti, preserves R (Frame.get rt mem code_addr lasti)).
  { intros code_addr lasti w0 o0 w1 H0. exact (invariant_get _ _ _ _ _ _ _ H0). }
  assert (Hassign : forall r b, preserves R (Frame.assign_is_entry r b)).
  { intros r b w0 o0 w1 H0. exact (invariant_assign_is_entry _ _ _ _ _ H0). }
  enough (Hall : preserves R (Frame.read fuel rt mem frame_addr))
    by (intros H; exact (Hall _ _ _ H)).
  unfold Frame.read.
  destruct (PY_VERSION_HEX rt >=? 0x030b0000).
  - apply preserves_bind; auto.
    + destruct (PY_VERSION_HEX rt >=? 0x030d0000); [|apply preserves_pure; auto].
      apply preserves_bind; auto.
      * apply Hreads, skip_non_code_only_reads.
      * intros a. destruct (a =? 0); [apply preserves_throw | apply preserves_pure]; auto.
    + intros a. apply preserves_bind; auto.
      intros [iframe|]; [|apply preserves_throw; auto].
      apply preserves_bind; auto.
      intros [| |k]; try (apply preserves_pure; auto);
        (apply preserves_bind; auto; intros _; apply preserves_pure; auto).
  - apply preserves_bind; auto.
    intros [py_frame|]; [|apply preserves_throw; auto].
    apply preserves_bind; auto.
    intros [| |k]; apply preserves_pure; auto.
Qed.

Lemma reachable_invariant (w : World) : reachable w -> resolver_invariant w.
Proof.
  induction 1 as [capacity | rt mem code_addr lasti w _ IH | rt cursor w _ IH
                 | name w _ IH Hname | fuel rt mem frame_addr w _ IH].
  - apply invariant_init.
  - destruct (Frame.get rt mem code_addr lasti w) as [o w'] eqn:H.
    exact (invariant_get _ _ _ _ _ _ _ H IH).
  - destruct (Frame.get_cursor rt cursor w) as [o w'] eqn:H.
    exact (invariant_get_cursor _ _ _ _ _ H IH).
  - destruct (Frame.get_name name w) as [o w'] eqn:H.
    exact (invariant_get_name _ _ _ _ H Hname IH).
  - destruct (Frame.read fuel rt mem frame_addr w) as [o w'] eqn:H.
    exact (invariant_read _ _ _ _ _ _ _ H IH).
Qed.

(** *** Cache keys, whatever is asked for *)

Lemma keys_same_cache (w w' : World) :
  frame_cache w' = frame_cache w -> keys_agree w -> keys_agree w'.
Proof. unfold keys_agree. intros ->. auto. Qed.

Lemma keys_cache_lookup (k : Z) (w w' : World) (o : outcome Frame.Ref) :
  Frame.cache_lookup k w = (o, w') -> keys_agree w -> keys_agree w'.
Proof.
  intros H Hagree.
  destruct (LRUCache.find k (frame_cache w)) as [f|] eqn:Hfind.
  - rewrite (cache_lookup_hit k f) in H by exact Hfind. injection H as _ <-.
    apply find_In in Hfind.
    intros k' f' [[= <- <-] | Hin]; [exact (Hagree _ _ Hfind)|].
    exact (Hagree _ _ (In_remove _ _ _ Hin)).
  - rewrite cache_lookup_miss in H by exact Hfind. injection H as _ <-. exact Hagree.
Qed.

Lemma keys_declare_and_store (k : Z) (f : Frame) (w w' : World) (o : outcome Frame.Ref) :
  Frame.declare_and_store k f w = (o, w') -> keys_agree w -> keys_agree w'.
Proof.
  rewrite declare_and_store_eq. intros [= _ <-] Hagree k' f' Hin.
  apply In_store in Hin.
  destruct Hin as [[= -> ->] | Hin]; [reflexivity | exact (Hagree _ _ Hin)].
Qed.

Lemma keys_assign_is_entry (r : Frame.Ref) (b : bool) (w w' : World) (o : outcome unit) :
  Frame.assign_is_entry r b w = (o, w') -> keys_agree w -> keys_agree w'.
Proof.
  destruct r as [| |k]; cbn; intros [= _ <-]; auto.
  intros Hagree k' f' Hin. apply In_update in Hin. cbn in Hin.
  destruct Hin as (f & Hin & [-> | ->]); exact (Hagree _ _ Hin).
Qed.

Lemma keys_resolve (build : M Frame) (k : Z) (handler : M Frame.Ref)
    (w w' : World) (o : outcome Frame.Ref) :
  preserves extends build ->
  preserves only_reads handler ->
  try_catch (Frame.cache_lookup k) is_Cache_LookupError
    (try_catch (let* f := build in Frame.declare_and_store k f) is_Frame_Error
       handler) w = (o, w') ->
  keys_agree w -> keys_agree w'.
Proof.
  intros Hext Hhandler H Hagree. apply try_catch_inv in H.
  assert (Hbuild : forall w0 o0 w1,
            (let* f := build in Frame.declare_and_store k f) w0 = (o0, w1) ->
            keys_agree w0 -> keys_agree w1).
  { intros w0 o0 w1 H0 Hk. apply bindM_inv in H0.
    destruct H0 as [(f & w2 & Hb & Hd) | [Hw _]].
    - apply (keys_declare_and_store _ _ _ _ _ Hd).
      destruct (Hext _ _ _ Hb) as (_ & Hc & _). exact (keys_same_cache _ _ Hc Hk).
    - destruct (build w0) as [o2 w2] eqn:Hb. cbn in Hw. subst w2.
      destruct (Hext _ _ _ Hb) as (_ & Hc & _). exact (keys_same_cache _ _ Hc Hk). }
  destruct H as [H | (e & w1 & Hl & _ & H)].
  - exact (keys_cache_lookup _ _ _ _ H Hagree).
  - apply (keys_cache_lookup _ _ _ _ Hl) in Hagree.
    apply try_catch_inv in H. destruct H as [H | (e' & w2 & H & _ & Hh)].
    + exact (Hbuild _ _ _ H Hagree).
    + destruct (Hhandler _ _ _ Hh) as (_ & Hc & _).
      exact (keys_same_cache _ _ Hc (Hbuild _ _ _ H Hagree)).
Qed.

Lemma keys_get (rt : Runtime) (mem : Memory) (code_addr lasti : Z) (w w' : World)
    (o : outcome Frame.Ref) :
  Frame.get rt mem code_addr lasti w = (o, w') -> keys_agree w -> keys_agree w'.
Proof.
  unfold Frame.get, bindM at 1. rewrite copy_type_eq. intros H Hagree.
  assert (Hagree1 : keys_agree (one_read w)) by exact Hagree.
  destruct (code_at mem code_addr) as [code|]; [|injection H as _ <-; exact Hagree1].
  refine (keys_resolve _ _ _ _ _ _ _ _ H Hagree1).
  - apply of_code_extends.
  - apply preserves_pure, only_reads_refl.
Qed.

Lemma keys_get_cursor (rt : Runtime) (cursor : unw_cursor_t) (w w' : World)
    (o : outcome Frame.Ref) :
  Frame.get_cursor rt cursor w = (o, w') -> keys_agree w -> keys_agree w'.
Proof.
  unfold Frame.get_cursor. destruct (reg_ip cursor =? 0); [intros [= _ <-]; auto|].
  intros H Hagree. refine (keys_resolve _ _ _ _ _ _ _ _ H Hagree).
  - intros w0 o0 w1 H0. exact (proj1 (of_cursor_cases _ _ _ _ _ _ H0)).
  - apply preserves_pure, only_reads_refl.
Qed.

Lemma keys_get_name (name : Z) (w w' : World) (o : outcome Frame.Ref) :
  Frame.get_name name w = (o, w') -> keys_agree w -> keys_agree w'.
Proof.
  unfold Frame.get_name. intros H Hagree. apply try_catch_inv in H.
  destruct H as [H | (e & w1 & Hl & _ & H)].
  - exact (keys_cache_lookup _ _ _ _ H Hagree).
  - apply (keys_cache_lookup _ _ _ _ Hl) in Hagree.
    exact (keys_declare_and_store _ _ _ _ _ H Hagree).
Qed.

Lemma keys_read (fuel : nat) (rt : Runtime) (mem : Memory) (frame_addr : Z)
    (w w' : World) (o : outcome (Frame.Ref * Z)) :
  Frame.read fuel rt mem frame_addr w = (o, w') -> keys_agree w -> keys_agree w'.
Proof.
  set (R := fun w w' : World => keys_agree w -> keys_agree w').
  assert (Hrefl : forall w, R w w) by (intros ? ?; assumption).
  assert (Htrans : forall w1 w2 w3, R w1 w2 -> R w2 w3 -> R w1 w3)
    by (unfold R; intros; auto).
  assert (Hreads : forall (A : Type) (m : M A), preserves only_reads m -> preserves R m).
  { intros A m Hm w0 o0 w1 H0. unfold R. apply keys_same_cache.
    exact (proj1 (proj2 (Hm _ _ _ H0))). }
  assert (Hcopy : forall (T : Type) (view : Z -> option T) (addr : Z),
            preserves R (copy_type view addr)).
  { intros T view addr w0 o0 w1. rewrite copy_type_eq. intros [= _ <-] H0. exact H0. }
  assert (Hget : forall code_addr lasti, preserves R (Frame.get rt mem code_addr lasti)).
  { intros code_addr lasti w0 o0 w1 H0. exact (keys_get _ _ _ _ _ _ _ H0). }
  assert (Hassign : forall r b, preserves R (Frame.assign_is_entry r b)).
  { intros r b w0 o0 w1 H0. exact (keys_assign_is_entry _ _ _ _ _ H0). }
  enough (Hall : preserves R (Frame.read fuel rt mem frame_addr))
    by (intros H; exact (Hall _ _ _ H)).
  unfold Frame.read.
  destruct (PY_VERSION_HEX rt >=? 0x030b0000).
  - apply preserves_bind; auto.
    + destruct (PY_VERSION_HEX rt >=? 0x030d0000); [|apply preserves_pure; auto].
      apply preserves_bind; auto.
      * apply Hreads, skip_non_code_only_reads.
      * intros a. destruct (a =? 0); [apply preserves_throw | apply preserves_pure]; auto.
    + intros a. apply preserves_bind; auto.
      intros [iframe|]; [|apply preserves_throw; auto].
      apply preserves_bind; auto.
      intros [| |k]; try (apply preserves_pure; auto);
        (apply preserves_bind; auto; intros _; apply preserves_pure; auto).
  - apply preserves_bind; auto.
    intros [py_frame|]; [|apply preserves_throw; auto].
    apply preserves_bind; auto.
    intros [| |k]; apply preserves_pure; auto.
Qed.

Lemma resolver_state_keys (w : World) : resolver_state w -> keys_agree w.
Proof.
  induction 1 as [capacity | rt mem code_addr lasti w _ IH | rt cursor w _ IH
                 | name w _ IH | fuel rt mem frame_addr w _ IH].
  - intros k f [].
  - destruct (Frame.get rt mem code_addr lasti w) as [o w'] eqn:H.
    exact (keys_get _ _ _ _ _ _ _ H IH).
  - destruct (Frame.get_cursor rt cursor w) as [o w'] eqn:H.
    exact (keys_get_cursor _ _ _ _ _ H IH).
  - destruct (Frame.get_name name w) as [o w'] eqn:H.
    exact (keys_get_name _ _ _ _ H IH).
  - destruct (Frame.read fuel rt mem frame_addr w) as [o w'] eqn:H.
    exact (keys_read _ _ _ _ _ _ _ H IH).
Qed.

(** X20.  In every state the resolver can get into from the initial one
    through [Frame::get] (by code object, by cursor, by name: any name) and
    [Frame::read], whatever their arguments and however the calls end, the
    frame the cache holds under a key carries that key in its [cache_key]
    field: the overloads set the field before they store, and nothing
    assigns it afterwards. *)
Theorem cached_frame_key (w : World) (k : Z) (f : Frame) :
  resolver_state w -> Frame.deref w (Frame.Cached k) = Some f -> cache_key f = k.
Proof.
  intros Hw Hf. apply (resolver_state_keys w Hw k f), find_In. exact Hf.
Qed.

Lemma cached_frame_key_witness :
  cache_key (Frame.set_cache_key 77 (Frame.of_name 77)) = 77.
Proof.
  apply (cached_frame_key (snd (Frame.get_name 77 (initial_world 2)))).
  - apply state_get_name, state_init.
  - vm_compute; reflexivity.
Defined.

Lemma string_app_assoc (a b c : string) : (a +:+ b) +:+ c = a +:+ (b +:+ c).
Proof.
  induction a as [|x a IH]; [reflexivity|].
  change (String x ((a +:+ b) +:+ c) = String x (a +:+ (b +:+ c))).
  rewrite IH. reflexivity.
Qed.

Lemma render_where_interned (f : Frame) (w : World) (stream fname nm : string) :
  string_table w !! filename f = Some fname ->
  string_table w !! name f = Some nm ->
  exists text, render_where f w stream = (Ret tt, stream +:+ text).
Proof.
  intros Hfile Hname. unfold render_where, StringTable.lookup.
  rewrite Hfile, Hname. cbn [fst].
  destruct (String.prefix "native@" fname);
    rewrite !string_app_assoc; eexists; reflexivity.
Qed.

(** X21.  [Frame::render_where] never fails on a frame the resolver hands
    out: in every state the resolver can reach, the file name and the name
    of each cached frame, and of the two sentinels, are interned, so both
    [string_table.lookup] calls return and the line is appended to the
    stream. *)
Theorem render_where_returns (w : World) (r : Frame.Ref) (f : Frame) (stream : string) :
  reachable w -> Frame.deref w r = Some f ->
  exists text, render_where f w stream = (Ret tt, stream +:+ text).
Proof.
  intros Hw Hf. destruct (reachable_invariant w Hw) as (_ & Hres & Hsent).
  assert (Hint : is_Some (string_table w !! filename f)
                 /\ is_Some (string_table w !! name f)).
  { destruct r as [| |k]; cbn in Hf.
    - injection Hf as <-. split; apply Hsent; cbn; eauto.
    - injection Hf as <-. split; apply Hsent; cbn; eauto.
    - apply (Hres k f), find_In. exact Hf. }
  destruct Hint as [[fname Hfile] [nm Hname]].
  exact (render_where_interned f w stream fname nm Hfile Hname).
Qed.

Lemma render_where_returns_witness :
  exists text,
    render_where (mkFrame (Frame.key 1000 0) 2000 3000 (mkLocation 7 7 0 0) false)
      (snd (Frame.get Sample.py311 Sample.memory 1000 0 (initial_world 2))) ""
    = (Ret tt, "" +:+ text).
Proof.
  apply (render_where_returns _ (Frame.Cached (Frame.key 1000 0))).
  - apply reachable_get, reachable_init.
  - vm_compute; reflexivity.
Defined.

(** ** What [Frame::read] hands back *)

Lemma skip_non_code_outcomes (mem : Memory) (fuel : nat) :
  forall (frame_addr : Z) (w w' : World) (o : outcome Z),
    Frame.skip_non_code fuel mem frame_addr w = (o, w') ->
    (exists a, o = Ret a) \/ o = Throw Frame_Error \/ o = OutOfFuel.
Proof.
  induction fuel as [|fuel IH]; intros frame_addr w w' o; cbn [Frame.skip_non_code];
    destruct (frame_addr =? 0); try (intros [= <- _]; eauto; fail).
  unfold bindM at 1. rewrite copy_type_eq.
  destruct (iframe_at mem frame_addr) as [iframe|]; [|intros [= <- _]; auto].
  unfold bindM at 1. rewrite copy_type_eq.
  destruct (is_code_at mem (f_code iframe)) as [[|]|]; try (intros [= <- _]; eauto; fail).
  apply IH.
Qed.

Lemma find_update_present (k : Z) (g : Frame -> Frame) (c : LRUCache.t) :
  is_Some (LRUCache.find k c) -> is_Some (LRUCache.find k (LRUCache.update k g c)).
Proof.
  unfold LRUCache.find, LRUCache.update. cbn [LRUCache.items].
  induction (LRUCache.items c) as [|[k' f'] l IH]; cbn; [auto|].
  destruct (bool_decide (k' = k)) eqn:Hk; cbn; rewrite Hk; cbn; [eauto | exact IH].
Qed.

Lemma get_cached_present (rt : Runtime) (mem : Memory) (code_addr lasti k : Z)
    (w w' : World) :
  Frame.get rt mem code_addr lasti w = (Ret (Frame.Cached k), w') ->
  k = Frame.key code_addr lasti /\ is_Some (LRUCache.find k (frame_cache w')).
Proof.
  intros H. apply get_cases in H.
  destruct H as [(_ & [=] & _) | [(f & _ & [= ->] & _ & _ & ->)
                | [(code & f & w1 & _ & _ & _ & [= ->] & _ & _ & ->)
                  | (_ & Hinv & _)]]].
  - split; [reflexivity|]. rewrite find_head. eauto.
  - split; [reflexivity|]. rewrite find_store. eauto.
  - specialize (Hinv _ eq_refl). discriminate.
Qed.

(** How [Frame::read] ends once the interpreter frame has been copied. *)
Lemma read_tail_cases (rt : Runtime) (mem : Memory) (code_addr lasti prev : Z)
    (assign : Frame.Ref -> M unit) (w w' : World) (o : outcome (Frame.Ref * Z)) :
  (forall k w0, exists w1,
      assign (Frame.Cached k) w0 = (Ret tt, w1)
      /\ (is_Some (LRUCache.find k (frame_cache w0)) ->
          is_Some (LRUCache.find k (frame_cache w1)))) ->
  (let* frame := Frame.get rt mem code_addr lasti in
   match frame with
   | Frame.INVALID_FRAME => pure (frame, 0)
   | _ => let* _ := assign frame in pure (frame, prev)
   end) w = (o, w') ->
  o = Ret (Frame.INVALID_FRAME, 0)
  \/ (exists k, o = Ret (Frame.Cached k, prev)
                /\ is_Some (LRUCache.find k (frame_cache w')))
  \/ (PY_VERSION_HEX rt < 0x030b0000 /\ o = OutOfBounds).
Proof.
  intros Hassign H. unfold bindM at 1 in H.
  destruct (Frame.get rt mem code_addr lasti w) as [o1 w1] eqn:Hget.
  destruct (get_outcome_cases _ _ _ _ _ _ _ Hget) as [-> | [-> | [Hv ->]]].
  - injection H as <- _. auto.
  - apply get_cached_present in Hget. destruct Hget as [_ Hpresent].
    destruct (Hassign (Frame.key code_addr lasti) w1) as (w2 & Heq & Hkeep).
    unfold bindM in H. rewrite Heq in H. injection H as <- <-.
    right. left. eauto.
  - injection H as <- _. auto.
Qed.

Lemma read_cases (fuel : nat) (rt : Runtime) (mem : Memory) (frame_addr : Z)
    (w w' : World) (o : outcome (Frame.Ref * Z)) :
  Frame.read fuel rt mem frame_addr w = (o, w') ->
  o = Ret (Frame.INVALID_FRAME, 0)
  \/ (exists k prev, o = Ret (Frame.Cached k, prev)
                     /\ is_Some (LRUCache.find k (frame_cache w')))
  \/ o = Throw Frame_Error
  \/ (PY_VERSION_HEX rt < 0x030b0000 /\ o = OutOfBounds)
  \/ (0x030d0000 <= PY_VERSION_HEX rt /\ o = OutOfFuel).
Proof.
  unfold Frame.read. destruct (PY_VERSION_HEX rt >=? 0x030b0000) eqn:H311.
  - intros H. apply bindM_cases in H.
    assert (Hskip : forall e w0 w1,
              (if PY_VERSION_HEX rt >=? 0x030d0000
               then let* frame_addr := Frame.skip_non_code fuel mem frame_addr in
                    if frame_addr =? 0 then throw Frame_Error else pure frame_addr
               else pure frame_addr) w0 = (e, w1) ->
              (exists a, e = Ret a) \/ e = Throw Frame_Error
              \/ (0x030d0000 <= PY_VERSION_HEX rt /\ e = OutOfFuel)).
    { intros e w0 w1. destruct (PY_VERSION_HEX rt >=? 0x030d0000) eqn:H313;
        [|intros [= <- _]; eauto].
      assert (Hv : 0x030d0000 <= PY_VERSION_HEX rt) by lia.
      intros H0. apply bindM_cases in H0.
      destruct H0 as [(a & w2 & Hs & H0) | [(e0 & Hs & ->) | [[Hs ->] | [Hs ->]]]].
      - destruct (a =? 0); injection H0 as <- _; eauto.
      - apply skip_non_code_outcomes in Hs.
        destruct Hs as [[a [=]] | [[= ->] | [=]]]. auto.
      - apply skip_non_code_outcomes in Hs. destruct Hs as [[a [=]] | [[=] | [=]]].
      - auto. }
    destruct H as [(a & w1 & _ & H) | [(e & Hs & ->) | [[Hs ->] | [Hs ->]]]].
    + unfold bindM at 1 in H. rewrite copy_type_eq in H.
      destruct (iframe_at mem a) as [iframe|]; [|injection H as <- _; auto].
      eapply read_tail_cases in H.
      * destruct H as [-> | [(k & -> & Hk) | [Hv ->]]]; eauto 10.
      * intros k w0. eexists. split; [reflexivity|]. cbn.
        apply find_update_present.
    + apply Hskip in Hs. destruct Hs as [[a [=]] | [[= ->] | [_ [=]]]]. auto.
    + apply Hskip in Hs. destruct Hs as [[a [=]] | [[=] | [_ [=]]]].
    + apply Hskip in Hs. destruct Hs as [[a [=]] | [[=] | [Hv _]]]. auto 10.
  - intros H. unfold bindM at 1 in H. rewrite copy_type_eq in H.
    destruct (pyframe_at mem frame_addr) as [py_frame|]; [|injection H as <- _; auto].
    assert (Hv : PY_VERSION_HEX rt < 0x030b0000) by lia.
    unfold bindM in H.
    destruct (Frame.get rt mem (pf_code py_frame) (pf_lasti py_frame) (one_read w))
      as [o1 w1] eqn:Hget.
    destruct (get_outcome_cases _ _ _ _ _ _ _ Hget) as [-> | [-> | [_ ->]]].
    + injection H as <- _. auto.
    + apply get_cached_present in Hget. destruct Hget as [_ Hpresent].
      injection H as <- <-. right. left. eauto.
    + injection H as <- _. auto 10.
Qed.

(** X22.  [Frame::read] hands back either [INVALID_FRAME] with a null
    [*prev_addr], or a reference to a frame the cache holds when the call
    returns; it never hands back [UNKNOWN_FRAME].  The one exception it lets
    out is [Frame::Error].  (In front of 3.11 the decoders' read past the
    table can occur inside; from 3.13 on a cyclic frame chain keeps the
    skipping loop turning.) *)
Theorem read_outcomes (fuel : nat) (rt : Runtime) (mem : Memory) (frame_addr : Z)
    (w : World) :
  let r := Frame.read fuel rt mem frame_addr w in
  fst r = Ret (Frame.INVALID_FRAME, 0)
  \/ (exists k prev, fst r = Ret (Frame.Cached k, prev)
                     /\ is_Some (LRUCache.find k (frame_cache (snd r))))
  \/ fst r = Throw Frame_Error
  \/ (PY_VERSION_HEX rt < 0x030b0000 /\ fst r = OutOfBounds)
  \/ (0x030d0000 <= PY_VERSION_HEX rt /\ fst r = OutOfFuel).
Proof.
  cbv zeta. destruct (Frame.read fuel rt mem frame_addr w) as [o w'] eqn:H.
  exact (read_cases fuel rt mem frame_addr w w' o H).
Qed.

(** ** Native frames *)

Lemma key_cursor_symbol (rt : Runtime) (cursor : unw_cursor_t) (k : Z) (w : World) :
  proc_info_start_ip cursor = Some k ->
  is_Some (string_table w !! k) \/ is_Some (proc_name cursor) ->
  fst (StringTable.key_cursor rt cursor w) = Ret k.
Proof.
  intros Hip Hsym. unfold StringTable.key_cursor. rewrite Hip.
  unfold bindM at 1. rewrite contains_eq.
  destruct (bool_decide (is_Some (string_table w !! k))) eqn:Hk; [reflexivity|].
  apply bool_decide_eq_false in Hk.
  destruct Hsym as [Hsym | [sym Hsym]]; [contradiction|].
  rewrite Hsym. reflexivity.
Qed.

(** X23.  A native cursor with a symbol is resolved: when the program counter
    is not 0 and misses the cache, and the unwinder knows the procedure (its
    start address is the program counter, or is interned already, or has a
    name), [Frame::get(cursor)] stores under the program counter the frame
    whose file name key is the program counter and whose name key is the
    procedure's start address, with an all-zero location, and writes its one
    record to the trace. *)
Theorem get_cursor_symbol (rt : Runtime) (cursor : unw_cursor_t) (k : Z) (w : World) :
  reg_ip cursor <> 0 ->
  LRUCache.find (reg_ip cursor) (frame_cache w) = None ->
  proc_info_start_ip cursor = Some k ->
  ~ no_symbol w cursor ->
  let pc := reg_ip cursor in
  let f := mkFrame pc pc k (mkLocation 0 0 0 0) false in
  exists w',
    Frame.get_cursor rt cursor w = (Ret (Frame.Cached pc), w')
    /\ Frame.deref w' (Frame.Cached pc) = Some f
    /\ output w' = output w ++ MojoRenderer.frame pc pc k (mkLocation 0 0 0 0)
    /\ is_Some (string_table w' !! pc) /\ is_Some (string_table w' !! k).
Proof.
  intros Hpc Hmiss Hip Hsym. cbv zeta.
  unfold Frame.get_cursor. rewrite (proj2 (Z.eqb_neq _ _) Hpc).
  unfold try_catch at 1. rewrite cache_lookup_miss by exact Hmiss.
  cbn [is_Cache_LookupError]. unfold try_catch at 1, bindM at 1.
  destruct (Frame.of_cursor rt cursor (reg_ip cursor) w) as [o w1] eqn:Hof.
  assert (Ho : o = Ret (mkFrame 0 (reg_ip cursor) k (mkLocation 0 0 0 0) false)).
  { revert Hof. unfold Frame.of_cursor, try_catch, bindM at 1.
    destruct (key_pc_eq rt (reg_ip cursor) w) as (w2 & Heq & Hin & Hother & _).
    rewrite Heq. unfold bindM.
    assert (Hk : fst (StringTable.key_cursor rt cursor w2) = Ret k).
    { apply key_cursor_symbol; [exact Hip|].
      destruct (decide (k = reg_ip cursor)) as [-> | Hne]; [auto|].
      rewrite Hother by exact Hne.
      destruct (string_table w !! k) as [s|] eqn:Hs; [eauto|].
      destruct (proc_name cursor) as [sym|] eqn:Hname; [eauto|].
      exfalso. apply Hsym. right. exists k. auto. }
    destruct (StringTable.key_cursor rt cursor w2) as [o2 w3]. cbn in Hk. subst o2.
    intros [= <- _]. reflexivity. }
  subst o.
  destruct (of_cursor_cases _ _ _ _ _ _ Hof)
    as [(_ & Hc & Hout) [(k' & [= <-] & _ & Hin_pc & Hin_k) | [=]]].
  rewrite declare_and_store_eq. eexists. split; [reflexivity|].
  unfold Frame.deref. cbn [frame_cache output string_table filename name location].
  rewrite find_store, Hout. auto.
Qed.

Lemma get_cursor_symbol_witness :
  exists w',
    Frame.get_cursor Sample.py311 Native.cursor (initial_world 2)
    = (Ret (Frame.Cached 0x7f0010), w')
    /\ Frame.deref w' (Frame.Cached 0x7f0010)
       = Some (mkFrame 0x7f0010 0x7f0010 0x7f0000 (mkLocation 0 0 0 0) false)
    /\ output w'
       = output (initial_world 2)
         ++ MojoRenderer.frame 0x7f0010 0x7f0010 0x7f0000 (mkLocation 0 0 0 0)
    /\ is_Some (string_table w' !! 0x7f0010)
    /\ is_Some (string_table w' !! 0x7f0000).
Proof.
  apply (get_cursor_symbol Sample.py311 Native.cursor 0x7f0000).
  - cbn; lia.
  - vm_compute; reflexivity.
  - reflexivity.
  - intros [H | (k & _ & _ & _ & H)]; discriminate.
Defined.
